(** * Network probing and classification engine: a shallow embedding

    The development follows the Python sources of the repository:
    - [net_scanner/config.py], [net_scanner/scanner.py], [net_scanner/ip_parser.py]
      (the latency scanner and its address parser);
    - [network_discovery/discovery/port_scanner.py],
      [network_discovery/connectors/protocol_detector.py],
      [network_discovery/discovery/device_detector.py],
      [network_discovery/discovery/engine.py],
      [network_discovery/models/device.py] (the discovery engine).

    Python [int] is [Z]; [float] is the IEEE 754 binary64 [float]; [str] is
    [string] (ASCII text); [dict] is [gmap]; a value that may be an exception
    is [Res]. *)

From Stdlib Require Import ZArith QArith Qround Qabs Lqa Floats Ascii String.
From stdpp Require Import gmap strings list fin_maps pretty.

Local Open Scope Z_scope.

(** A decimal literal of a [float] denotes the nearest double, as in Python. *)
Set Warnings "-inexact-float".

(** ** Results of calls that may raise *)

(** A Python call either returns a value or raises an exception, named here by
    the exception's class. *)
Inductive Res (A : Type) : Type :=
| Ok (a : A)
| Raise (e : string).
Arguments Ok {A} a.
Arguments Raise {A} e.

Definition is_ok {A} (r : Res A) : bool :=
  match r with Ok _ => true | Raise _ => false end.

(** ** The latency scanner ([net_scanner]) *)

Module LatencyScanner.

(** [config.PingResult] *)
Inductive PingResult := SUCCESS | TIMEOUT | UNREACHABLE | ERROR.

#[global] Instance PingResult_eq_dec : EqDecision PingResult.
Proof. solve_decision. Defined.

(** [config.ScanResult] (a dataclass; the defaults are those of the source). *)
Record ScanResult := mkScanResult {
  ip : string;
  is_alive : bool;
  avg_latency : option float;
  latencies : list float;
  error_count : Z;
  success_count : Z;
  last_error : option string
}.

(** [ScanResult(ip=ip, is_alive=a, avg_latency=l, last_error=e)] with the other
    fields at their defaults. *)
Definition new_ScanResult (i : string) (a : bool) (l : option float)
    (e : option string) : ScanResult :=
  mkScanResult i a l [] 0 0 e.

(** [config.ScanSummary] *)
Record ScanSummary := mkScanSummary {
  total_hosts : Z;
  alive_hosts : Z;
  dead_hosts : Z;
  scan_duration : float;
  start_time : option float;
  end_time : option float
}.

Definition ScanSummary_default : ScanSummary :=
  mkScanSummary 0 0 0 0%float None None.

(** *** Python's numbers

    A Python [float] is an IEEE 754 binary64, which is what [float] is here:
    the operations below are the kernel's, rounding to nearest, ties to
    even. *)

(** [float(n)] for an integer: the nearest double. *)
Definition float_of_Z (n : Z) : float :=
  SF2Prim (binary_normalize prec emax n 0 false).

(** The double nearest to the rational [q >= 0], with the sign given: the
    quotient is cut to 60 bits or more with a sticky last bit and rounded
    once.  Beyond the largest double the result is an infinity. *)
Definition nearest_double (negative : bool) (q : Q) : float :=
  let n := Qnum q in
  let d := Z.pos (Qden q) in
  if bool_decide (n ≤ 0) then SF2Prim (S754_zero negative)
  else
    let k := 60 - (Z.log2 n - Z.log2 d) in
    let num := if bool_decide (0 ≤ k) then n * 2 ^ k else n in
    let den := if bool_decide (0 ≤ k) then d else d * 2 ^ (- k) in
    let m := 2 * (num / den) +
             (if bool_decide (num `mod` den = 0) then 0 else 1) in
    SF2Prim (binary_normalize prec emax (if negative then - m else m)
               (- k - 1) negative).

(** Python's true division [a / b] on integers: the double nearest to the
    exact quotient; [ZeroDivisionError] on a zero divisor, [OverflowError]
    when the quotient is beyond the largest double. *)
Definition py_truediv (a b : Z) : Res float :=
  if bool_decide (b = 0) then Raise "ZeroDivisionError"
  else
    let r := nearest_double (xorb (a <? 0) (b <? 0))
               (Z.abs a # Z.to_pos (Z.abs b)) in
    if PrimFloat.is_infinity r then Raise "OverflowError" else Ok r.

(** [ScanSummary.alive_percent] *)
Definition alive_percent (s : ScanSummary) : Res float :=
  if bool_decide (total_hosts s = 0) then Ok 0%float
  else match py_truediv (alive_hosts s) (total_hosts s) with
       | Ok q => Ok (q * 100)%float
       | Raise e => Raise e
       end.

(** [ScanSummary.dead_percent] *)
Definition dead_percent (s : ScanSummary) : Res float :=
  if bool_decide (total_hosts s = 0) then Ok 0%float
  else match py_truediv (dead_hosts s) (total_hosts s) with
       | Ok q => Ok (q * 100)%float
       | Raise e => Raise e
       end.

(** The integer nearest to a rational, a tie going to the even one. *)
Definition round_half_even (y : Q) : Z :=
  let f := Qfloor y in
  match ((y - inject_Z f) ?= 1 # 2)%Q with
  | Lt => f
  | Gt => f + 1
  | Eq => if Z.even f then f else f + 1
  end.

(** Python's [round(x, 2)] on a double: an infinity, a NaN and a zero are
    returned as they are; otherwise the exact value of [x] is rounded to the
    nearest multiple of 1/100 (ties to even) and the result is the double
    nearest to that decimal, with the sign of [x]. *)
Definition py_round2 (x : float) : float :=
  match Prim2SF x with
  | S754_finite s m e =>
      let magnitude := (inject_Z (Z.pos m) * 2 ^ e)%Q in
      nearest_double s (inject_Z (round_half_even (magnitude * 100)) / 100)
  | _ => x
  end.

(** [sum(latencies)]: the additions from 0, left to right (CPython from 3.12
    on carries a compensation term through a sum of floats, which is not
    modelled). *)
Definition py_sum (l : list float) : float := foldl PrimFloat.add 0%float l.

(** [sum(latencies) / len(latencies)] *)
Definition mean (l : list float) : float :=
  (py_sum l / float_of_Z (Z.of_nat (length l)))%float.

(** What the scanner cannot decide by itself: the outcome of each
    [_execute_ping] call and the clock.  Task [i] of Phase 1 ([asyncio.gather]
    keeps the order of its arguments) ends with [ping1 i ip]; task [j] of
    Phase 2 sees the ping outcomes [ping2 j ip] during its sampling window, or
    ends with an exception that escapes [_measure_latency]. *)
Record World := mkWorld {
  ping1 : nat → string → Res (PingResult * option float);
  ping2 : nat → string → Res (list (Res (PingResult * option float)));
  clock_start : float;
  clock_end : float
}.

(** [AsyncPingScanner]: the two attributes the scan writes. *)
Record Scanner := mkScanner {
  results : gmap string ScanResult;
  summary : ScanSummary
}.

(** [AsyncPingScanner.__init__] *)
Definition Scanner_init : Scanner := mkScanner ∅ ScanSummary_default.

(** [_check_single_host]: [(result == PingResult.SUCCESS), latency] *)
Definition _check_single_host (r : Res (PingResult * option float))
    : Res (bool * option float) :=
  match r with
  | Ok (result, latency) => Ok (bool_decide (result = SUCCESS), latency)
  | Raise e => Raise e
  end.

(** [asyncio.gather] with [return_exceptions=True]: one result per task, in
    the order of the tasks. *)
Definition gather {A} (run : nat → string → Res A) (ips : list string)
    : list (Res A) :=
  imap run ips.

(** The body of the loop [for ip, result in zip(ip_list, results)] of
    [_check_availability]; the state is [(self.results, alive_hosts)]. *)
Definition check_step (st : gmap string ScanResult * list string)
    (p : string * Res (bool * option float)) : gmap string ScanResult * list string :=
  let '(res, alive) := st in
  let '(i, result) := p in
  match result with
  | Raise e => (<[i := new_ScanResult i false None (Some e)]> res, alive)
  | Ok (a, latency) =>
      (<[i := new_ScanResult i a (if a then latency else None) None]> res,
       if a then alive ++ [i] else alive)
  end.

(** [_check_availability]: the new [self.results] and the returned
    [alive_hosts]. *)
Definition _check_availability (w : World) (res : gmap string ScanResult)
    (ip_list : list string) : gmap string ScanResult * list string :=
  let results := gather (λ i a, _check_single_host (ping1 w i a)) ip_list in
  foldl check_step (res, []) (zip ip_list results).

(** The samples [_measure_latency] keeps: [result == SUCCESS and latency is not
    None]; an exception inside the loop is logged and skipped. *)
Definition kept_sample (o : Res (PingResult * option float)) : option float :=
  match o with
  | Ok (SUCCESS, Some l) => Some l
  | _ => None
  end.

(** [_measure_latency], given the ping outcomes of its sampling window. *)
Definition _measure_latency (samples : list (Res (PingResult * option float)))
    : option float :=
  let latencies := omap kept_sample samples in
  match latencies with
  | [] => None
  | _ :: _ => Some (py_round2 (mean latencies))
  end.

Definition set_last_error (e : string) (r : ScanResult) : ScanResult :=
  mkScanResult (ip r) (is_alive r) (avg_latency r) (latencies r)
    (error_count r) (success_count r) (Some e).

Definition set_avg_latency (l : float) (r : ScanResult) : ScanResult :=
  mkScanResult (ip r) (is_alive r) (Some l) (latencies r)
    (error_count r) (success_count r) (last_error r).

(** The body of the loop [for ip, latency in zip(alive_hosts, latencies)] of
    [_measure_latencies]. *)
Definition measure_step (res : gmap string ScanResult)
    (p : string * Res (option float)) : gmap string ScanResult :=
  let '(i, latency) := p in
  match latency with
  | Raise e => alter (set_last_error e) i res
  | Ok (Some l) => alter (set_avg_latency l) i res
  | Ok None => res
  end.

Definition measure_task (w : World) (j : nat) (a : string) : Res (option float) :=
  match ping2 w j a with
  | Ok samples => Ok (_measure_latency samples)
  | Raise e => Raise e
  end.

(** [_measure_latencies] *)
Definition _measure_latencies (w : World) (res : gmap string ScanResult)
    (alive : list string) : gmap string ScanResult :=
  match alive with
  | [] => res
  | _ :: _ => foldl measure_step res (zip alive (gather (measure_task w) alive))
  end.

(** [scan_hosts]: the scanner after the scan; the returned map is its
    [results]. *)
Definition scan_hosts (w : World) (sc : Scanner) (ip_list : list string)
    : Scanner :=
  let total := Z.of_nat (length ip_list) in
  let '(res1, alive) := _check_availability w (results sc) ip_list in
  let res2 := _measure_latencies w res1 alive in
  let n_alive := Z.of_nat (length alive) in
  mkScanner res2
    (mkScanSummary total n_alive (total - n_alive)
       (clock_end w - clock_start w)%float
       (Some (clock_start w)) (Some (clock_end w))).

(** *** Facts about the two result loops *)

(** What Phase 1 writes for one host. *)
Definition phase1_record (a : string) (r : Res (bool * option float)) : ScanResult :=
  match r with
  | Raise e => new_ScanResult a false None (Some e)
  | Ok (al, lat) => new_ScanResult a al (if al then lat else None) None
  end.

Definition phase1_alive (r : Res (bool * option float)) : bool :=
  match r with Ok (true, _) => true | _ => false end.

(** What Phase 2 does to the record of one alive host. *)
Definition phase2_update (r : Res (option float)) (rec : ScanResult) : ScanResult :=
  match r with
  | Raise e => set_last_error e rec
  | Ok (Some l) => set_avg_latency l rec
  | Ok None => rec
  end.

Lemma check_step_eq res alive a r :
  check_step (res, alive) (a, r) =
  (<[a := phase1_record a r]> res,
   if phase1_alive r then alive ++ [a] else alive).
Proof. destruct r as [[[] lat]|e]; reflexivity. Qed.

Lemma measure_step_eq res a r :
  measure_step res (a, r) = alter (phase2_update r) a res.
Proof.
  destruct r as [[l|]|e]; simpl; try reflexivity.
  apply map_eq; intros k. rewrite lookup_alter.
  case_decide; [subst|done]. by destruct (res !! k).
Qed.

Lemma zip_gather {A} (f : nat → string → Res A) (l : list string) :
  zip l (gather f l) = imap (λ i a, (a, f i a)) l.
Proof.
  unfold gather. revert f. induction l as [|a l IH]; intros f; [done|].
  simpl. f_equal. apply IH.
Qed.

Lemma imap_snoc {A B} (g : nat → A → B) l x :
  imap g (l ++ [x]) = imap g l ++ [g (length l) x].
Proof. rewrite imap_app. simpl. by rewrite Nat.add_0_r. Qed.

Section phase1.
Context (f : nat → string → Res (bool * option float)).
Context (res0 : gmap string ScanResult).

Definition phase1_loop (l : list string) : gmap string ScanResult * list string :=
  foldl check_step (res0, []) (imap (λ i a, (a, f i a)) l).

Lemma phase1_loop_snoc l x :
  phase1_loop (l ++ [x]) =
  (<[x := phase1_record x (f (length l) x)]> (phase1_loop l).1,
   if phase1_alive (f (length l) x) then (phase1_loop l).2 ++ [x]
   else (phase1_loop l).2).
Proof.
  unfold phase1_loop. rewrite imap_snoc, foldl_snoc.
  destruct (foldl _ _ _) as [res al]. apply check_step_eq.
Qed.

Lemma phase1_other l a :
  a ∉ l → (phase1_loop l).1 !! a = res0 !! a.
Proof.
  induction l as [|x l IH] using rev_ind; [done|].
  intros Hn. rewrite phase1_loop_snoc. simpl.
  rewrite not_elem_of_app, list_elem_of_singleton in Hn.
  destruct Hn as [Hl Hx]. rewrite lookup_insert_ne by done. auto.
Qed.

Lemma phase1_written l a :
  a ∈ l →
  ∃ i, l !! i = Some a ∧
       (phase1_loop l).1 !! a = Some (phase1_record a (f i a)).
Proof.
  induction l as [|x l IH] using rev_ind; [by intros ?%elem_of_nil|].
  intros Hin. rewrite phase1_loop_snoc. simpl.
  destruct (decide (a = x)) as [->|Hne].
  - exists (length l). split.
    + by rewrite lookup_app_r, Nat.sub_diag.
    + by rewrite lookup_insert_eq.
  - rewrite elem_of_app, list_elem_of_singleton in Hin.
    destruct Hin as [Hin|]; [|done].
    destruct (IH Hin) as (i & Hi & Hr). exists i. split.
    + rewrite lookup_app_l; [done|]. by eapply lookup_lt_Some.
    + by rewrite lookup_insert_ne.
Qed.

Lemma phase1_dom l :
  dom (phase1_loop l).1 = dom res0 ∪ list_to_set l.
Proof.
  induction l as [|x l IH] using rev_ind.
  - simpl. set_solver.
  - rewrite phase1_loop_snoc. simpl. rewrite dom_insert_L, IH.
    rewrite list_to_set_app_L. set_solver.
Qed.

Lemma phase1_alive_sublist l : sublist (phase1_loop l).2 l.
Proof.
  induction l as [|x l IH] using rev_ind; [done|].
  rewrite phase1_loop_snoc. simpl.
  destruct (phase1_alive _).
  - by apply sublist_app.
  - by apply sublist_inserts_r.
Qed.

Lemma phase1_alive_elem l a :
  a ∈ (phase1_loop l).2 ↔
  ∃ i, l !! i = Some a ∧ phase1_alive (f i a) = true.
Proof.
  induction l as [|x l IH] using rev_ind.
  - simpl. split; [by intros ?%elem_of_nil|]. by intros (i & Hi & _).
  - rewrite phase1_loop_snoc. simpl.
    assert (Hidx : ∀ i, (l ++ [x]) !! i = Some a ↔
        l !! i = Some a ∨ (i = length l ∧ x = a)).
    { intros i. destruct (decide (i < length l)%nat).
      - rewrite lookup_app_l by done. split; [auto|]. intros [?|[? ?]]; [done|lia].
      - rewrite lookup_app_r by lia. split.
        + intros H. right.
          destruct (i - length l)%nat as [|m] eqn:E; simpl in H; [|done].
          split; [lia|congruence].
        + intros [H|[-> ->]]; [apply lookup_lt_Some in H; lia|].
          by rewrite Nat.sub_diag. }
    destruct (phase1_alive (f (length l) x)) eqn:Hx.
    + rewrite elem_of_app, list_elem_of_singleton, IH. split.
      * intros [(i & Hi & Ha)| ->].
        -- exists i. split; [apply Hidx; auto|done].
        -- exists (length l). split; [apply Hidx; auto|done].
      * intros (i & Hi & Ha). apply Hidx in Hi as [Hi|[-> ->]]; eauto.
    + rewrite IH. split.
      * intros (i & Hi & Ha). exists i. split; [apply Hidx; auto|done].
      * intros (i & Hi & Ha). apply Hidx in Hi as [Hi|[-> ->]]; [eauto|congruence].
Qed.

End phase1.

Section phase2.
Context (h : nat → string → Res (option float)).
Context (res1 : gmap string ScanResult).

Definition phase2_loop (al : list string) : gmap string ScanResult :=
  foldl measure_step res1 (imap (λ j a, (a, h j a)) al).

Lemma phase2_loop_snoc al x :
  phase2_loop (al ++ [x]) =
  alter (phase2_update (h (length al) x)) x (phase2_loop al).
Proof.
  unfold phase2_loop. rewrite imap_snoc, foldl_snoc. apply measure_step_eq.
Qed.

Lemma phase2_other al a :
  a ∉ al → phase2_loop al !! a = res1 !! a.
Proof.
  induction al as [|x al IH] using rev_ind; [done|].
  intros Hn. rewrite phase2_loop_snoc.
  rewrite not_elem_of_app, list_elem_of_singleton in Hn.
  destruct Hn as [Hl Hx]. rewrite lookup_alter_ne by done. auto.
Qed.

Lemma phase2_keeps al a :
  is_alive <$> phase2_loop al !! a = is_alive <$> res1 !! a ∧
  ip <$> phase2_loop al !! a = ip <$> res1 !! a.
Proof.
  induction al as [|x al [IH1 IH2]] using rev_ind; [done|].
  rewrite phase2_loop_snoc, lookup_alter. case_decide; [subst|done].
  rewrite <- IH1, <- IH2.
  destruct (phase2_loop al !! a) as [r|]; [|done]. simpl.
  by destruct (h (length al) a) as [[l|]|e].
Qed.


End phase2.

Lemma check_availability_loop w res ip_list :
  _check_availability w res ip_list =
  phase1_loop (λ i a, _check_single_host (ping1 w i a)) res ip_list.
Proof. unfold _check_availability, phase1_loop. by rewrite zip_gather. Qed.

Lemma measure_latencies_loop w res alive :
  _measure_latencies w res alive = phase2_loop (measure_task w) res alive.
Proof.
  unfold _measure_latencies, phase2_loop. rewrite zip_gather.
  by destruct alive.
Qed.

(** *** Rounding to two decimals *)



(** *** The properties of the scan *)


Lemma scan_hosts_results w sc ip_list :
  results (scan_hosts w sc ip_list) =
  phase2_loop (measure_task w)
    (phase1_loop (λ i a, _check_single_host (ping1 w i a)) (results sc) ip_list).1
    (phase1_loop (λ i a, _check_single_host (ping1 w i a)) (results sc) ip_list).2.
Proof.
  unfold scan_hosts. rewrite check_availability_loop.
  destruct (phase1_loop _ _ _) as [res1 al]. simpl.
  apply measure_latencies_loop.
Qed.

(** C9: [alive_percent] and [dead_percent] return 0.0 when [total_hosts] is 0,
    without a division fault, and [alive_percent] is 50.0 for one alive host
    out of two. *)
Theorem percent_edge_cases (s : ScanSummary) :
  (total_hosts s = 0 →
   alive_percent s = Ok 0%float ∧ dead_percent s = Ok 0%float) ∧
  (alive_hosts s = 1 → total_hosts s = 2 → alive_percent s = Ok 50%float).
Proof.
  split.
  - intros H0. unfold alive_percent, dead_percent. by rewrite !bool_decide_eq_true_2.
  - intros H1 H2. unfold alive_percent. rewrite H1, H2. reflexivity.
Qed.

Lemma percent_edge_cases_witness :
  (alive_percent (mkScanSummary 0 0 0 0%float None None) = Ok 0%float ∧
   dead_percent (mkScanSummary 0 0 0 0%float None None) = Ok 0%float) ∧
  alive_percent (mkScanSummary 2 1 1 0%float None None) = Ok 50%float.
Proof.
  split.
  - apply (proj1 (percent_edge_cases (mkScanSummary 0 0 0 0%float None None))).
    reflexivity.
  - apply (proj2 (percent_edge_cases (mkScanSummary 2 1 1 0%float None None)));
      reflexivity.
Defined.

(** C10: after [scan_hosts], the result map holds a [ScanResult] for every
    address of the input list (its domain is the old domain plus exactly the
    input addresses); an address all of whose probes failed is recorded with
    [is_alive = false], and one all of whose tasks raised also carries the
    text of an exception in [last_error]. *)
Theorem scan_hosts_covers_input (w : World) (sc : Scanner)
    (ip_list : list string) (a : string) :
  a ∈ ip_list →
  (∃ r, results (scan_hosts w sc ip_list) !! a = Some r ∧ ip r = a) ∧
  dom (results (scan_hosts w sc ip_list)) =
    dom (results sc) ∪ list_to_set ip_list ∧
  ((∀ i, ip_list !! i = Some a →
      phase1_alive (_check_single_host (ping1 w i a)) = false) →
   ∃ r, results (scan_hosts w sc ip_list) !! a = Some r ∧
        is_alive r = false) ∧
  ((∀ i, ip_list !! i = Some a → is_ok (ping1 w i a) = false) →
   ∃ r i e, results (scan_hosts w sc ip_list) !! a = Some r ∧
        ip_list !! i = Some a ∧ ping1 w i a = Raise e ∧
        is_alive r = false ∧ last_error r = Some e).
Proof.
  intros Hin. rewrite scan_hosts_results.
  set (f := λ i a, _check_single_host (ping1 w i a)).
  destruct (phase1_written f (results sc) ip_list a Hin) as (i & Hi & Hrec).
  assert (Hdead : (∀ i, ip_list !! i = Some a → phase1_alive (f i a) = false) →
    phase2_loop (measure_task w) (phase1_loop f (results sc) ip_list).1
      (phase1_loop f (results sc) ip_list).2 !! a =
    Some (phase1_record a (f i a))).
  { intros Hall. rewrite phase2_other; [done|].
    rewrite phase1_alive_elem. intros (k & Hk & Ha).
    rewrite (Hall k Hk) in Ha. done. }
  split_and!.
  - pose proof (phase2_keeps (measure_task w) (phase1_loop f (results sc) ip_list).1
      (phase1_loop f (results sc) ip_list).2 a) as [_ Hip].
    rewrite Hrec in Hip. simpl in Hip.
    destruct (phase2_loop _ _ _ !! a) as [r|]; [|done].
    exists r. split; [done|]. simpl in Hip. injection Hip as ->.
    unfold f. by destruct (_check_single_host _) as [[? ?]|?].
  - apply set_eq. intros k. rewrite <- (phase1_dom f (results sc) ip_list).
    rewrite !elem_of_dom, <- !fmap_is_Some with (f := is_alive).
    pose proof (phase2_keeps (measure_task w) (phase1_loop f (results sc) ip_list).1
      (phase1_loop f (results sc) ip_list).2 k) as [-> _]. done.
  - intros Hall. rewrite (Hdead Hall). eexists. split; [done|].
    specialize (Hall i Hi). change (phase1_alive (f i a) = false) in Hall.
    destruct (f i a) as [[[] ?]|?]; done.
  - intros Hall.
    assert (Hall' : ∀ k, ip_list !! k = Some a → phase1_alive (f k a) = false).
    { intros k Hk. specialize (Hall k Hk). unfold f.
      by destruct (ping1 w k a). }
    rewrite (Hdead Hall'). specialize (Hall i Hi). unfold f.
    destruct (ping1 w i a) as [?|e] eqn:E; [done|].
    exists (phase1_record a (Raise e)), i, e. done.
Qed.

(** A world in which every probe raises. *)
Definition failing_world : World :=
  mkWorld (λ _ _, Raise "OSError") (λ _ _, Ok []) 0%float 1%float.

Lemma scan_hosts_covers_input_witness :
  (∃ r, results (scan_hosts failing_world Scanner_init ["10.0.0.1"])
          !! "10.0.0.1" = Some r ∧ ip r = "10.0.0.1") ∧
  dom (results (scan_hosts failing_world Scanner_init ["10.0.0.1"])) =
    dom (results Scanner_init) ∪ list_to_set ["10.0.0.1"] ∧
  (∃ r, results (scan_hosts failing_world Scanner_init ["10.0.0.1"])
          !! "10.0.0.1" = Some r ∧ is_alive r = false) ∧
  (∃ r i e, results (scan_hosts failing_world Scanner_init ["10.0.0.1"])
          !! "10.0.0.1" = Some r ∧
        ["10.0.0.1"] !! i = Some "10.0.0.1" ∧
        ping1 failing_world i "10.0.0.1" = Raise e ∧
        is_alive r = false ∧ last_error r = Some e).
Proof.
  destruct (scan_hosts_covers_input failing_world Scanner_init
              ["10.0.0.1"] "10.0.0.1") as (H1 & H2 & H3 & H4).
  - apply list_elem_of_here.
  - split_and!; [exact H1|exact H2|apply H3|apply H4]; intros; reflexivity.
Defined.


(** A world with a 12.5 ms Phase 1 answer and the three Phase 2 samples 10, 20
    and 30 ms. *)
Definition three_sample_world : World :=
  mkWorld (λ _ _, Ok (SUCCESS, Some 12.5%float))
    (λ _ _, Ok [Ok (SUCCESS, Some 10%float); Ok (SUCCESS, Some 20%float);
                Ok (SUCCESS, Some 30%float)]) 0%float 1%float.


(** The figure is computed on doubles: the samples 0.01 and 0.02 have the
    computed mean 0.014999999999999999, which rounds to 0.01; and 2.675, which
    as a double lies below the decimal, rounds to 2.67. *)
Example figure_on_doubles :
  mean [0.01; 0.02]%float = 0.014999999999999999%float ∧
  py_round2 (mean [0.01; 0.02]%float) = 0.01%float ∧
  py_round2 2.675%float = 2.67%float ∧
  py_round2 0.125%float = 0.12%float.
Proof. split_and!; reflexivity. Qed.



(** *** The retry loop of one probe ([_execute_ping]) *)

(** One run of the external [ping] command: it exits with a return code and
    its output, is killed after the timeout, or cannot be run at all. *)
Inductive attempt :=
| Exited (returncode : Z) (output : string)
| TimedOut
| Failed (e : string).

(** The loop [for attempt in range(self.config.max_retries)], on the attempt
    numbers still to come; the second component lists the back-off sleeps, in
    seconds.  [extract] is [_extract_latency]. *)
Fixpoint execute_loop (extract : string → option float)
    (outcome : nat → attempt)
    (max_retries : Z) (attempts : list nat) (sleeps : list float)
    : (PingResult * option float) * list float :=
  match attempts with
  | [] => ((ERROR, None), sleeps)
  | attempt :: rest =>
      match outcome attempt with
      | Exited returncode output =>
          if bool_decide (returncode = 0) then
            ((SUCCESS, extract output), sleeps)
          else if bool_decide (Z.of_nat attempt < max_retries - 1) then
            execute_loop extract outcome max_retries rest
              (sleeps ++ [0.1 * float_of_Z (Z.of_nat attempt + 1)]%float)
          else ((UNREACHABLE, None), sleeps)
      | TimedOut =>
          if bool_decide (Z.of_nat attempt < max_retries - 1) then
            execute_loop extract outcome max_retries rest sleeps
          else ((TIMEOUT, None), sleeps)
      | Failed _ =>
          if bool_decide (Z.of_nat attempt < max_retries - 1) then
            execute_loop extract outcome max_retries rest sleeps
          else ((ERROR, None), sleeps)
      end
  end.

(** [_execute_ping] *)
Definition _execute_ping (extract : string → option float)
    (outcome : nat → attempt) (max_retries : Z)
    : (PingResult * option float) * list float :=
  execute_loop extract outcome max_retries (seq 0 (Z.to_nat max_retries)) [].

(** An attempt that ends the loop with success. *)
Definition succeeded (a : attempt) : bool :=
  match a with
  | Exited returncode _ => bool_decide (returncode = 0)
  | _ => false
  end.

(** What a failed last attempt is reported as. *)
Definition failure_kind (a : attempt) : PingResult :=
  match a with
  | Exited _ _ => UNREACHABLE
  | TimedOut => TIMEOUT
  | Failed _ => ERROR
  end.

(** The back-off after a failed attempt: a tenth of a second per attempt made,
    and only after a run that exited. *)
Definition backoff (outcome : nat → attempt) (k : nat) : list float :=
  match outcome k with
  | Exited _ _ => [0.1 * float_of_Z (Z.of_nat k + 1)]%float
  | _ => []
  end.

Lemma execute_loop_spec extract outcome max_retries (from n : nat) sleeps :
  Z.of_nat (from + n)%nat = max_retries →
  (∀ (k : nat) out, (from ≤ k < from + n)%nat →
      (∀ j : nat, (from ≤ j < k)%nat → succeeded (outcome j) = false) →
      outcome k = Exited 0 out →
      execute_loop extract outcome max_retries (seq from n) sleeps =
        ((SUCCESS, extract out),
         sleeps ++ flat_map (backoff outcome) (seq from (k - from)%nat))) ∧
  ((∀ j : nat, (from ≤ j < from + n)%nat → succeeded (outcome j) = false) →
   (0 < n)%nat →
   execute_loop extract outcome max_retries (seq from n) sleeps =
     ((failure_kind (outcome (from + n - 1)%nat), None),
      sleeps ++ flat_map (backoff outcome) (seq from (n - 1)%nat))).
Proof.
  revert from sleeps. induction n as [|n IH]; intros from sleeps Hmax.
  { split; [intros; lia|intros; lia]. }
  destruct (IH (S from) (sleeps ++ backoff outcome from)) as [IH1 IH2]; [lia|].
  assert (Hlast : Z.of_nat from < max_retries - 1 ↔ (0 < n)%nat) by lia.
  split.
  - intros k out Hk Hbefore Hout. cbn [seq execute_loop].
    destruct (decide (k = from)) as [->|Hne].
    + rewrite Hout, bool_decide_eq_true_2 by done.
      rewrite Nat.sub_diag. simpl. by rewrite app_nil_r.
    + assert (Hf : succeeded (outcome from) = false) by (apply Hbefore; lia).
      assert (Hn : (0 < n)%nat) by lia.
      assert (Hrest : execute_loop extract outcome max_retries (seq (S from) n)
                        (sleeps ++ backoff outcome from) =
              ((SUCCESS, extract out),
               sleeps ++ flat_map (backoff outcome) (seq from (k - from)%nat))).
      { rewrite (IH1 k out); [|lia|intros; apply Hbefore; lia|done].
        replace (k - from)%nat with (S (k - S from)) by lia.
        cbn [seq flat_map]. by rewrite <- app_assoc. }
      unfold backoff in Hrest at 1.
      destruct (outcome from) as [rc o| |e]; simpl in Hf.
      * rewrite Hf, bool_decide_eq_true_2 by lia. exact Hrest.
      * rewrite bool_decide_eq_true_2 by lia. by rewrite app_nil_r in Hrest.
      * rewrite bool_decide_eq_true_2 by lia. by rewrite app_nil_r in Hrest.
  - intros Hall _. cbn [seq execute_loop].
    assert (Hf : succeeded (outcome from) = false) by (apply Hall; lia).
    destruct n as [|n'].
    + replace (from + 1 - 1)%nat with from by lia. simpl. rewrite app_nil_r.
      destruct (outcome from) as [rc o| |e]; simpl in Hf |- *;
        rewrite ?Hf; by rewrite bool_decide_eq_false_2 by lia.
    + assert (Hrest : execute_loop extract outcome max_retries
                        (seq (S from) (S n')) (sleeps ++ backoff outcome from) =
              ((failure_kind (outcome (from + S (S n') - 1)%nat), None),
               sleeps ++ flat_map (backoff outcome)
                           (seq from (S (S n') - 1)%nat))).
      { rewrite IH2; [|intros; apply Hall; lia|lia].
        replace (S from + S n' - 1)%nat with (from + S (S n') - 1)%nat by lia.
        replace (S (S n') - 1)%nat with (S (S n' - 1)) by lia.
        cbn [seq flat_map]. by rewrite <- app_assoc. }
      unfold backoff in Hrest at 1.
      destruct (outcome from) as [rc o| |e]; simpl in Hf.
      * rewrite Hf, bool_decide_eq_true_2 by lia. exact Hrest.
      * rewrite bool_decide_eq_true_2 by lia. by rewrite app_nil_r in Hrest.
      * rewrite bool_decide_eq_true_2 by lia. by rewrite app_nil_r in Hrest.
Qed.

(** The probe of one host: it succeeds at the first attempt, among the first
    [max_retries], that exits with code 0, with the latency read from that
    attempt's output; if none does, it reports the failure of the last attempt
    (unreachable, timeout or error); it sleeps a tenth of a second per attempt
    made, and only after attempts that exited; without any attempt allowed it
    reports an error. *)
Theorem execute_ping_retries (extract : string → option float)
    (outcome : nat → attempt) (max_retries : Z) :
  (∀ (k : nat) out,
     Z.of_nat k < max_retries →
     (∀ j : nat, (j < k)%nat → succeeded (outcome j) = false) →
     outcome k = Exited 0 out →
     _execute_ping extract outcome max_retries =
       ((SUCCESS, extract out), flat_map (backoff outcome) (seq 0 k))) ∧
  (0 < max_retries →
   (∀ j : nat, Z.of_nat j < max_retries → succeeded (outcome j) = false) →
   _execute_ping extract outcome max_retries =
     ((failure_kind (outcome (Z.to_nat (max_retries - 1))), None),
      flat_map (backoff outcome) (seq 0 (Z.to_nat (max_retries - 1))))) ∧
  (max_retries ≤ 0 →
   _execute_ping extract outcome max_retries = ((ERROR, None), [])).
Proof.
  unfold _execute_ping. split_and!.
  - intros k out Hk Hbefore Hout.
    destruct (execute_loop_spec extract outcome max_retries 0
                (Z.to_nat max_retries) []) as [H _]; [lia|].
    rewrite (H k out); [|lia|intros; apply Hbefore; lia|done].
    by rewrite Nat.sub_0_r.
  - intros Hpos Hall.
    destruct (execute_loop_spec extract outcome max_retries 0
                (Z.to_nat max_retries) []) as [_ H]; [lia|].
    rewrite H; [|intros; apply Hall; lia|lia].
    replace (0 + Z.to_nat max_retries - 1)%nat
      with (Z.to_nat (max_retries - 1)) by lia.
    replace (Z.to_nat max_retries - 1)%nat
      with (Z.to_nat (max_retries - 1)) by lia.
    done.
  - intros Hle. replace (Z.to_nat max_retries) with 0%nat by lia. done.
Qed.

(** Two refusals and then an answer, with three attempts allowed. *)
Definition third_time_lucky (k : nat) : attempt :=
  match k with
  | 0%nat => Exited 1 ""
  | 1%nat => TimedOut
  | _ => Exited 0 "time=12.5 ms"
  end.

Lemma execute_ping_retries_witness :
  _execute_ping (λ _, Some 12.5%float) third_time_lucky 3 =
    ((SUCCESS, Some 12.5%float),
     flat_map (backoff third_time_lucky) (seq 0 2)) ∧
  _execute_ping (λ _, None) (λ _, TimedOut) 3 =
    ((failure_kind TimedOut, None),
     flat_map (backoff (λ _, TimedOut)) (seq 0 (Z.to_nat (3 - 1)))) ∧
  _execute_ping (λ _, None) (λ _, TimedOut) 0 = ((ERROR, None), []).
Proof.
  split; [|split].
  - apply (proj1 (execute_ping_retries (λ _, Some 12.5%float)
                    third_time_lucky 3) 2%nat "time=12.5 ms").
    + lia.
    + intros j Hj. destruct j as [|[|j]]; [reflexivity|reflexivity|lia].
    + reflexivity.
  - apply (proj1 (proj2 (execute_ping_retries (λ _, None) (λ _, TimedOut) 3))).
    + lia.
    + intros; reflexivity.
  - apply (proj2 (proj2 (execute_ping_retries (λ _, None) (λ _, TimedOut) 0))).
    lia.
Defined.

(** *** The summary of a scan ([scan_hosts]) *)

(** The positions of the input list whose Phase 1 probe answered. *)
Definition answered (w : World) (ip_list : list string) : list (nat * string) :=
  filter (λ p, phase1_alive (_check_single_host (ping1 w p.1 p.2)) = true)
    (imap (λ i a, (i, a)) ip_list).

Lemma phase1_alive_length f res0 l :
  length (phase1_loop f res0 l).2 =
  length (filter (λ p : nat * string, phase1_alive (f p.1 p.2) = true)
            (imap (λ i a, (i, a)) l)).
Proof.
  induction l as [|x l IH] using rev_ind; [done|].
  rewrite phase1_loop_snoc, imap_snoc, filter_app, length_app, <- IH.
  cbn [snd]. rewrite filter_cons, filter_nil. cbv beta. cbn [fst snd].
  destruct (phase1_alive (f (length l) x)) eqn:E; case_decide; try done;
    rewrite ?length_app; simpl; lia.
Qed.

Lemma scan_hosts_summary w sc ip_list :
  summary (scan_hosts w sc ip_list) =
  mkScanSummary (Z.of_nat (length ip_list))
    (Z.of_nat (length (answered w ip_list)))
    (Z.of_nat (length ip_list) - Z.of_nat (length (answered w ip_list)))
    (clock_end w - clock_start w)%float
    (Some (clock_start w)) (Some (clock_end w)).
Proof.
  unfold scan_hosts, answered. rewrite check_availability_loop.
  pose proof (phase1_alive_length
    (λ i a, _check_single_host (ping1 w i a)) (results sc) ip_list) as Hlen.
  destruct (phase1_loop _ _ _) as [res1 al]. cbn [snd] in Hlen.
  cbn [summary]. by rewrite Hlen.
Qed.

(** The summary of a scan counts probes, not map entries: the total is the
    length of the input list, the alive count is the number of positions whose
    probe answered, alive and dead add up to the total with neither negative,
    and the duration is the difference of the two clock readings. *)
Theorem scan_summary_counts (w : World) (sc : Scanner) (ip_list : list string) :
  total_hosts (summary (scan_hosts w sc ip_list)) = Z.of_nat (length ip_list) ∧
  alive_hosts (summary (scan_hosts w sc ip_list)) =
    Z.of_nat (length (answered w ip_list)) ∧
  alive_hosts (summary (scan_hosts w sc ip_list)) +
    dead_hosts (summary (scan_hosts w sc ip_list)) =
    total_hosts (summary (scan_hosts w sc ip_list)) ∧
  0 ≤ alive_hosts (summary (scan_hosts w sc ip_list)) ∧
  0 ≤ dead_hosts (summary (scan_hosts w sc ip_list)) ∧
  scan_duration (summary (scan_hosts w sc ip_list)) =
    (clock_end w - clock_start w)%float.
Proof.
  rewrite scan_hosts_summary.
  cbn [total_hosts alive_hosts dead_hosts scan_duration].
  assert (Hle : (length (answered w ip_list) ≤ length ip_list)%nat).
  { unfold answered. etrans; [apply length_filter|]. by rewrite length_imap. }
  split_and!; try lia. done.
Qed.

(** The two percentages are computed on doubles and need not add up to 100:
    with one host alive out of three they are 33.33333333333333 and
    66.66666666666666, whose sum is 99.99999999999999. *)
Example percentages_of_one_in_three :
  alive_percent (mkScanSummary 3 1 2 0%float None None) =
    Ok 33.333333333333329%float ∧
  dead_percent (mkScanSummary 3 1 2 0%float None None) =
    Ok 66.666666666666657%float ∧
  (33.333333333333329 + 66.666666666666657)%float = 99.999999999999986%float.
Proof. split_and!; reflexivity. Qed.

(** *** The report data ([get_summary]) *)

(** The lists [alive_ips] and [dead_ips] of [get_summary], as sets of keys:
    their order (the insertion order of [self.results]) is not modelled. *)
Definition alive_ips (res : gmap string ScanResult) : gset string :=
  dom (filter (λ kv : string * ScanResult, is_alive kv.2 = true) res).

Definition dead_ips (res : gmap string ScanResult) : gset string :=
  dom (filter (λ kv : string * ScanResult, is_alive kv.2 = false) res).

(** The dictionary [latencies] of [get_summary]: the alive hosts whose
    [avg_latency] is not [None]. *)
Definition summary_latencies (res : gmap string ScanResult)
    : gmap string float :=
  omap avg_latency (filter (λ kv : string * ScanResult, is_alive kv.2 = true) res).

Lemma elem_of_alive_ips res a :
  a ∈ alive_ips res ↔ is_alive <$> res !! a = Some true.
Proof.
  unfold alive_ips. rewrite elem_of_dom. unfold is_Some.
  setoid_rewrite map_lookup_filter_Some. cbn [snd].
  destruct (res !! a) as [r|]; cbn; [|naive_solver].
  split; [intros (x & [= <-] & ->); done|intros [= H]; by exists r].
Qed.

Lemma elem_of_dead_ips res a :
  a ∈ dead_ips res ↔ is_alive <$> res !! a = Some false.
Proof.
  unfold dead_ips. rewrite elem_of_dom. unfold is_Some.
  setoid_rewrite map_lookup_filter_Some. cbn [snd].
  destruct (res !! a) as [r|]; cbn; [|naive_solver].
  split; [intros (x & [= <-] & ->); done|intros [= H]; by exists r].
Qed.

Lemma host_lists_partition res :
  alive_ips res ∪ dead_ips res = dom res ∧ alive_ips res ## dead_ips res.
Proof.
  split.
  - apply set_eq. intros a.
    rewrite elem_of_union, elem_of_alive_ips, elem_of_dead_ips, elem_of_dom.
    destruct (res !! a) as [r|]; cbn; [|by split; [intros [|]|intros []]].
    split; [by eexists|]. intros _. destruct (is_alive r); auto.
  - intros a. rewrite elem_of_alive_ips, elem_of_dead_ips.
    intros -> [=].
Qed.

Lemma scan_hosts_dom w sc ip_list :
  dom (results (scan_hosts w sc ip_list)) =
    dom (results sc) ∪ list_to_set ip_list.
Proof.
  rewrite scan_hosts_results.
  set (f := λ i a, _check_single_host (ping1 w i a)).
  apply set_eq. intros k. rewrite <- (phase1_dom f (results sc) ip_list).
  rewrite !elem_of_dom, <- !fmap_is_Some with (f := is_alive).
  by pose proof (phase2_keeps (measure_task w)
                   (phase1_loop f (results sc) ip_list).1
                   (phase1_loop f (results sc) ip_list).2 k) as [-> _].
Qed.

Lemma phase1_record_alive a r : is_alive (phase1_record a r) = phase1_alive r.
Proof. by destruct r as [[[] lat]|e]. Qed.

Lemma scan_hosts_alive_ips w sc ip_list :
  NoDup ip_list → dom (results sc) ⊆ list_to_set ip_list →
  alive_ips (results (scan_hosts w sc ip_list)) =
    list_to_set (phase1_loop (λ i a, _check_single_host (ping1 w i a))
                   (results sc) ip_list).2.
Proof.
  intros Hnd Hdom. rewrite scan_hosts_results.
  set (f := λ i a, _check_single_host (ping1 w i a)).
  apply set_eq. intros a.
  rewrite elem_of_alive_ips, elem_of_list_to_set.
  pose proof (phase2_keeps (measure_task w) (phase1_loop f (results sc) ip_list).1
                (phase1_loop f (results sc) ip_list).2 a) as [-> _].
  rewrite phase1_alive_elem.
  destruct (decide (a ∈ ip_list)) as [Hin|Hnin].
  - destruct (phase1_written f (results sc) ip_list a Hin) as (i & Hi & ->).
    cbn. rewrite phase1_record_alive. split.
    + intros [= Ha]. by exists i.
    + intros (k & Hk & Ha).
      by rewrite (NoDup_lookup _ _ _ _ Hnd Hi Hk), Ha.
  - rewrite phase1_other by done.
    assert (results sc !! a = None) as ->.
    { apply not_elem_of_dom. intros H%Hdom. by apply elem_of_list_to_set in H. }
    split; [done|]. intros (k & Hk & _). destruct Hnin.
    by eapply list_elem_of_lookup_2.
Qed.

(** When the scanned addresses are distinct and the scanner holds no result
    for another address, the counters of the summary are the sizes of the two
    host lists of [get_summary]: the lists split the scanned addresses, the
    alive count is the number of alive addresses and the dead count the number
    of dead ones; the [latencies] dictionary names alive addresses only. *)
Theorem summary_counts_match_host_lists (w : World) (sc : Scanner)
    (ip_list : list string) :
  NoDup ip_list → dom (results sc) ⊆ list_to_set ip_list →
  alive_ips (results (scan_hosts w sc ip_list)) ∪
    dead_ips (results (scan_hosts w sc ip_list)) = list_to_set ip_list ∧
  alive_ips (results (scan_hosts w sc ip_list)) ##
    dead_ips (results (scan_hosts w sc ip_list)) ∧
  Z.of_nat (size (alive_ips (results (scan_hosts w sc ip_list)))) =
    alive_hosts (summary (scan_hosts w sc ip_list)) ∧
  Z.of_nat (size (dead_ips (results (scan_hosts w sc ip_list)))) =
    dead_hosts (summary (scan_hosts w sc ip_list)) ∧
  dom (summary_latencies (results (scan_hosts w sc ip_list))) ⊆
    alive_ips (results (scan_hosts w sc ip_list)).
Proof.
  intros Hnd Hdom.
  set (f := λ i a, _check_single_host (ping1 w i a)).
  destruct (host_lists_partition (results (scan_hosts w sc ip_list)))
    as [Hunion Hdisj].
  assert (Hdom2 : dom (results (scan_hosts w sc ip_list)) = list_to_set ip_list).
  { rewrite scan_hosts_dom. set_solver. }
  assert (Halive : Z.of_nat (size (alive_ips (results (scan_hosts w sc ip_list)))) =
                   alive_hosts (summary (scan_hosts w sc ip_list))).
  { rewrite scan_hosts_alive_ips by done. fold f.
    rewrite size_list_to_set
      by (eapply sublist_NoDup; [exact Hnd|apply phase1_alive_sublist]).
    rewrite scan_hosts_summary. cbn [alive_hosts]. unfold answered.
    by rewrite (phase1_alive_length f (results sc) ip_list). }
  split_and!; [by rewrite Hunion|done|done| |].
  - assert (Hsz : (size (alive_ips (results (scan_hosts w sc ip_list))) +
                   size (dead_ips (results (scan_hosts w sc ip_list))) =
                   length ip_list)%nat).
    { rewrite <- size_union by done. rewrite Hunion, Hdom2.
      by rewrite size_list_to_set. }
    rewrite scan_hosts_summary in Halive |- *.
    cbn [alive_hosts dead_hosts] in Halive |- *. lia.
  - unfold summary_latencies, alive_ips. intros a.
    rewrite !elem_of_dom. intros [q Hq].
    apply lookup_omap_Some in Hq as (r & _ & Hr). by exists r.
Qed.

Lemma summary_counts_match_host_lists_witness :
  Z.of_nat (size (alive_ips (results (scan_hosts three_sample_world Scanner_init
                                        ["8.8.8.8"; "1.1.1.1"])))) =
    alive_hosts (summary (scan_hosts three_sample_world Scanner_init
                            ["8.8.8.8"; "1.1.1.1"])) ∧
  Z.of_nat (size (dead_ips (results (scan_hosts three_sample_world Scanner_init
                                       ["8.8.8.8"; "1.1.1.1"])))) =
    dead_hosts (summary (scan_hosts three_sample_world Scanner_init
                           ["8.8.8.8"; "1.1.1.1"])).
Proof.
  destruct (summary_counts_match_host_lists three_sample_world Scanner_init
              ["8.8.8.8"; "1.1.1.1"]) as (_ & _ & Ha & Hd & _).
  - apply (bool_decide_unpack _). by vm_compute.
  - intros a Ha. by apply elem_of_empty in Ha.
  - by split.
Defined.

(** An address listed twice is counted twice by the summary and held once by
    the result map. *)
Example duplicate_address_counted_twice :
  alive_hosts (summary (scan_hosts three_sample_world Scanner_init
                          ["8.8.8.8"; "8.8.8.8"])) = 2 ∧
  size (alive_ips (results (scan_hosts three_sample_world Scanner_init
                              ["8.8.8.8"; "8.8.8.8"]))) = 1%nat.
Proof. split; by vm_compute. Qed.

End LatencyScanner.

(** ** Address expansion ([ip_parser.IPParser], [port_scanner.PortScanner]) *)

Module AddressExpansion.

(** *** Python's [ipaddress] networks, as far as the two parsers use them *)

Inductive version := V4 | V6.

(** [_max_prefixlen] *)
Definition max_prefixlen (v : version) : Z :=
  match v with V4 => 32 | V6 => 128 end.

(** [_ALL_ONES] *)
Definition ALL_ONES (v : version) : Z := 2 ^ max_prefixlen v - 1.

(** [IPv4Network] / [IPv6Network]: addresses are integers of the version's
    width. [given] is the address the network was built from. *)
Record IPNetwork := mkIPNetwork {
  net_version : version;
  given : Z;
  network_address : Z;
  netmask : Z;
  prefixlen : Z
}.

(** [_ip_int_from_prefix] *)
Definition _ip_int_from_prefix (v : version) (p : Z) : Z :=
  Z.lxor (ALL_ONES v) (Z.shiftr (ALL_ONES v) p).

(** [ipaddress.ip_network(address, strict=False)] on an address and a prefix
    length already read from the text: [ValueError] on an address or a prefix
    out of range, and the host bits are masked off. *)
Definition ip_network (v : version) (addr p : Z) : Res IPNetwork :=
  if bool_decide (0 ≤ addr ≤ ALL_ONES v) then
    if bool_decide (0 ≤ p ≤ max_prefixlen v) then
      let mask := _ip_int_from_prefix v p in
      Ok (mkIPNetwork v addr (Z.land addr mask) mask p)
    else Raise "ValueError"
  else Raise "ValueError".

Definition hostmask (n : IPNetwork) : Z :=
  Z.lxor (netmask n) (ALL_ONES (net_version n)).

Definition broadcast_address (n : IPNetwork) : Z :=
  Z.lor (network_address n) (hostmask n).

Definition num_addresses (n : IPNetwork) : Z :=
  broadcast_address n - network_address n + 1.

(** [range(a, b)] *)
Definition py_range (a b : Z) : list Z := seqZ a (b - a).

(** [__iter__] *)
Definition iter_network (n : IPNetwork) : list Z :=
  py_range (network_address n) (broadcast_address n + 1).

(** [hosts()]: the constructor replaces it for the two longest prefixes; below
    them IPv4 leaves out the network and the broadcast address and IPv6 the
    subnet-router anycast address. *)
Definition hosts (n : IPNetwork) : list Z :=
  if bool_decide (prefixlen n = max_prefixlen (net_version n) - 1) then
    iter_network n
  else if bool_decide (prefixlen n = max_prefixlen (net_version n)) then
    [given n]
  else
    match net_version n with
    | V4 => py_range (network_address n + 1) (broadcast_address n)
    | V6 => py_range (network_address n + 1) (broadcast_address n + 1)
    end.

(** [network[k]] *)
Definition getitem (n : IPNetwork) (k : Z) : Res Z :=
  if bool_decide (0 ≤ k) then
    if bool_decide (network_address n + k > broadcast_address n)
    then Raise "IndexError"
    else Ok (network_address n + k)
  else
    if bool_decide (broadcast_address n + (k + 1) < network_address n)
    then Raise "IndexError"
    else Ok (broadcast_address n + (k + 1)).

(** *** The two parsers on a CIDR line

    Both store [str(ip)]; [str] is injective on the addresses of one version,
    so the collections below hold the addresses themselves and [str_ipv4]
    renders them. *)

(** The spellings of an address that [ipaddress] reads: a dotted quad
    (IPv4), groups separated by colons (IPv6), and groups that end in a dotted
    quad (IPv6 again, as in [::ffff:10.0.0.0]). *)
Inductive spelling := Dotted | Groups | GroupsDotted.

Definition spelled_version (sp : spelling) : version :=
  match sp with Dotted => V4 | Groups | GroupsDotted => V6 end.

(** ['.' in address] and [':' in address] *)
Definition has_dot (sp : spelling) : bool :=
  match sp with Groups => false | Dotted | GroupsDotted => true end.

Definition has_colon (sp : spelling) : bool :=
  match sp with Dotted => false | Groups | GroupsDotted => true end.

(** [IPParser.parse_line] on [address/mask] with a numeric mask: the two mask
    checks, which look at the text of the address and not at its version, then
    the CIDR branch; a [ValueError] gives the empty set. *)
Definition parse_line_cidr (sp : spelling) (addr mask : Z) : Res (gset Z) :=
  if has_dot sp && bool_decide (mask > 32) then Ok ∅
  else if has_colon sp && bool_decide (mask > 128) then Ok ∅
  else
    match ip_network (spelled_version sp) addr mask with
    | Raise _ => Ok ∅
    | Ok network =>
        if bool_decide (num_addresses network > 65536) then
          match getitem network 1, getitem network (-2) with
          | Ok first, Ok last => Ok ({[first]} ∪ {[last]})
          | Raise e, _ => Raise e
          | _, Raise e => Raise e
          end
        else Ok (list_to_set (hosts network))
    end.

(** [PortScanner._parse_ip_range] on a range with a [/]. *)
Definition _parse_ip_range_cidr (v : version) (addr mask : Z) : list Z :=
  match ip_network v addr mask with
  | Raise _ => []
  | Ok network => hosts network
  end.


(** A dotted quad as an address, and back as text. *)
Definition ipv4 (a b c d : Z) : Z := a * 2 ^ 24 + b * 2 ^ 16 + c * 2 ^ 8 + d.


(** *** Masks and sizes *)




Section network.
Context (v : version) (addr p : Z).
Context (Haddr : 0 ≤ addr ≤ ALL_ONES v) (Hp : 0 ≤ p ≤ max_prefixlen v).










End network.








(** The IPv4-mapped network ::ffff:10.0.0.0/120, spelled with its dotted quad:
    [_parse_ip_range] lists its 255 hosts, [parse_line] drops the line because
    the text has a dot and the prefix is above 32; spelled with groups only
    (::ffff:a00:0/120) the same network is expanded. *)
Example mapped_network_is_dropped :
  length (_parse_ip_range_cidr V6 (65535 * 2 ^ 32 + ipv4 10 0 0 0) 120) =
    255%nat ∧
  parse_line_cidr GroupsDotted (65535 * 2 ^ 32 + ipv4 10 0 0 0) 120 = Ok ∅ ∧
  ∃ s, parse_line_cidr Groups (65535 * 2 ^ 32 + ipv4 10 0 0 0) 120 = Ok s ∧
       size s = 255%nat.
Proof.
  split_and!; [by vm_compute|by vm_compute|].
  eexists. split; [reflexivity|]. by vm_compute.
Qed.


(** *** Start-end ranges *)

#[global] Instance version_eq_dec : EqDecision version.
Proof. solve_decision. Defined.

(** [ipaddress.ip_address] on an address already read from the text. *)
Definition ip_address (v : version) (a : Z) : Res Z :=
  if bool_decide (0 ≤ a ≤ ALL_ONES v) then Ok a else Raise "ValueError".

(** [IPParser.parse_line] on [start-end]: mixed versions and a start above the
    end give nothing, an IPv4 range of more than 1000 addresses and every IPv6
    range give the two ends only. *)
Definition parse_line_range (v1 : version) (start : Z) (v2 : version) (stop : Z)
    : gset Z :=
  match ip_address v1 start, ip_address v2 stop with
  | Ok start_int, Ok end_int =>
      if bool_decide (v1 ≠ v2) then ∅
      else
        match v1 with
        | V4 =>
            if bool_decide (start_int > end_int) then ∅
            else
              let range_size := end_int - start_int + 1 in
              if bool_decide (range_size > 1000)
              then {[start_int]} ∪ {[end_int]}
              else list_to_set (py_range start_int (end_int + 1))
        | V6 => {[start_int]} ∪ {[end_int]}
        end
  | _, _ => ∅
  end.

(** The loop [while current <= end] of [PortScanner._parse_ip_range]; adding 1
    to the last address of the version raises [AddressValueError].  [None]
    stands for a loop that has not ended within [fuel] rounds. *)
Fixpoint range_loop (v : version) (fuel : nat) (current stop : Z)
    (ip_list : list Z) : option (Res (list Z)) :=
  match fuel with
  | O => None
  | S fuel' =>
      if bool_decide (current ≤ stop) then
        let ip_list := ip_list ++ [current] in
        if bool_decide (current + 1 > ALL_ONES v)
        then Some (Raise "AddressValueError")
        else range_loop v fuel' (current + 1) stop ip_list
      else Some (Ok ip_list)
  end.

(** [PortScanner._parse_ip_range] on [start-end]: a [ValueError] (and so an
    [AddressValueError]) gives the empty list; comparing addresses of two
    versions raises [TypeError], which the function does not catch. *)
Definition _parse_ip_range_range (fuel : nat) (v1 : version) (start : Z)
    (v2 : version) (stop : Z) : option (Res (list Z)) :=
  match ip_address v1 start, ip_address v2 stop with
  | Ok start_int, Ok end_int =>
      if bool_decide (v1 ≠ v2) then Some (Raise "TypeError")
      else
        match range_loop v1 fuel start_int end_int [] with
        | Some (Raise _) => Some (Ok [])
        | r => r
        end
  | _, _ => Some (Ok [])
  end.

Lemma range_loop_spec v (n : nat) fuel current stop ip_list :
  Z.of_nat n = stop - current + 1 → (n < fuel)%nat → 0 ≤ current →
  range_loop v fuel current stop ip_list =
    if bool_decide (stop < ALL_ONES v)
    then Some (Ok (ip_list ++ seqZ current (Z.of_nat n)))
    else if bool_decide (n = 0%nat) then Some (Ok ip_list)
    else if bool_decide (stop = ALL_ONES v)
         then Some (Raise "AddressValueError")
         else range_loop v fuel current stop ip_list.
Proof.
  revert fuel current ip_list.
  induction n as [|n IH]; intros fuel current ip_list Hn Hfuel Hcur.
  - destruct fuel as [|fuel]; [lia|]. cbn [range_loop].
    rewrite bool_decide_eq_false_2 by lia. simpl. rewrite app_nil_r.
    by case_bool_decide.
  - destruct fuel as [|fuel]; [lia|]. cbn [range_loop].
    rewrite bool_decide_eq_true_2 by lia.
    rewrite (bool_decide_eq_false_2 (S n = 0%nat)) by lia.
    destruct (decide (stop < ALL_ONES v)) as [Hlt|Hge].
    + rewrite (bool_decide_eq_true_2 _ Hlt).
      rewrite bool_decide_eq_false_2 by lia.
      rewrite (IH fuel (current + 1)) by lia.
      rewrite (bool_decide_eq_true_2 _ Hlt).
      rewrite <- app_assoc. do 3 f_equal.
      rewrite (seqZ_cons current (Z.of_nat (S n))) by lia.
      cbn [app]. f_equal. f_equal; lia.
    + rewrite (bool_decide_eq_false_2 _ Hge).
      destruct (decide (stop = ALL_ONES v)) as [Heq|Hne].
      * rewrite (bool_decide_eq_true_2 _ Heq).
        destruct (decide (current + 1 > ALL_ONES v)) as [Hov|Hno].
        -- by rewrite bool_decide_eq_true_2.
        -- rewrite bool_decide_eq_false_2 by done.
           rewrite (IH fuel (current + 1)) by lia.
           rewrite (bool_decide_eq_false_2 _ Hge).
           rewrite bool_decide_eq_false_2 by lia.
           by rewrite bool_decide_eq_true_2.
      * by rewrite (bool_decide_eq_false_2 (stop = ALL_ONES v)) by done.
Qed.

(** Start-end ranges: [parse_line] expands an IPv4 range of at most 1000
    addresses to all of them, gives the two ends of a longer one, nothing when
    the start is above the end, and the two ends of every IPv6 range;
    [_parse_ip_range] lists an ascending range in full when it stops below the
    last address of the version, returns the empty list when the range ends at
    that last address (the step past it raises a [ValueError] that the
    function turns into "no addresses"), and lets the [TypeError] of a
    mixed-version range escape. *)
Theorem range_expansion (v : version) (start stop : Z) (fuel : nat) :
  0 ≤ start ≤ ALL_ONES v → 0 ≤ stop ≤ ALL_ONES v →
  (v = V4 → start ≤ stop → stop - start + 1 ≤ 1000 →
   parse_line_range v start v stop = list_to_set (seqZ start (stop - start + 1))
   ∧ Z.of_nat (size (parse_line_range v start v stop)) = stop - start + 1) ∧
  (v = V4 → stop - start + 1 > 1000 →
   parse_line_range v start v stop = {[start]} ∪ {[stop]}) ∧
  (v = V4 → start > stop → parse_line_range v start v stop = ∅) ∧
  (v = V6 → parse_line_range v start v stop = {[start]} ∪ {[stop]}) ∧
  (start ≤ stop → stop < ALL_ONES v → stop - start + 1 < Z.of_nat fuel →
   _parse_ip_range_range fuel v start v stop =
     Some (Ok (seqZ start (stop - start + 1)))) ∧
  (start ≤ stop → stop = ALL_ONES v → stop - start + 1 < Z.of_nat fuel →
   _parse_ip_range_range fuel v start v stop = Some (Ok [])) ∧
  (start > stop → (0 < fuel)%nat →
   _parse_ip_range_range fuel v start v stop = Some (Ok [])) ∧
  (∀ v', v' ≠ v → 0 ≤ stop ≤ ALL_ONES v' →
   _parse_ip_range_range fuel v start v' stop = Some (Raise "TypeError")).
Proof.
  intros Hs He.
  unfold parse_line_range, _parse_ip_range_range, ip_address.
  rewrite !bool_decide_eq_true_2 by done.
  rewrite (bool_decide_eq_false_2 (v ≠ v)) by (by intros ?).
  split_and!.
  - intros -> Hle Hsz. rewrite !bool_decide_eq_false_2 by lia.
    unfold py_range. replace (stop + 1 - start) with (stop - start + 1) by lia.
    split; [done|].
    rewrite size_list_to_set by apply NoDup_seqZ. rewrite length_seqZ. lia.
  - intros -> Hsz. rewrite bool_decide_eq_false_2 by lia.
    by rewrite bool_decide_eq_true_2 by lia.
  - intros -> Hgt. by rewrite bool_decide_eq_true_2 by lia.
  - by intros ->.
  - intros Hle Hlt Hfuel.
    rewrite (range_loop_spec v (Z.to_nat (stop - start + 1))) by lia.
    rewrite bool_decide_eq_true_2 by done. simpl.
    do 3 f_equal. lia.
  - intros Hle Heq Hfuel.
    rewrite (range_loop_spec v (Z.to_nat (stop - start + 1))) by lia.
    rewrite bool_decide_eq_false_2 by lia.
    rewrite bool_decide_eq_false_2 by lia.
    by rewrite bool_decide_eq_true_2.
  - intros Hgt Hfuel. destruct fuel as [|fuel]; [lia|]. cbn [range_loop].
    by rewrite bool_decide_eq_false_2 by lia.
  - intros v' Hne He'. rewrite bool_decide_eq_true_2 by done.
    by rewrite bool_decide_eq_true_2 by done.
Qed.

Lemma range_expansion_witness :
  parse_line_range V4 (ipv4 10 0 0 1) V4 (ipv4 10 0 0 10) =
    list_to_set (seqZ (ipv4 10 0 0 1) (ipv4 10 0 0 10 - ipv4 10 0 0 1 + 1)) ∧
  Z.of_nat (size (parse_line_range V4 (ipv4 10 0 0 1) V4 (ipv4 10 0 0 10))) =
    ipv4 10 0 0 10 - ipv4 10 0 0 1 + 1.
Proof.
  apply (range_expansion V4 (ipv4 10 0 0 1) (ipv4 10 0 0 10) 0);
    vm_compute; (done || (split; discriminate) || discriminate).
Defined.

(** The last ten addresses of IPv4, as a range: [parse_line] returns them,
    [_parse_ip_range] returns nothing. *)
Example last_addresses_range :
  size (parse_line_range V4 (ipv4 255 255 255 246) V4 (ipv4 255 255 255 255)) =
    10%nat ∧
  _parse_ip_range_range 20 V4 (ipv4 255 255 255 246) V4 (ipv4 255 255 255 255) =
    Some (Ok []).
Proof. split; by vm_compute. Qed.

End AddressExpansion.

(** ** The single-port probe ([port_scanner.PortScanner.scan_single_port]) *)

Module PortProbe.

(** The sockets of the process: the next descriptor, and the sockets that
    were made and that no call of [close()] has closed yet.  What the
    interpreter does with a socket object that is dropped unclosed is not
    modelled. *)
Record Sockets := mkSockets {
  next_fd : nat;
  open_fds : gset nat
}.

(** What the network decides: whether a socket can be created, whether a host
    string resolves, and the error number of a connection attempt. *)
Record World := mkWorld {
  socket_ok : bool;
  resolves : string → bool;
  connect_errno : string → Z → Z
}.

(** Calls that use the sockets and may raise. *)
Definition M (A : Type) : Type := Sockets → Res A * Sockets.

Definition ret {A} (a : A) : M A := λ s, (Ok a, s).

Definition bind {A B} (m : M A) (k : A → M B) : M B :=
  λ s, match m s with
       | (Ok a, s') => k a s'
       | (Raise e, s') => (Raise e, s')
       end.

#[local] Instance M_ret : MRet M := @ret.
#[local] Instance M_bind : MBind M := λ A B k m, bind m k.

(** [try: body except Exception: return handler] *)
Definition try_except {A} (body : M A) (handler : A) : Sockets → A * Sockets :=
  λ s, match body s with
       | (Ok a, s') => (a, s')
       | (Raise _, s') => (handler, s')
       end.

(** [socket.socket(AF_INET, SOCK_STREAM)] *)
Definition socket_new (w : World) : M nat :=
  λ s, if socket_ok w
       then (Ok (next_fd s),
             mkSockets (S (next_fd s)) ({[next_fd s]} ∪ open_fds s))
       else (Raise "OSError", s).

(** [sock.settimeout(t)]: [ValueError] on a negative timeout. *)
Definition settimeout (t : Z) : M unit :=
  λ s, if bool_decide (t < 0) then (Raise "ValueError", s) else (Ok (), s).

(** [sock.connect_ex((ip, port))]: the error number of the attempt; a port out
    of range and a host that does not resolve are raised, not returned. *)
Definition connect_ex (w : World) (ip : string) (port : Z) : M Z :=
  λ s, if bool_decide (0 ≤ port ≤ 65535) then
         if resolves w ip then (Ok (connect_errno w ip port), s)
         else (Raise "gaierror", s)
       else (Raise "OverflowError", s).

(** [sock.close()] *)
Definition close (fd : nat) : M unit :=
  λ s, (Ok (), mkSockets (next_fd s) (open_fds s ∖ {[fd]})).

(** [scan_single_port] *)
Definition scan_single_port (w : World) (timeout : Z) (ip : string) (port : Z)
    : Sockets → (Z * bool) * Sockets :=
  try_except
    (sock ← socket_new w;
     _ ← settimeout timeout;
     result ← connect_ex w ip port;
     _ ← close sock;
     mret (port, bool_decide (result = 0)))
    (port, false).

(** A process with no socket yet, and a network on which everything resolves
    and every connection is refused (error 111). *)
Definition no_sockets : Sockets := mkSockets 0 ∅.

Definition refusing_world : World := mkWorld true (λ _, true) (λ _ _, 111).

(** The probe returns on every input, and says "open" exactly when the socket
    was made, the timeout set and the connection completed with error 0. *)
Lemma scan_single_port_returns w timeout ip port s :
  ∃ b, (scan_single_port w timeout ip port s).1 = (port, b) ∧
       (b = true ↔
        socket_ok w = true ∧ 0 ≤ timeout ∧ 0 ≤ port ≤ 65535 ∧
        resolves w ip = true ∧ connect_errno w ip port = 0).
Proof.
  unfold scan_single_port, try_except, mbind, M_bind, bind, socket_new,
    settimeout, connect_ex, close, mret, M_ret, ret.
  destruct (socket_ok w); [|exists false; naive_solver].
  case_bool_decide; [exists false; split; [done|]; naive_solver lia|].
  case_bool_decide; [|exists false; naive_solver].
  destruct (resolves w ip); [|exists false; naive_solver].
  eexists. split; [done|]. rewrite bool_decide_eq_true. naive_solver lia.
Qed.

(** When the connection attempt returns an error number, the socket the probe
    opened is closed again. *)
Lemma scan_single_port_closes w timeout ip port s :
  0 ≤ timeout → 0 ≤ port ≤ 65535 → resolves w ip = true →
  next_fd s ∉ open_fds s →
  open_fds (scan_single_port w timeout ip port s).2 = open_fds s.
Proof.
  intros Ht Hp Hr Hfresh.
  unfold scan_single_port, try_except, mbind, M_bind, bind, socket_new,
    settimeout, connect_ex, close, mret, M_ret, ret.
  destruct (socket_ok w); [|done].
  rewrite bool_decide_eq_false_2 by lia.
  rewrite bool_decide_eq_true_2 by done. rewrite Hr. simpl. set_solver.
Qed.

(** C3 (the code departs from it): a probe of port 70000 returns "closed"
    without raising, but [connect_ex] raised before [sock.close()] was reached,
    and the socket the probe opened is still open afterwards. *)
Theorem scan_single_port_leaks_socket :
  (scan_single_port refusing_world 3 "10.0.0.5" 70000 no_sockets).1 =
    (70000, false) ∧
  open_fds (scan_single_port refusing_world 3 "10.0.0.5" 70000 no_sockets).2 =
    {[0%nat]} ∧
  open_fds no_sockets = ∅.
Proof. split_and!; by vm_compute. Qed.

(** *** [scan_ports] and [quick_scan] *)

(** The loop [for future in as_completed(future_to_port)].  A probe touches
    only the socket it made and its answer does not depend on the other
    probes, so the probes are taken one after the other, in the order in which
    they complete; [future.result] cannot raise, since [scan_single_port]
    catches every exception. *)
Fixpoint collect (w : World) (timeout : Z) (ip : string) (completed : list Z)
    (open_ports : list Z) (s : Sockets) : list Z * Sockets :=
  match completed with
  | [] => (open_ports, s)
  | port :: rest =>
      let '((port, is_open), s) := scan_single_port w timeout ip port s in
      collect w timeout ip rest
        (if is_open then open_ports ++ [port] else open_ports) s
  end.

(** [scan_ports]: one future per element of [ports]; [completion] is the order
    in which the pool completes them.  [ThreadPoolExecutor] refuses a number
    of workers that is not positive. *)
Definition scan_ports (w : World) (timeout max_workers : Z)
    (completion : list Z → list Z) (ip : string) (ports : list Z)
    (s : Sockets) : Res (list Z) * Sockets :=
  if bool_decide (max_workers ≤ 0) then (Raise "ValueError", s)
  else
    let '(open_ports, s) := collect w timeout ip (completion ports) [] s in
    (Ok open_ports, s).

(** [quick_scan] *)
Definition quick_scan (w : World) (timeout max_workers : Z)
    (completion : list Z → list Z) (ip : string) (s : Sockets)
    : Res bool * Sockets :=
  let management_ports := [22; 23; 80; 443; 2222] in
  match scan_ports w timeout max_workers completion ip management_ports s with
  | (Ok open_ports, s) => (Ok (bool_decide (Z.of_nat (length open_ports) > 0)), s)
  | (Raise e, s) => (Raise e, s)
  end.

(** A port answers: the socket is made, the timeout accepted, the port in
    range, the host resolved and the connection completed with error 0. *)
Definition answers (w : World) (timeout : Z) (ip : string) (port : Z) : Prop :=
  socket_ok w = true ∧ 0 ≤ timeout ∧ 0 ≤ port ≤ 65535 ∧
  resolves w ip = true ∧ connect_errno w ip port = 0.

#[global] Instance answers_dec w timeout ip port :
  Decision (answers w timeout ip port).
Proof. unfold answers. apply _. Defined.

(** A probe is cut short: its socket is made and then [settimeout] or
    [connect_ex] raises, so that [sock.close()] is not reached. *)
Definition cut_short (w : World) (timeout : Z) (ip : string) (port : Z) : Prop :=
  socket_ok w = true ∧
  (timeout < 0 ∨ ¬ (0 ≤ port ≤ 65535) ∨ resolves w ip = false).

#[global] Instance cut_short_dec w timeout ip port :
  Decision (cut_short w timeout ip port).
Proof. unfold cut_short. apply _. Defined.

(** Every descriptor in use is below the next one to be handed out. *)
Definition well_numbered (s : Sockets) : Prop :=
  ∀ fd, fd ∈ open_fds s → (fd < next_fd s)%nat.

Lemma scan_single_port_answer w timeout ip port s :
  (scan_single_port w timeout ip port s).1 =
    (port, bool_decide (answers w timeout ip port)).
Proof.
  destruct (scan_single_port_returns w timeout ip port s) as (b & -> & Hb).
  f_equal. destruct b.
  - symmetry. apply bool_decide_eq_true_2, Hb. done.
  - symmetry. apply bool_decide_eq_false_2. intros H%Hb. done.
Qed.

Lemma scan_single_port_sockets w timeout ip port s :
  well_numbered s →
  well_numbered (scan_single_port w timeout ip port s).2 ∧
  size (open_fds (scan_single_port w timeout ip port s).2) =
    (size (open_fds s) +
     if bool_decide (cut_short w timeout ip port) then 1 else 0)%nat.
Proof.
  intros Hs.
  assert (Hfresh : next_fd s ∉ open_fds s) by (intros H%Hs; lia).
  assert (Hgrow : well_numbered
            (mkSockets (S (next_fd s)) ({[next_fd s]} ∪ open_fds s))).
  { intros fd. cbn [open_fds next_fd].
    rewrite elem_of_union, elem_of_singleton. intros [->|H%Hs]; lia. }
  assert (Hsame : well_numbered
            (mkSockets (S (next_fd s))
               (({[next_fd s]} ∪ open_fds s) ∖ {[next_fd s]}))).
  { intros fd. cbn [open_fds next_fd].
    rewrite elem_of_difference, elem_of_union, elem_of_singleton.
    intros [[->|H%Hs] ?]; lia. }
  set (c := bool_decide (cut_short w timeout ip port)).
  assert (Hc : c = true ↔ cut_short w timeout ip port)
    by apply bool_decide_eq_true.
  clearbody c. unfold cut_short in Hc.
  unfold scan_single_port, try_except, mbind, M_bind, bind,
    socket_new, settimeout, connect_ex, close, mret, M_ret, ret.
  destruct (socket_ok w).
  2:{ assert (c = false) as -> by (destruct c; naive_solver).
      cbn [snd]. split; [done|lia]. }
  case_bool_decide as Ht.
  { assert (c = true) as -> by (apply Hc; naive_solver). cbn [snd open_fds].
    split; [done|]. rewrite size_union, size_singleton by set_solver. lia. }
  case_bool_decide as Hp.
  2:{ assert (c = true) as -> by (apply Hc; naive_solver). cbn [snd open_fds].
      split; [done|]. rewrite size_union, size_singleton by set_solver. lia. }
  destruct (resolves w ip).
  2:{ assert (c = true) as -> by (apply Hc; naive_solver). cbn [snd open_fds].
      split; [done|]. rewrite size_union, size_singleton by set_solver. lia. }
  assert (c = false) as -> by (destruct c; [|done]; naive_solver lia).
  cbn [snd open_fds next_fd]. split; [done|].
  replace (({[next_fd s]} ∪ open_fds s) ∖ {[next_fd s]}) with (open_fds s)
    by set_solver.
  lia.
Qed.

Lemma collect_spec w timeout ip completed open_ports s :
  (collect w timeout ip completed open_ports s).1 =
    open_ports ++ filter (answers w timeout ip) completed.
Proof.
  revert open_ports s. induction completed as [|port rest IH]; intros acc s.
  - cbn [collect fst]. by rewrite filter_nil, app_nil_r.
  - cbn [collect].
    pose proof (scan_single_port_answer w timeout ip port s) as Ha.
    destruct (scan_single_port w timeout ip port s) as [[port' b] s'].
    cbn [fst] in Ha. injection Ha as -> ->.
    rewrite IH, filter_cons. case_bool_decide as Hd.
    + rewrite decide_True by done. by rewrite <- app_assoc.
    + by rewrite decide_False by done.
Qed.

Lemma collect_sockets w timeout ip completed open_ports s :
  well_numbered s →
  well_numbered (collect w timeout ip completed open_ports s).2 ∧
  size (open_fds (collect w timeout ip completed open_ports s).2) =
    (size (open_fds s) + length (filter (cut_short w timeout ip) completed))%nat.
Proof.
  revert open_ports s. induction completed as [|port rest IH]; intros acc s Hs.
  - cbn [collect snd]. rewrite filter_nil. cbn [length]. split; [done|lia].
  - cbn [collect].
    destruct (scan_single_port_sockets w timeout ip port s Hs) as [Hs' Hsz].
    destruct (scan_single_port w timeout ip port s) as [[port' b] s'].
    cbn [snd] in Hs', Hsz.
    destruct (IH (if b then acc ++ [port'] else acc) s' Hs') as [Hw ->].
    split; [done|]. rewrite Hsz, filter_cons.
    case_bool_decide.
    + rewrite decide_True by done. cbn [length]. lia.
    + rewrite decide_False by done. lia.
Qed.

(** With a pool of at least one worker [scan_ports] returns, in the order of
    completion, exactly the ports of its argument that answer (as many times
    as they are listed), and [quick_scan] says whether one of 22, 23, 80, 443,
    2222 answers; with no worker both raise before any socket is made. *)
Theorem scan_ports_reports_open_ports (w : World) (timeout max_workers : Z)
    (completion : list Z → list Z) (ip : string) (ports : list Z)
    (s : Sockets) :
  (∀ l, completion l ≡ₚ l) →
  (0 < max_workers →
   ∃ open_ports b,
     (scan_ports w timeout max_workers completion ip ports s).1 = Ok open_ports ∧
     open_ports = filter (answers w timeout ip) (completion ports) ∧
     open_ports ≡ₚ filter (answers w timeout ip) ports ∧
     (∀ port, port ∈ open_ports ↔ port ∈ ports ∧ answers w timeout ip port) ∧
     (quick_scan w timeout max_workers completion ip s).1 = Ok b ∧
     (b = true ↔
      ∃ port, port ∈ [22; 23; 80; 443; 2222] ∧ answers w timeout ip port)) ∧
  (max_workers ≤ 0 →
   scan_ports w timeout max_workers completion ip ports s =
     (Raise "ValueError", s) ∧
   quick_scan w timeout max_workers completion ip s = (Raise "ValueError", s)).
Proof.
  intros Hperm. split.
  2:{ intros Hw. unfold quick_scan, scan_ports.
      by rewrite bool_decide_eq_true_2 by done. }
  intros Hw.
  assert (Hscan : ∀ ports,
            (scan_ports w timeout max_workers completion ip ports s).1 =
              Ok (filter (answers w timeout ip) (completion ports))).
  { intros l. unfold scan_ports. rewrite bool_decide_eq_false_2 by lia.
    pose proof (collect_spec w timeout ip (completion l) [] s) as Hc.
    destruct (collect w timeout ip (completion l) [] s) as [open_ports s'].
    cbn [fst] in Hc |- *. by rewrite Hc. }
  exists (filter (answers w timeout ip) (completion ports)),
    (bool_decide
       (Z.of_nat (length (filter (answers w timeout ip)
                            (completion [22; 23; 80; 443; 2222]))) > 0)).
  split_and!.
  - apply Hscan.
  - done.
  - by rewrite Hperm.
  - intros port. by rewrite list_elem_of_filter, Hperm, (comm and).
  - unfold quick_scan.
    pose proof (Hscan [22; 23; 80; 443; 2222]) as Hq.
    destruct (scan_ports w timeout max_workers completion ip
                [22; 23; 80; 443; 2222] s) as [r s'].
    cbn [fst] in Hq. by rewrite Hq.
  - rewrite bool_decide_eq_true. split.
    + intros Hlen.
      destruct (filter (answers w timeout ip) (completion [22; 23; 80; 443; 2222]))
        as [|port l] eqn:Hf; [cbn [length] in Hlen; lia|].
      exists port.
      assert (Hin : port ∈ filter (answers w timeout ip)
                      (completion [22; 23; 80; 443; 2222]))
        by (rewrite Hf; apply list_elem_of_here).
      apply list_elem_of_filter in Hin as [Hans Hin].
      rewrite Hperm in Hin. done.
    + intros (port & Hin & Hans).
      assert (Hin' : port ∈ filter (answers w timeout ip)
                       (completion [22; 23; 80; 443; 2222])).
      { apply list_elem_of_filter. split; [done|]. by rewrite Hperm. }
      destruct (filter (answers w timeout ip) (completion [22; 23; 80; 443; 2222]));
        [by apply elem_of_nil in Hin'|cbn [length]; lia].
Qed.

(** A network on which only port 22 answers. *)
Definition ssh_only_world : World :=
  mkWorld true (λ _, true) (λ _ port, if bool_decide (port = 22) then 0 else 111).

Lemma scan_ports_reports_open_ports_witness :
  (scan_ports ssh_only_world 3 50 reverse "10.0.0.5" [22; 23; 80] no_sockets).1 =
    Ok [22] ∧
  (quick_scan ssh_only_world 3 50 reverse "10.0.0.5" no_sockets).1 = Ok true.
Proof.
  destruct (scan_ports_reports_open_ports ssh_only_world 3 50 reverse
              "10.0.0.5" [22; 23; 80] no_sockets) as [H _].
  - intros l. apply reverse_Permutation.
  - destruct H as (open_ports & b & H1 & H2 & _ & _ & H5 & H6); [lia|].
    split; [by rewrite H1, H2|]. rewrite H5. f_equal. apply H6. exists 22.
    split; [apply list_elem_of_here|]. unfold answers. by vm_compute.
Defined.

(** The sockets a scan makes and never closes itself: one for every listed
    port whose probe is cut short by an exception, whatever the order of
    completion, so that the code reaches [sock.close()] for all the others.
    For a host name that does not resolve that is one socket per listed port;
    for a host that resolves, probed on ports in range with a timeout that is
    not negative, it is none.  (The count is of missing [close()] calls: the
    unclosed sockets are left to the interpreter's finalizer.) *)
Theorem scan_ports_closes_all_but_failed_probes (w : World) (timeout max_workers : Z)
    (completion : list Z → list Z) (ip : string) (ports : list Z)
    (s : Sockets) :
  (∀ l, completion l ≡ₚ l) → 0 < max_workers → well_numbered s →
  well_numbered (scan_ports w timeout max_workers completion ip ports s).2 ∧
  size (open_fds (scan_ports w timeout max_workers completion ip ports s).2) =
    (size (open_fds s) + length (filter (cut_short w timeout ip) ports))%nat ∧
  (socket_ok w = true → resolves w ip = false →
   size (open_fds (scan_ports w timeout max_workers completion ip ports s).2) =
     (size (open_fds s) + length ports)%nat) ∧
  (0 ≤ timeout → resolves w ip = true → Forall (λ p, 0 ≤ p ≤ 65535) ports →
   size (open_fds (scan_ports w timeout max_workers completion ip ports s).2) =
     size (open_fds s)).
Proof.
  intros Hperm Hmw Hs. unfold scan_ports.
  rewrite bool_decide_eq_false_2 by lia.
  destruct (collect_sockets w timeout ip (completion ports) [] s Hs) as [Hw Hsz].
  destruct (collect w timeout ip (completion ports) [] s) as [open_ports s'].
  cbn [snd] in Hw, Hsz |- *.
  assert (Hlen : length (filter (cut_short w timeout ip) (completion ports)) =
                 length (filter (cut_short w timeout ip) ports))
    by (by rewrite Hperm).
  rewrite Hlen in Hsz. split_and!; [done|done| |].
  - intros Hok Hres. rewrite Hsz. f_equal.
    clear -Hok Hres. induction ports as [|p l IH]; [done|].
    rewrite filter_cons, decide_True by (unfold cut_short; naive_solver).
    cbn [length]. by rewrite IH.
  - intros Ht Hres Hports. rewrite Hsz.
    replace (filter (cut_short w timeout ip) ports) with (@nil Z); [cbn; lia|].
    symmetry. clear Hsz Hlen Hw.
    induction Hports as [|p l Hp _ IH]; [done|].
    rewrite filter_cons, decide_False; [done|].
    unfold cut_short. intros (_ & [?|[?|?]]); [lia|done|congruence].
Qed.

Lemma scan_ports_closes_all_but_failed_probes_witness :
  size (open_fds (scan_ports refusing_world 3 50 reverse "10.0.0.5"
                    [22; 70000; 80; 99999] no_sockets).2) = 2%nat.
Proof.
  destruct (scan_ports_closes_all_but_failed_probes refusing_world 3 50 reverse
              "10.0.0.5" [22; 70000; 80; 99999] no_sockets) as (_ & H & _).
  - intros l. apply reverse_Permutation.
  - lia.
  - intros fd Hfd. by apply elem_of_empty in Hfd.
  - rewrite H. by vm_compute.
Defined.

End PortProbe.

(** ** The protocol surface ([protocol_detector.ProtocolDetector]) *)

Module ProtocolSurface.

(** The values a [protocol_info] dictionary holds. *)
Inductive pvalue :=
| PBool (b : bool)
| PInt (n : Z)
| PList (l : list Z).

(** [PROTOCOL_PORTS]: a dictionary literal, iterated in the order written. *)
Definition PROTOCOL_PORTS : list (string * list Z) :=
  [("ssh", [22; 2222; 22222]);
   ("telnet", [23; 2323]);
   ("snmp", [161]);
   ("http", [80; 8080]);
   ("https", [443; 8443]);
   ("netconf", [830]);
   ("ftp", [21]);
   ("tftp", [69]);
   ("syslog", [514]);
   ("radius", [1812; 1813]);
   ("tacacs", [49]);
   ("dns", [53]);
   ("ntp", [123]);
   ("ldap", [389; 636]);
   ("kerberos", [88])].

(** [port in open_ports] *)
Definition py_in (open_ports : list Z) (port : Z) : bool :=
  bool_decide (port ∈ open_ports).

(** Truth value of a dictionary value, and Python's [a or b]. *)
Definition truthy (v : pvalue) : bool :=
  match v with
  | PBool b => b
  | PInt n => negb (bool_decide (n = 0))
  | PList l => negb (bool_decide (l = []))
  end.

Definition py_or (a b : pvalue) : pvalue := if truthy a then a else b.

(** [protocol_info.get(key, False)] *)
Definition get_or_False (info : gmap string pvalue) (key : string) : pvalue :=
  default (PBool false) (info !! key).

(** The body of the loop [for protocol, ports in self.PROTOCOL_PORTS.items()]. *)
Definition protocol_step (open_ports : list Z) (info : gmap string pvalue)
    (entry : string * list Z) : gmap string pvalue :=
  let '(protocol, ports) := entry in
  let is_open := existsb (py_in open_ports) ports in
  let info := <[protocol := PBool is_open]> info in
  if is_open then
    match find (py_in open_ports) ports with
    | Some port => <[protocol +:+ "_port" := PInt port]> info
    | None => info
    end
  else info.

(** All candidate ports, in catalog order. *)
Definition all_ports : list Z := flat_map snd PROTOCOL_PORTS.

(** The loop of [detect_all_protocols] over the catalog, from the list
    [scan_ports] returned: it starts from [{'open_ports': open_ports}]. *)
Definition loop_info (open_ports : list Z) : gmap string pvalue :=
  foldl (protocol_step open_ports) {["open_ports" := PList open_ports]}
    PROTOCOL_PORTS.

(** The two derived flags [has_management] and [has_web], each read from the
    dictionary as it stands when the assignment runs. *)
Definition add_flags (info : gmap string pvalue) : gmap string pvalue :=
  let info := <["has_management" :=
                 py_or (get_or_False info "ssh") (get_or_False info "telnet")]> info in
  let info := <["has_web" :=
                 py_or (get_or_False info "http") (get_or_False info "https")]> info in
  info.

(** [detect_all_protocols], from the list [scan_ports] returned. *)
Definition protocol_info_of (open_ports : list Z) : gmap string pvalue :=
  add_flags (loop_info open_ports).

(** [detect_all_protocols]; [scan_ports ip ports] is the list
    [PortScanner.scan_ports] returns: the open ports among [ports], in the
    order in which their probes completed. *)
Definition detect_all_protocols (scan_ports : string → list Z → list Z)
    (ip : string) : gmap string pvalue :=
  protocol_info_of (scan_ports ip all_ports).

(** *** The loop over a catalog *)

(** The keys the loop may write. *)
Definition written_keys (cat : list (string * list Z)) : list string :=
  flat_map (λ e, [e.1; e.1 +:+ "_port"]) cat.

(** The first candidate port that is open, in the declared order. *)
Definition first_open (open_ports ports : list Z) : option Z :=
  find (py_in open_ports) ports.

Lemma existsb_find_None {A} (f : A → bool) l :
  find f l = None → existsb f l = false.
Proof.
  induction l as [|x l IH]; [done|]. simpl.
  destruct (f x); [done|]. auto.
Qed.

Lemma existsb_find_Some {A} (f : A → bool) l x :
  find f l = Some x → existsb f l = true.
Proof.
  induction l as [|y l IH]; [done|]. simpl.
  destruct (f y); [done|]. auto.
Qed.

Lemma find_first {A} (f : A → bool) l x :
  find f l = Some x →
  ∃ before after, l = before ++ x :: after ∧ f x = true ∧
                  ∀ y, y ∈ before → f y = false.
Proof.
  induction l as [|y l IH]; [done|]. simpl.
  destruct (f y) eqn:Hy.
  - intros [= ->]. exists [], l. split_and!; [done|done|].
    by intros ? ?%elem_of_nil.
  - intros (before & after & -> & Hx & Hb)%IH.
    exists (y :: before), after. split_and!; [done|done|].
    intros z [->|Hz]%elem_of_cons; auto.
Qed.

Lemma protocol_step_eq open_ports info protocol ports :
  protocol_step open_ports info (protocol, ports) =
  match first_open open_ports ports with
  | Some port =>
      <[protocol +:+ "_port" := PInt port]> (<[protocol := PBool true]> info)
  | None => <[protocol := PBool false]> info
  end.
Proof.
  unfold protocol_step, first_open.
  destruct (find _ _) as [port|] eqn:Hf.
  - by rewrite (existsb_find_Some _ _ _ Hf).
  - by rewrite (existsb_find_None _ _ Hf).
Qed.

Lemma loop_lookup_other open_ports cat info k :
  k ∉ written_keys cat →
  foldl (protocol_step open_ports) info cat !! k = info !! k.
Proof.
  revert info. induction cat as [|[p ports] cat IH]; intros info Hk; [done|].
  simpl in Hk. rewrite !not_elem_of_cons in Hk. destruct Hk as (Hp & Hpp & Hk).
  cbn [foldl]. rewrite IH by done. rewrite protocol_step_eq.
  destruct (first_open _ _); by rewrite ?lookup_insert_ne.
Qed.

Lemma loop_lookup_protocol open_ports cat info protocol ports :
  NoDup (written_keys cat) → (protocol, ports) ∈ cat →
  foldl (protocol_step open_ports) info cat !! protocol =
    Some (PBool (bool_decide (is_Some (first_open open_ports ports)))) ∧
  foldl (protocol_step open_ports) info cat !! (protocol +:+ "_port") =
    match first_open open_ports ports with
    | Some port => Some (PInt port)
    | None => info !! (protocol +:+ "_port")
    end.
Proof.
  revert info. induction cat as [|[p ps] cat IH]; intros info Hnd Hin.
  { by apply elem_of_nil in Hin. }
  simpl in Hnd. apply NoDup_cons in Hnd as [Hp Hnd].
  apply NoDup_cons in Hnd as [Hpp Hnd].
  rewrite not_elem_of_cons in Hp. destruct Hp as [Hne Hp].
  apply elem_of_cons in Hin as [[= -> ->]|Hin].
  - cbn [foldl]. rewrite !loop_lookup_other by done. rewrite protocol_step_eq.
    destruct (first_open _ _) as [port|].
    + rewrite lookup_insert_ne, !lookup_insert_eq by done. done.
    + rewrite lookup_insert_eq, lookup_insert_ne by done. done.
  - cbn [foldl]. destruct (IH (protocol_step open_ports info (p, ps)) Hnd Hin)
      as [-> ->]. split; [done|].
    destruct (first_open open_ports ports); [done|].
    assert (protocol +:+ "_port" ∈ written_keys cat) as Hk.
    { apply list_elem_of_In, in_flat_map. exists (protocol, ports).
      split; [by apply list_elem_of_In|]. simpl. auto. }
    assert (p ≠ protocol +:+ "_port") by (by intros ->).
    assert (p +:+ "_port" ≠ protocol +:+ "_port")
      by (intros Heq; by rewrite Heq in Hpp).
    rewrite protocol_step_eq.
    destruct (first_open _ _); by rewrite !lookup_insert_ne.
Qed.

(** *** The static catalog *)

Lemma catalog_keys_NoDup :
  NoDup (written_keys PROTOCOL_PORTS ++
         ["open_ports"; "has_management"; "has_web"]).
Proof. apply (bool_decide_unpack _). by vm_compute. Qed.

Lemma catalog_key_fresh k :
  k ∈ written_keys PROTOCOL_PORTS →
  k ≠ "open_ports" ∧ k ≠ "has_management" ∧ k ≠ "has_web".
Proof.
  intros Hk. pose proof catalog_keys_NoDup as (_ & Hd & _)%NoDup_app.
  specialize (Hd k Hk). set_solver.
Qed.

Lemma catalog_keys protocol ports :
  (protocol, ports) ∈ PROTOCOL_PORTS →
  protocol ∈ written_keys PROTOCOL_PORTS ∧
  protocol +:+ "_port" ∈ written_keys PROTOCOL_PORTS.
Proof.
  intros Hin. split; apply list_elem_of_In, in_flat_map;
    exists (protocol, ports); (split; [by apply list_elem_of_In|]); simpl; auto.
Qed.

Lemma management_flag (L : gmap string pvalue) (s t : bool) :
  L !! "ssh" = Some (PBool s) → L !! "telnet" = Some (PBool t) →
  add_flags L !! "ssh" = Some (PBool s) ∧
  add_flags L !! "telnet" = Some (PBool t) ∧
  add_flags L !! "has_management" = Some (PBool (s || t)).
Proof.
  intros Hs Ht. unfold add_flags.
  rewrite !(lookup_insert_ne _ "has_web") by done.
  rewrite !(lookup_insert_ne _ "has_management" "ssh") by done.
  rewrite !(lookup_insert_ne _ "has_management" "telnet") by done.
  rewrite lookup_insert_eq.
  unfold get_or_False. rewrite Hs, Ht. by destruct s.
Qed.

Lemma add_flags_other (L : gmap string pvalue) k :
  k ≠ "has_management" → k ≠ "has_web" → add_flags L !! k = L !! k.
Proof. intros ? ?. unfold add_flags. by rewrite !lookup_insert_ne. Qed.

Lemma protocol_info_lookup open_ports protocol ports :
  (protocol, ports) ∈ PROTOCOL_PORTS →
  protocol_info_of open_ports !! protocol =
    Some (PBool (bool_decide (is_Some (first_open open_ports ports)))) ∧
  protocol_info_of open_ports !! (protocol +:+ "_port") =
    PInt <$> first_open open_ports ports.
Proof.
  intros Hin. destruct (catalog_keys _ _ Hin) as [Hk Hkp].
  destruct (catalog_key_fresh _ Hk) as (? & ? & ?).
  destruct (catalog_key_fresh _ Hkp) as (? & ? & ?).
  pose proof catalog_keys_NoDup as (Hnd & _)%NoDup_app.
  unfold protocol_info_of. rewrite !add_flags_other by done.
  unfold loop_info.
  destruct (loop_lookup_protocol open_ports PROTOCOL_PORTS
    {["open_ports" := PList open_ports]} protocol ports Hnd Hin) as [-> ->].
  split; [done|]. destruct (first_open _ _); [done|].
  by rewrite lookup_singleton_ne.
Qed.

Lemma first_open_ext l1 l2 ports :
  (∀ port, port ∈ l1 ↔ port ∈ l2) →
  first_open l1 ports = first_open l2 ports.
Proof.
  intros Hl. unfold first_open.
  induction ports as [|q ports IH]; [done|]. simpl. rewrite IH.
  unfold py_in. by rewrite (bool_decide_ext _ _ (Hl q)).
Qed.

Lemma first_open_Some open_ports ports :
  is_Some (first_open open_ports ports) ↔
  ∃ port, port ∈ ports ∧ port ∈ open_ports.
Proof.
  unfold first_open. split.
  - intros [port (before & after & -> & Hp & _)%find_first].
    exists port. split; [set_solver|]. by apply bool_decide_eq_true in Hp.
  - intros (port & Hin & Hop).
    destruct (find _ _) eqn:Hf; [done|]. exfalso.
    apply list_elem_of_In in Hin.
    pose proof (find_none _ _ Hf port Hin) as Hn.
    unfold py_in in Hn. by rewrite bool_decide_eq_true_2 in Hn.
Qed.

Lemma protocol_info_management open_ports :
  ∃ s t,
    protocol_info_of open_ports !! "ssh" = Some (PBool s) ∧
    protocol_info_of open_ports !! "telnet" = Some (PBool t) ∧
    protocol_info_of open_ports !! "has_management" = Some (PBool (s || t)).
Proof.
  assert (Hssh : ("ssh", [22; 2222; 22222]) ∈ PROTOCOL_PORTS)
    by (apply list_elem_of_here).
  assert (Htel : ("telnet", [23; 2323]) ∈ PROTOCOL_PORTS)
    by (apply list_elem_of_further, list_elem_of_here).
  pose proof catalog_keys_NoDup as (Hnd & _)%NoDup_app.
  unfold protocol_info_of, loop_info.
  destruct (loop_lookup_protocol open_ports PROTOCOL_PORTS
    {["open_ports" := PList open_ports]} _ _ Hnd Hssh) as [Hs _].
  destruct (loop_lookup_protocol open_ports PROTOCOL_PORTS
    {["open_ports" := PList open_ports]} _ _ Hnd Htel) as [Ht _].
  eexists _, _. exact (management_flag _ _ _ Hs Ht).
Qed.

(** C4: for every protocol of the catalog, the scan marks it open exactly when
    one of its candidate ports is among the open ports; when open, the port
    recorded is the first open one in the catalog's order, whatever the order
    in which the probes completed; and [has_management] is [ssh or telnet]. *)
Theorem protocol_surface_flags (scan_ports : string → list Z → list Z)
    (ip protocol : string) (ports : list Z) :
  (protocol, ports) ∈ PROTOCOL_PORTS →
  ∃ b,
    detect_all_protocols scan_ports ip !! protocol = Some (PBool b) ∧
    (b = true ↔ ∃ port, port ∈ ports ∧ port ∈ scan_ports ip all_ports) ∧
    (b = true →
     ∃ before port after,
       ports = before ++ port :: after ∧
       port ∈ scan_ports ip all_ports ∧
       (∀ q, q ∈ before → q ∉ scan_ports ip all_ports) ∧
       detect_all_protocols scan_ports ip !! (protocol +:+ "_port") =
         Some (PInt port)) ∧
    (b = false →
     detect_all_protocols scan_ports ip !! (protocol +:+ "_port") = None) ∧
    (∀ scan_ports' : string → list Z → list Z,
       (∀ port, port ∈ scan_ports' ip all_ports ↔
                port ∈ scan_ports ip all_ports) →
       detect_all_protocols scan_ports' ip !! protocol =
         detect_all_protocols scan_ports ip !! protocol ∧
       detect_all_protocols scan_ports' ip !! (protocol +:+ "_port") =
         detect_all_protocols scan_ports ip !! (protocol +:+ "_port")) ∧
    (∃ s t,
       detect_all_protocols scan_ports ip !! "ssh" = Some (PBool s) ∧
       detect_all_protocols scan_ports ip !! "telnet" = Some (PBool t) ∧
       detect_all_protocols scan_ports ip !! "has_management" =
         Some (PBool (s || t))).
Proof.
  intros Hin. unfold detect_all_protocols.
  set (open_ports := scan_ports ip all_ports).
  destruct (protocol_info_lookup open_ports protocol ports Hin) as [Hb Hport].
  eexists. split; [exact Hb|]. rewrite Hport.
  rewrite bool_decide_eq_true, bool_decide_eq_false.
  split_and!.
  - apply first_open_Some.
  - intros [port Hf]. rewrite Hf.
    apply find_first in Hf as (before & after & -> & Hp & Hbefore).
    exists before, port, after. split_and!; [done| |..|done].
    + by apply bool_decide_eq_true in Hp.
    + intros q Hq Hopen. specialize (Hbefore q Hq).
      unfold py_in in Hbefore. by rewrite bool_decide_eq_true_2 in Hbefore.
  - intros Hn. destruct (first_open _ _); [|done]. by destruct Hn.
  - intros scan_ports' Hsame.
    destruct (protocol_info_lookup (scan_ports' ip all_ports) protocol ports Hin)
      as [-> ->].
    by rewrite (first_open_ext _ open_ports ports Hsame).
  - apply protocol_info_management.
Qed.

(** A scan that found 2222, 23 and 22222 open, in that order of completion. *)
Definition sample_scan : string → list Z → list Z :=
  λ _ _, [2222; 23; 22222].

Lemma protocol_surface_flags_witness :
  ∃ b,
    detect_all_protocols sample_scan "10.0.0.5" !! "ssh" = Some (PBool b) ∧
    (b = true ↔
     ∃ port, port ∈ [22; 2222; 22222] ∧
             port ∈ sample_scan "10.0.0.5" all_ports) ∧
    (b = true →
     ∃ before port after,
       [22; 2222; 22222] = before ++ port :: after ∧
       port ∈ sample_scan "10.0.0.5" all_ports ∧
       (∀ q, q ∈ before → q ∉ sample_scan "10.0.0.5" all_ports) ∧
       detect_all_protocols sample_scan "10.0.0.5" !! ("ssh" +:+ "_port") =
         Some (PInt port)) ∧
    (b = false →
     detect_all_protocols sample_scan "10.0.0.5" !! ("ssh" +:+ "_port") = None) ∧
    (∀ scan_ports' : string → list Z → list Z,
       (∀ port, port ∈ scan_ports' "10.0.0.5" all_ports ↔
                port ∈ sample_scan "10.0.0.5" all_ports) →
       detect_all_protocols scan_ports' "10.0.0.5" !! "ssh" =
         detect_all_protocols sample_scan "10.0.0.5" !! "ssh" ∧
       detect_all_protocols scan_ports' "10.0.0.5" !! ("ssh" +:+ "_port") =
         detect_all_protocols sample_scan "10.0.0.5" !! ("ssh" +:+ "_port")) ∧
    (∃ s t,
       detect_all_protocols sample_scan "10.0.0.5" !! "ssh" = Some (PBool s) ∧
       detect_all_protocols sample_scan "10.0.0.5" !! "telnet" =
         Some (PBool t) ∧
       detect_all_protocols sample_scan "10.0.0.5" !! "has_management" =
         Some (PBool (s || t))).
Proof.
  exact (protocol_surface_flags sample_scan "10.0.0.5" "ssh" [22; 2222; 22222]
           (list_elem_of_here _ _)).
Defined.

(** The scan of the witness above, evaluated: port 2222 is recorded for ssh
    although 22222 is open too and 2222 completed first only by chance. *)
Example protocol_info_example :
  protocol_info_of [22222; 23; 2222] !! "ssh_port" = Some (PInt 2222) ∧
  protocol_info_of [22222; 23; 2222] !! "telnet_port" = Some (PInt 23) ∧
  protocol_info_of [22222; 23; 2222] !! "http" = Some (PBool false) ∧
  protocol_info_of [22222; 23; 2222] !! "http_port" = None ∧
  protocol_info_of [22222; 23; 2222] !! "has_management" = Some (PBool true) ∧
  protocol_info_of [22222; 23; 2222] !! "has_web" = Some (PBool false).
Proof. split_and!; by vm_compute. Qed.

(** *** The recommended protocol ([get_recommended_protocol]) *)

(** The dictionary [get_recommended_protocol] returns. *)
Record Recommendation := mkRecommendation {
  rec_protocol : option string;
  rec_port : option Z;
  rec_secure : bool
}.

(** [self.PROTOCOL_PORTS.get(protocol, default)] *)
Definition catalog_get (protocol : string) (default_ports : list Z) : list Z :=
  match find (λ e : string * list Z, bool_decide (e.1 = protocol)) PROTOCOL_PORTS with
  | Some e => e.2
  | None => default_ports
  end.

(** [protocol_info.get('open_ports', [])] *)
Definition get_open_ports (info : gmap string pvalue) : list Z :=
  match info !! "open_ports" with
  | Some (PList l) => l
  | _ => []
  end.

(** [protocol in ['ssh', 'https']] *)
Definition is_secure (protocol : string) : bool :=
  bool_decide (protocol ∈ ["ssh"; "https"]).

(** The body of the loop over [protocol_priority]: [Some] is a [return]. *)
Definition recommend_step (info : gmap string pvalue) (e : string * Z)
    : option Recommendation :=
  let '(protocol, default_port) := e in
  let ports := catalog_get protocol [default_port] in
  if truthy (get_or_False info protocol) &&
     py_in (get_open_ports info) default_port
  then Some (mkRecommendation (Some protocol) (Some default_port)
               (is_secure protocol))
  else
    match find (py_in (get_open_ports info)) ports with
    | Some port =>
        Some (mkRecommendation (Some protocol) (Some port) (is_secure protocol))
    | None => None
    end.

Definition protocol_priority : list (string * Z) :=
  [("ssh", 22); ("ssh", 2222); ("telnet", 23); ("https", 443); ("http", 80)].

Fixpoint first_return {A B} (f : A → option B) (l : list A) : option B :=
  match l with
  | [] => None
  | x :: rest => match f x with Some r => Some r | None => first_return f rest end
  end.

(** [get_recommended_protocol], from the dictionary of the scan. *)
Definition recommend (info : gmap string pvalue) : Recommendation :=
  default (mkRecommendation None None false)
    (first_return (recommend_step info) protocol_priority).

Definition get_recommended_protocol (scan_ports : string → list Z → list Z)
    (ip : string) : Recommendation :=
  recommend (detect_all_protocols scan_ports ip).

(** [protocol_info[protocol + '_port']], when it is there. *)
Definition port_of (info : gmap string pvalue) (protocol : string) : option Z :=
  match info !! (protocol +:+ "_port") with
  | Some (PInt n) => Some n
  | _ => None
  end.

Lemma recommend_step_first (info : gmap string pvalue) open_ports protocol
    default_port ports :
  get_open_ports info = open_ports →
  catalog_get protocol [default_port] = default_port :: ports →
  recommend_step info (protocol, default_port) =
  match first_open open_ports (default_port :: ports) with
  | Some port =>
      Some (mkRecommendation (Some protocol) (Some port) (is_secure protocol))
  | None => None
  end.
Proof.
  intros Hop Hcat. unfold recommend_step, first_open. rewrite Hop, Hcat.
  cbn [find]. destruct (py_in open_ports default_port).
  - by destruct (truthy _).
  - by rewrite andb_false_r.
Qed.

Lemma protocol_info_open_ports open_ports :
  get_open_ports (protocol_info_of open_ports) = open_ports.
Proof.
  unfold get_open_ports, protocol_info_of.
  rewrite add_flags_other by done. unfold loop_info.
  rewrite loop_lookup_other.
  - by rewrite lookup_singleton_eq.
  - pose proof catalog_keys_NoDup as (_ & Hd & _)%NoDup_app.
    intros Hin. apply (Hd _ Hin). apply list_elem_of_here.
Qed.

Lemma recommend_cascade (info : gmap string pvalue) open_ports :
  get_open_ports info = open_ports →
  recommend info =
  match first_open open_ports [22; 2222; 22222] with
  | Some port => mkRecommendation (Some "ssh") (Some port) true
  | None =>
      match first_open open_ports [23; 2323] with
      | Some port => mkRecommendation (Some "telnet") (Some port) false
      | None =>
          match first_open open_ports [443; 8443] with
          | Some port => mkRecommendation (Some "https") (Some port) true
          | None =>
              match first_open open_ports [80; 8080] with
              | Some port => mkRecommendation (Some "http") (Some port) false
              | None => mkRecommendation None None false
              end
          end
      end
  end.
Proof.
  intros Hop. unfold recommend, protocol_priority. cbn [first_return].
  rewrite (recommend_step_first info open_ports "ssh" 22 [2222; 22222] Hop eq_refl).
  destruct (first_open open_ports [22; 2222; 22222]) as [port|] eqn:Hssh; [done|].
  assert (Hssh2 : recommend_step info ("ssh", 2222) = None).
  { unfold recommend_step. rewrite Hop.
    change (catalog_get "ssh" [2222]) with [22; 2222; 22222].
    unfold first_open in Hssh. rewrite Hssh.
    destruct (py_in open_ports 2222) eqn:H2; [|by rewrite andb_false_r].
    exfalso. cbn [find] in Hssh. rewrite H2 in Hssh.
    by destruct (py_in open_ports 22). }
  rewrite Hssh2.
  rewrite (recommend_step_first info open_ports "telnet" 23 [2323] Hop eq_refl).
  destruct (first_open open_ports [23; 2323]) as [port|]; [done|].
  rewrite (recommend_step_first info open_ports "https" 443 [8443] Hop eq_refl).
  destruct (first_open open_ports [443; 8443]) as [port|]; [done|].
  rewrite (recommend_step_first info open_ports "http" 80 [8080] Hop eq_refl).
  by destruct (first_open open_ports [80; 8080]) as [port|].
Qed.

(** [protocol_info.get(protocol, False)] as a truth value. *)
Definition open_flag (info : gmap string pvalue) (protocol : string) : bool :=
  truthy (get_or_False info protocol).

Lemma surface_flag_port open_ports protocol ports :
  (protocol, ports) ∈ PROTOCOL_PORTS →
  open_flag (protocol_info_of open_ports) protocol =
    bool_decide (is_Some (first_open open_ports ports)) ∧
  port_of (protocol_info_of open_ports) protocol = first_open open_ports ports.
Proof.
  intros Hin. unfold open_flag, get_or_False, port_of.
  destruct (protocol_info_lookup open_ports protocol ports Hin) as [-> ->].
  split; [done|]. by destruct (first_open _ _).
Qed.

(** The recommendation follows the fixed order ssh, telnet, https, http: it
    names the first of the four that the scan found open, with the port the
    scan recorded for it, and is marked secure exactly for ssh and https; with
    none of the four open it names nothing. *)
Theorem recommended_protocol_order (scan_ports : string → list Z → list Z)
    (ip : string) :
  (open_flag (detect_all_protocols scan_ports ip) "ssh" = true →
   get_recommended_protocol scan_ports ip =
     mkRecommendation (Some "ssh")
       (port_of (detect_all_protocols scan_ports ip) "ssh") true) ∧
  (open_flag (detect_all_protocols scan_ports ip) "ssh" = false →
   open_flag (detect_all_protocols scan_ports ip) "telnet" = true →
   get_recommended_protocol scan_ports ip =
     mkRecommendation (Some "telnet")
       (port_of (detect_all_protocols scan_ports ip) "telnet") false) ∧
  (open_flag (detect_all_protocols scan_ports ip) "ssh" = false →
   open_flag (detect_all_protocols scan_ports ip) "telnet" = false →
   open_flag (detect_all_protocols scan_ports ip) "https" = true →
   get_recommended_protocol scan_ports ip =
     mkRecommendation (Some "https")
       (port_of (detect_all_protocols scan_ports ip) "https") true) ∧
  (open_flag (detect_all_protocols scan_ports ip) "ssh" = false →
   open_flag (detect_all_protocols scan_ports ip) "telnet" = false →
   open_flag (detect_all_protocols scan_ports ip) "https" = false →
   open_flag (detect_all_protocols scan_ports ip) "http" = true →
   get_recommended_protocol scan_ports ip =
     mkRecommendation (Some "http")
       (port_of (detect_all_protocols scan_ports ip) "http") false) ∧
  (open_flag (detect_all_protocols scan_ports ip) "ssh" = false →
   open_flag (detect_all_protocols scan_ports ip) "telnet" = false →
   open_flag (detect_all_protocols scan_ports ip) "https" = false →
   open_flag (detect_all_protocols scan_ports ip) "http" = false →
   get_recommended_protocol scan_ports ip = mkRecommendation None None false) ∧
  (∀ p, rec_protocol (get_recommended_protocol scan_ports ip) = Some p →
        is_Some (rec_port (get_recommended_protocol scan_ports ip))).
Proof.
  unfold get_recommended_protocol, detect_all_protocols.
  generalize (scan_ports ip all_ports). intros open_ports.
  rewrite (recommend_cascade _ open_ports (protocol_info_open_ports open_ports)).
  assert (Hssh : ("ssh", [22; 2222; 22222]) ∈ PROTOCOL_PORTS)
    by (apply (bool_decide_unpack _); by vm_compute).
  assert (Htel : ("telnet", [23; 2323]) ∈ PROTOCOL_PORTS)
    by (apply (bool_decide_unpack _); by vm_compute).
  assert (Hhttps : ("https", [443; 8443]) ∈ PROTOCOL_PORTS)
    by (apply (bool_decide_unpack _); by vm_compute).
  assert (Hhttp : ("http", [80; 8080]) ∈ PROTOCOL_PORTS)
    by (apply (bool_decide_unpack _); by vm_compute).
  destruct (surface_flag_port open_ports _ _ Hssh) as [-> ->].
  destruct (surface_flag_port open_ports _ _ Htel) as [-> ->].
  destruct (surface_flag_port open_ports _ _ Hhttps) as [-> ->].
  destruct (surface_flag_port open_ports _ _ Hhttp) as [-> ->].
  destruct (first_open open_ports [22; 2222; 22222]) as [p1|];
    [by split_and!; try done; intros p _; eexists|].
  destruct (first_open open_ports [23; 2323]) as [p2|];
    [by split_and!; try done; intros p _; eexists|].
  destruct (first_open open_ports [443; 8443]) as [p3|];
    [by split_and!; try done; intros p _; eexists|].
  destruct (first_open open_ports [80; 8080]) as [p4|];
    [by split_and!; try done; intros p _; eexists|].
  by split_and!.
Qed.

Lemma recommended_protocol_order_witness :
  get_recommended_protocol sample_scan "10.0.0.5" =
    mkRecommendation (Some "ssh")
      (port_of (detect_all_protocols sample_scan "10.0.0.5") "ssh") true.
Proof.
  apply (recommended_protocol_order sample_scan "10.0.0.5").
  by vm_compute.
Defined.

(** *** [detect_management_protocols] and [check_specific_protocol] *)

Definition management_protocols : list string :=
  ["ssh"; "telnet"; "http"; "https"].

(** [detect_management_protocols]: one scan of the ports of the four
    management protocols. *)
Definition detect_management_protocols
    (scan_ports : string → list Z → list Z) (ip : string) : gmap string bool :=
  let management_ports :=
    foldl (λ acc protocol, acc ++ catalog_get protocol []) []
      management_protocols in
  let open_ports := scan_ports ip management_ports in
  foldl (λ result protocol,
           <[protocol := existsb (py_in open_ports) (catalog_get protocol [])]>
             result)
    ∅ management_protocols.

(** [check_specific_protocol]; [port] is [None] when the argument is left
    out, and [if port:] also sends port 0 to the catalog's ports. *)
Definition check_specific_protocol (scan_ports : string → list Z → list Z)
    (ip : string) (protocol : string) (port : option Z) : bool :=
  if bool_decide (protocol ∉ PROTOCOL_PORTS.*1) then false
  else
    let ports_to_check :=
      match port with
      | Some p => if bool_decide (p = 0) then catalog_get protocol [] else [p]
      | None => catalog_get protocol []
      end in
    let open_ports := scan_ports ip ports_to_check in
    bool_decide (Z.of_nat (length open_ports) > 0).

Lemma catalog_get_in protocol ports :
  (protocol, ports) ∈ PROTOCOL_PORTS →
  ∀ default_ports, catalog_get protocol default_ports = ports.
Proof.
  intros Hin default_ports. revert protocol ports Hin.
  unfold PROTOCOL_PORTS.
  intros protocol ports Hin.
  repeat (apply elem_of_cons in Hin as [[= -> ->]|Hin]; [by vm_compute|]).
  by apply elem_of_nil in Hin.
Qed.

Lemma catalog_ports_scanned protocol ports port :
  (protocol, ports) ∈ PROTOCOL_PORTS → port ∈ ports → port ∈ all_ports.
Proof.
  intros Hin Hp. unfold all_ports. apply list_elem_of_In, in_flat_map.
  exists (protocol, ports). split; by apply list_elem_of_In.
Qed.

Section faithful_scan.
Variable scan_ports : string → list Z → list Z.
Variable ip : string.
Variable opens : Z → bool.
Hypothesis scan_faithful :
  ∀ ports port, port ∈ scan_ports ip ports ↔ port ∈ ports ∧ opens port = true.

Lemma existsb_scan ports scanned :
  (∀ port, port ∈ ports → port ∈ scanned) →
  existsb (py_in (scan_ports ip scanned)) ports = existsb opens ports.
Proof.
  induction ports as [|p l IH]; intros Hsub; [done|]. cbn [existsb].
  rewrite IH by (intros port Hp; apply Hsub; by apply list_elem_of_further).
  f_equal. unfold py_in. destruct (opens p) eqn:Hp.
  - apply bool_decide_eq_true_2, scan_faithful.
    split; [apply Hsub, list_elem_of_here|done].
  - apply bool_decide_eq_false_2. intros [_ H]%scan_faithful. congruence.
Qed.

Lemma scan_nonempty ports :
  bool_decide (Z.of_nat (length (scan_ports ip ports)) > 0) = existsb opens ports.
Proof.
  destruct (existsb opens ports) eqn:He.
  - apply bool_decide_eq_true_2.
    apply existsb_exists in He as (port & Hin%list_elem_of_In & Hp).
    assert (Hs : port ∈ scan_ports ip ports) by (by apply scan_faithful).
    destruct (scan_ports ip ports); [by apply elem_of_nil in Hs|].
    cbn [length]. lia.
  - apply bool_decide_eq_false_2. intros Hlen.
    destruct (scan_ports ip ports) as [|port l] eqn:Hs; [cbn [length] in Hlen; lia|].
    assert (Hin : port ∈ scan_ports ip ports)
      by (rewrite Hs; apply list_elem_of_here).
    apply scan_faithful in Hin as [Hin Hp].
    assert (existsb opens ports = true); [|congruence].
    apply existsb_exists. exists port. split; [by apply list_elem_of_In|done].
Qed.

Lemma surface_flag_opens protocol ports :
  (protocol, ports) ∈ PROTOCOL_PORTS →
  open_flag (detect_all_protocols scan_ports ip) protocol = existsb opens ports.
Proof.
  intros Hin. unfold detect_all_protocols.
  destruct (surface_flag_port (scan_ports ip all_ports) _ _ Hin) as [-> _].
  rewrite <- (existsb_scan ports all_ports)
    by (intros port; by apply catalog_ports_scanned with protocol).
  unfold first_open.
  destruct (find (py_in (scan_ports ip all_ports)) ports) as [port|] eqn:Hf.
  - rewrite (existsb_find_Some _ _ _ Hf). apply bool_decide_eq_true_2. by eexists.
  - rewrite (existsb_find_None _ _ Hf). apply bool_decide_eq_false_2.
    by intros [? ?].
Qed.

End faithful_scan.

(** The three ways to ask for a protocol agree when the scanner reports
    exactly the ports that answer: [detect_management_protocols] gives for
    ssh, telnet, http and https the flag of [detect_all_protocols], and so
    does [check_specific_protocol] for every protocol of the catalog when no
    port (or port 0) is given; with another port it reports that port alone,
    and for a name outside the catalog it reports [False]. *)
Theorem protocol_checks_agree (scan_ports : string → list Z → list Z)
    (ip : string) (opens : Z → bool) :
  (∀ ports port, port ∈ scan_ports ip ports ↔ port ∈ ports ∧ opens port = true) →
  (∀ protocol, protocol ∈ management_protocols →
     detect_management_protocols scan_ports ip !! protocol =
       Some (open_flag (detect_all_protocols scan_ports ip) protocol)) ∧
  (∀ protocol, protocol ∉ management_protocols →
     detect_management_protocols scan_ports ip !! protocol = None) ∧
  (∀ protocol ports, (protocol, ports) ∈ PROTOCOL_PORTS →
     check_specific_protocol scan_ports ip protocol None =
       open_flag (detect_all_protocols scan_ports ip) protocol ∧
     check_specific_protocol scan_ports ip protocol (Some 0) =
       open_flag (detect_all_protocols scan_ports ip) protocol ∧
     ∀ port, port ≠ 0 →
       check_specific_protocol scan_ports ip protocol (Some port) = opens port) ∧
  (∀ protocol port, protocol ∉ PROTOCOL_PORTS.*1 →
     check_specific_protocol scan_ports ip protocol port = false).
Proof.
  intros Hscan.
  assert (Hssh : ("ssh", [22; 2222; 22222]) ∈ PROTOCOL_PORTS)
    by (apply (bool_decide_unpack _); by vm_compute).
  assert (Htel : ("telnet", [23; 2323]) ∈ PROTOCOL_PORTS)
    by (apply (bool_decide_unpack _); by vm_compute).
  assert (Hhttp : ("http", [80; 8080]) ∈ PROTOCOL_PORTS)
    by (apply (bool_decide_unpack _); by vm_compute).
  assert (Hhttps : ("https", [443; 8443]) ∈ PROTOCOL_PORTS)
    by (apply (bool_decide_unpack _); by vm_compute).
  assert (Hmgmt : detect_management_protocols scan_ports ip =
            <["https" := existsb opens [443; 8443]]>
              (<["http" := existsb opens [80; 8080]]>
                 (<["telnet" := existsb opens [23; 2323]]>
                    (<["ssh" := existsb opens [22; 2222; 22222]]> ∅)))).
  { unfold detect_management_protocols, management_protocols. cbn [foldl].
    rewrite !(catalog_get_in _ _ Hssh), !(catalog_get_in _ _ Htel),
      !(catalog_get_in _ _ Hhttp), !(catalog_get_in _ _ Hhttps).
    rewrite !(existsb_scan scan_ports ip opens Hscan); [done|..];
      intros port Hp; rewrite !elem_of_app; tauto. }
  split_and!.
  - intros protocol Hin. rewrite Hmgmt. unfold management_protocols in Hin.
    repeat (apply elem_of_cons in Hin as [->|Hin]);
      [| | | |by apply elem_of_nil in Hin].
    + rewrite (surface_flag_opens _ _ _ Hscan _ _ Hssh).
      by rewrite !lookup_insert_ne, lookup_insert_eq by done.
    + rewrite (surface_flag_opens _ _ _ Hscan _ _ Htel).
      by rewrite !lookup_insert_ne, lookup_insert_eq by done.
    + rewrite (surface_flag_opens _ _ _ Hscan _ _ Hhttp).
      by rewrite lookup_insert_ne, lookup_insert_eq by done.
    + rewrite (surface_flag_opens _ _ _ Hscan _ _ Hhttps).
      by rewrite lookup_insert_eq.
  - intros protocol Hnot. rewrite Hmgmt. unfold management_protocols in Hnot.
    rewrite !not_elem_of_cons in Hnot. destruct Hnot as (? & ? & ? & ? & _).
    by rewrite !lookup_insert_ne, lookup_empty by done.
  - intros protocol ports Hin.
    assert (Hkey : ¬ (protocol ∉ PROTOCOL_PORTS.*1)).
    { intros Hnot. apply Hnot. apply list_elem_of_fmap.
      by exists (protocol, ports). }
    unfold check_specific_protocol.
    rewrite (bool_decide_eq_false_2 _ Hkey).
    rewrite (bool_decide_eq_true_2 (0 = 0)) by done.
    rewrite (catalog_get_in _ _ Hin).
    rewrite (surface_flag_opens _ _ _ Hscan _ _ Hin).
    rewrite (scan_nonempty _ _ _ Hscan).
    split_and!; [done|done|].
    intros port Hport. rewrite (bool_decide_eq_false_2 (port = 0)) by done.
    rewrite (scan_nonempty _ _ _ Hscan). cbn [existsb]. by rewrite orb_false_r.
  - intros protocol port Hnot. unfold check_specific_protocol.
    by rewrite bool_decide_eq_true_2.
Qed.

(** A scanner that reports the ports that answer, in the order asked, on a
    host where 23 and 8443 answer. *)
Definition telnet_and_https (port : Z) : bool :=
  bool_decide (port = 23) || bool_decide (port = 8443).

Definition filtering_scan : string → list Z → list Z :=
  λ _ ports, filter (λ port, telnet_and_https port = true) ports.

Lemma protocol_checks_agree_witness :
  detect_management_protocols filtering_scan "10.0.0.5" !! "telnet" =
    Some (open_flag (detect_all_protocols filtering_scan "10.0.0.5") "telnet") ∧
  check_specific_protocol filtering_scan "10.0.0.5" "https" (Some 8443) = true.
Proof.
  destruct (protocol_checks_agree filtering_scan "10.0.0.5" telnet_and_https)
    as (H1 & _ & H3 & _).
  - intros ports port. unfold filtering_scan.
    by rewrite list_elem_of_filter, (comm and).
  - split.
    + apply H1. unfold management_protocols.
      apply list_elem_of_further, list_elem_of_here.
    + destruct (H3 "https" [443; 8443]) as (_ & _ & H).
      * apply (bool_decide_unpack _). by vm_compute.
      * by rewrite H.
Defined.

End ProtocolSurface.

(** ** Regular expressions, as far as the vendor table uses them *)

Module Regex.

(** Character classes of the table, on ASCII text: [[0-9]], [\s] (the white
    space of Python's [str]: tab to carriage return, the separators 0x1C to
    0x1F and the space) and an explicit set. *)
Inductive cclass :=
| Digit
| Space
| OneOf (cs : list ascii).

Definition class_mem (k : cclass) (c : ascii) : bool :=
  match k with
  | Digit => (48 <=? N_of_ascii c)%N && (N_of_ascii c <=? 57)%N
  | Space =>
      bool_decide (N_of_ascii c ∈ [9; 10; 11; 12; 13; 28; 29; 30; 31; 32]%N)
  | OneOf cs => bool_decide (c ∈ cs)
  end.

Inductive regex :=
| Void
| Eps
| Chr (c : ascii)
| Cls (k : cclass)
| Cat (r1 r2 : regex)
| Alt (r1 r2 : regex)
| Star (r : regex).

(** [r+] *)
Definition Plus (r : regex) : regex := Cat r (Star r).

(** A pattern without metacharacters. *)
Fixpoint lit (s : string) : regex :=
  match s with
  | EmptyString => Eps
  | String c s' => Cat (Chr c) (lit s')
  end.

(** The strings a pattern matches. *)
Inductive matches : regex → string → Prop :=
| MEps : matches Eps ""
| MChr c : matches (Chr c) (String c "")
| MCls k c : class_mem k c = true → matches (Cls k) (String c "")
| MCat r1 r2 s1 s2 :
    matches r1 s1 → matches r2 s2 → matches (Cat r1 r2) (s1 +:+ s2)
| MAltL r1 r2 s : matches r1 s → matches (Alt r1 r2) s
| MAltR r1 r2 s : matches r2 s → matches (Alt r1 r2) s
| MStarNil r : matches (Star r) ""
| MStarCons r s1 s2 :
    matches r s1 → matches (Star r) s2 → matches (Star r) (s1 +:+ s2).

(** Matching by derivatives. *)
Fixpoint nullable (r : regex) : bool :=
  match r with
  | Void => false
  | Eps => true
  | Chr _ => false
  | Cls _ => false
  | Cat r1 r2 => nullable r1 && nullable r2
  | Alt r1 r2 => nullable r1 || nullable r2
  | Star _ => true
  end.

Fixpoint deriv (c : ascii) (r : regex) : regex :=
  match r with
  | Void => Void
  | Eps => Void
  | Chr d => if bool_decide (c = d) then Eps else Void
  | Cls k => if class_mem k c then Eps else Void
  | Cat r1 r2 =>
      if nullable r1 then Alt (Cat (deriv c r1) r2) (deriv c r2)
      else Cat (deriv c r1) r2
  | Alt r1 r2 => Alt (deriv c r1) (deriv c r2)
  | Star r1 => Cat (deriv c r1) (Star r1)
  end.

(** Some prefix of [s] matches [r]. *)
Fixpoint prefix_match (r : regex) (s : string) : bool :=
  nullable r ||
  match s with
  | EmptyString => false
  | String c s' => prefix_match (deriv c r) s'
  end.

(** [re.search(r, s)] as a truth value: some substring of [s] matches [r]. *)
Fixpoint re_search (r : regex) (s : string) : bool :=
  prefix_match r s ||
  match s with
  | EmptyString => false
  | String _ s' => re_search r s'
  end.

(** [sub in s] on strings. *)
Definition str_in (sub s : string) : bool := re_search (lit sub) s.

(** *** The matcher decides the semantics *)

Lemma app_empty_inv (s1 s2 : string) : s1 +:+ s2 = "" → s1 = "" ∧ s2 = "".
Proof. by destruct s1. Qed.

Lemma app_cons_inv (s1 s2 : string) c s :
  s1 +:+ s2 = String c s →
  (s1 = "" ∧ s2 = String c s) ∨ (∃ s1', s1 = String c s1' ∧ s = s1' +:+ s2).
Proof.
  destruct s1 as [|d s1]; simpl; [auto|].
  intros [= -> <-]. right. eauto.
Qed.

Lemma matches_cat_inv r1 r2 s :
  matches (Cat r1 r2) s →
  ∃ s1 s2, s = s1 +:+ s2 ∧ matches r1 s1 ∧ matches r2 s2.
Proof. inversion 1; subst; eauto. Qed.

Lemma nullable_matches r : nullable r = true ↔ matches r "".
Proof.
  split.
  - induction r; simpl; intros H; try done.
    + constructor.
    + apply andb_prop in H as [H1 H2].
      change "" with ("" +:+ ""). constructor; auto.
    + apply orb_prop in H as [H|H]; [apply MAltL|apply MAltR]; auto.
    + constructor.
  - induction r; intros H; inversion H; subst; simpl; try done.
    + match goal with E : _ +:+ _ = "" |- _ =>
        apply app_empty_inv in E as [-> ->] end.
      rewrite IHr1, IHr2 by done. done.
    + rewrite IHr1 by done. done.
    + rewrite IHr2 by done. apply orb_true_r.
Qed.

Lemma star_cons_inv r c s :
  matches (Star r) (String c s) →
  ∃ s1 s2, s = s1 +:+ s2 ∧ matches r (String c s1) ∧ matches (Star r) s2.
Proof.
  intros H. remember (Star r) as r' eqn:Hr. remember (String c s) as t eqn:Ht.
  revert Hr Ht. induction H; intros Hr Ht; try done.
  injection Hr as ->.
  apply app_cons_inv in Ht as [[-> ->]|(s1' & -> & ->)].
  - auto.
  - eauto.
Qed.

Lemma deriv_matches c r s : matches (deriv c r) s ↔ matches r (String c s).
Proof.
  revert s. induction r as [| |d|k|r1 IH1 r2 IH2|r1 IH1 r2 IH2|r IH];
    intros s; simpl.
  - split; intros H; inversion H.
  - split; intros H; inversion H.
  - case_bool_decide as Hc.
    + subst. split; intros H; inversion H; subst; constructor.
    + split; intros H; inversion H; subst; done.
  - destruct (class_mem k c) eqn:Hk.
    + split; intros H; inversion H; subst; by constructor.
    + split; intros H; inversion H; subst; congruence.
  - split.
    + intros H.
      assert (Hl : matches (Cat (deriv c r1) r2) s →
                   matches (Cat r1 r2) (String c s)).
      { intros Hc. inversion Hc; subst.
        change (String c (?a +:+ ?b)) with (String c a +:+ b).
        constructor; [by apply IH1|done]. }
      destruct (nullable r1) eqn:Hn; [|auto].
      inversion H; subst; [auto|].
      change (String c s) with ("" +:+ String c s).
      constructor; [by apply nullable_matches|by apply IH2].
    + intros (s1 & s2 & E & H1 & H2)%matches_cat_inv.
      symmetry in E. apply app_cons_inv in E as [[-> ->]|(s1' & -> & ->)].
      * apply nullable_matches in H1 as ->. apply MAltR. by apply IH2.
      * assert (matches (Cat (deriv c r1) r2) (s1' +:+ s2))
          by (constructor; [by apply IH1|done]).
        destruct (nullable r1); [by apply MAltL|done].
  - split; intros H; inversion H; subst;
      (apply MAltL; by apply IH1) || (apply MAltR; by apply IH2).
  - split.
    + intros H. inversion H; subst.
      change (String c (?a +:+ ?b)) with (String c a +:+ b).
      constructor; [by apply IH|done].
    + intros (s1 & s2 & -> & H1 & H2)%star_cons_inv.
      constructor; [by apply IH|done].
Qed.

Lemma prefix_match_spec r s :
  prefix_match r s = true ↔ ∃ s1 s2, s = s1 +:+ s2 ∧ matches r s1.
Proof.
  revert r. induction s as [|c s IH]; intros r; simpl.
  - rewrite orb_false_r, nullable_matches. split.
    + intros H. by exists "", "".
    + intros (s1 & s2 & [-> ->]%eq_sym%app_empty_inv & H). done.
  - rewrite orb_true_iff, nullable_matches, IH. split.
    + intros [H|(s1 & s2 & -> & H)].
      * by exists "", (String c s).
      * exists (String c s1), s2. split; [done|]. by apply deriv_matches.
    + intros (s1 & s2 & E & H).
      symmetry in E. apply app_cons_inv in E as [[-> ->]|(s1' & -> & ->)].
      * by left.
      * right. exists s1', s2. split; [done|]. by apply deriv_matches.
Qed.

Lemma re_search_spec r s :
  re_search r s = true ↔
  ∃ pre m post, s = pre +:+ m +:+ post ∧ matches r m.
Proof.
  induction s as [|c s IH]; cbn [re_search].
  - rewrite orb_false_r, prefix_match_spec. split.
    + intros (s1 & s2 & -> & H). by exists "", s1, s2.
    + intros (pre & m & post & E & H).
      symmetry in E. apply app_empty_inv in E as [-> [-> ->]%app_empty_inv].
      by exists "", "".
  - rewrite orb_true_iff, prefix_match_spec, IH. split.
    + intros [(s1 & s2 & -> & H)|(pre & m & post & -> & H)].
      * by exists "", s1, s2.
      * by exists (String c pre), m, post.
    + intros (pre & m & post & E & H). destruct pre as [|d pre]; simpl in E.
      * left. by exists m, post.
      * injection E as -> ->. right. by exists pre, m, post.
Qed.

Lemma lit_matches p m : matches (lit p) m ↔ m = p.
Proof.
  revert m. induction p as [|c p IH]; intros m; simpl.
  - split; [by inversion 1|intros ->; constructor].
  - split.
    + intros (s1 & s2 & -> & H1 & H2)%matches_cat_inv.
      inversion H1; subst. apply IH in H2 as ->. done.
    + intros ->. change (String c p) with (String c "" +:+ p).
      constructor; [constructor|by apply IH].
Qed.

Lemma str_in_spec sub s :
  str_in sub s = true ↔ ∃ pre post, s = pre +:+ sub +:+ post.
Proof.
  unfold str_in. rewrite re_search_spec. split.
  - intros (pre & m & post & -> & ->%lit_matches). eauto.
  - intros (pre & post & ->). exists pre, sub, post.
    split; [done|]. by apply lit_matches.
Qed.

End Regex.

(** ** Local addresses ([ip_parser.IPParser.filter_local_ips]) *)

Module LocalAddresses.
Import Regex.

(** A pattern of the table: its body, and whether it ends in [$]. *)
Record pattern := mkPattern {
  body : regex;
  dollar : bool
}.

(** The whole of [s] matches [r]. *)
Fixpoint full_match (r : regex) (s : string) : bool :=
  match s with
  | EmptyString => nullable r
  | String c s' => full_match (deriv c r) s'
  end.

Definition newline : ascii := "010"%char.

(** [re.match(pattern, s)] as a truth value: the body matches a prefix of [s];
    under [$] the match has to stop at the end of [s] or just before a newline
    that ends [s]. *)
Definition re_match (p : pattern) (s : string) : bool :=
  if dollar p
  then full_match (Cat (body p) (Alt Eps (Chr newline))) s
  else prefix_match (body p) s.

(** [local_patterns]; every pattern starts with [^], which [re.match] implies. *)
Definition local_patterns : list pattern :=
  [mkPattern (lit "127.") false;
   mkPattern (lit "169.254.") false;
   mkPattern (lit "10.") false;
   mkPattern
     (Cat (lit "172.")
        (Cat (Alt (Cat (Chr "1") (Cls (OneOf ["6"; "7"; "8"; "9"]%char)))
                (Alt (Cat (Chr "2") (Cls Digit))
                   (Cat (Chr "3") (Cls (OneOf ["0"; "1"]%char)))))
           (Chr ".")))
     false;
   mkPattern (lit "192.168.") false;
   mkPattern (lit "::1") true;
   mkPattern (lit "fe80::") false;
   mkPattern (lit "fc00::") false;
   mkPattern (lit "fd00::") false].

(** The inner loop [for pattern in local_patterns] with its [break]. *)
Definition is_local (ip : string) : bool :=
  existsb (λ p, re_match p ip) local_patterns.

(** [filter_local_ips]: the returned set [filtered_ips]. *)
Definition filter_local_ips (ip_set : gset string) : gset string :=
  filter (λ ip, is_local ip = false) ip_set.

(** *** What the table removes *)

Definition starts_with (p s : string) : Prop := ∃ rest, s = p +:+ rest.

(** The text starts with [172.], a second octet from 16 to 31 and a dot. *)
Definition private_172 (s : string) : Prop :=
  ∃ (n : N) rest, (16 ≤ n ≤ 31)%N ∧ s = "172." +:+ pretty n +:+ "." +:+ rest.

Lemma full_match_spec r s : full_match r s = true ↔ matches r s.
Proof.
  revert r. induction s as [|c s IH]; intros r; cbn [full_match].
  - apply nullable_matches.
  - rewrite IH. apply deriv_matches.
Qed.

Lemma string_app_assoc (s1 s2 s3 : string) :
  (s1 +:+ s2) +:+ s3 = s1 +:+ (s2 +:+ s3).
Proof.
  induction s1 as [|c s1 IH]; [done|].
  change (String c ((s1 +:+ s2) +:+ s3) = String c (s1 +:+ s2 +:+ s3)).
  by rewrite IH.
Qed.

Lemma string_app_nil_r (s : string) : s +:+ "" = s.
Proof.
  induction s as [|c s IH]; [done|].
  change (String c (s +:+ "") = String c s). by rewrite IH.
Qed.

Lemma re_match_lit p s :
  re_match (mkPattern (lit p) false) s = true ↔ starts_with p s.
Proof.
  unfold re_match, starts_with. cbn [dollar body]. rewrite prefix_match_spec.
  split.
  - intros (s1 & s2 & -> & ->%lit_matches). by exists s2.
  - intros (rest & ->). exists p, rest. split; [done|]. by apply lit_matches.
Qed.

Lemma re_match_lit_dollar p s :
  re_match (mkPattern (lit p) true) s = true ↔
  s = p ∨ s = p +:+ String newline "".
Proof.
  unfold re_match. cbn [dollar body]. rewrite full_match_spec. split.
  - intros (s1 & s2 & -> & ->%lit_matches & H)%matches_cat_inv.
    inversion H as [| | | |? ? ? H'|? ? ? H'| |]; subst; inversion H'; subst.
    + left. apply string_app_nil_r.
    + by right.
  - intros [->| ->].
    + rewrite <- (string_app_nil_r p) at 2.
      constructor; [by apply lit_matches|]. apply MAltL. constructor.
    + constructor; [by apply lit_matches|]. apply MAltR. constructor.
Qed.

Lemma matches_chr_inv c s : matches (Chr c) s → s = String c "".
Proof. by inversion 1. Qed.

Lemma matches_cls_inv k s :
  matches (Cls k) s → ∃ c, s = String c "" ∧ class_mem k c = true.
Proof. inversion 1; subst. eauto. Qed.

Lemma matches_alt_inv r1 r2 s :
  matches (Alt r1 r2) s → matches r1 s ∨ matches r2 s.
Proof. inversion 1; subst; auto. Qed.

Lemma digit_cases c :
  class_mem Digit c = true →
  c ∈ ["0"; "1"; "2"; "3"; "4"; "5"; "6"; "7"; "8"; "9"]%char.
Proof.
  cbn [class_mem]. intros [H1 H2]%andb_prop.
  apply N.leb_le in H1, H2.
  rewrite <- (ascii_N_embedding c).
  destruct (N_of_ascii c) as [|p]; [lia|].
  do 6 (destruct p as [p|p|]; try lia); apply (bool_decide_unpack _); by vm_compute.
Qed.

Lemma second_octet_spec m :
  matches (Alt (Cat (Chr "1") (Cls (OneOf ["6"; "7"; "8"; "9"]%char)))
             (Alt (Cat (Chr "2") (Cls Digit))
                (Cat (Chr "3") (Cls (OneOf ["0"; "1"]%char))))) m ↔
  ∃ n : N, (16 ≤ n ≤ 31)%N ∧ m = pretty n.
Proof.
  split.
  - intros [H|[H|H]%matches_alt_inv]%matches_alt_inv;
      apply matches_cat_inv in H
        as (s1 & s2 & -> & ->%matches_chr_inv & (c & -> & Hc)%matches_cls_inv).
    + cbn [class_mem] in Hc. apply bool_decide_eq_true in Hc.
      repeat (apply elem_of_cons in Hc as [->|Hc]);
        [by exists 16%N|by exists 17%N|by exists 18%N|by exists 19%N|
         by apply elem_of_nil in Hc].
    + apply digit_cases in Hc.
      repeat (apply elem_of_cons in Hc as [->|Hc]);
        [by exists 20%N|by exists 21%N|by exists 22%N|by exists 23%N|
         by exists 24%N|by exists 25%N|by exists 26%N|by exists 27%N|
         by exists 28%N|by exists 29%N|by apply elem_of_nil in Hc].
    + cbn [class_mem] in Hc. apply bool_decide_eq_true in Hc.
      repeat (apply elem_of_cons in Hc as [->|Hc]);
        [by exists 30%N|by exists 31%N|by apply elem_of_nil in Hc].
  - intros (n & Hn & ->).
    assert (Hcases : n ∈ [16; 17; 18; 19; 20; 21; 22; 23; 24; 25; 26; 27; 28;
                          29; 30; 31]%N).
    { destruct n as [|p]; [lia|].
      do 5 (destruct p as [p|p|]; try lia); apply (bool_decide_unpack _);
        by vm_compute. }
    repeat (apply elem_of_cons in Hcases as [->|Hcases]);
      try (by apply elem_of_nil in Hcases);
      apply full_match_spec; by vm_compute.
Qed.

Lemma re_match_172 s :
  re_match
    (mkPattern
       (Cat (lit "172.")
          (Cat (Alt (Cat (Chr "1") (Cls (OneOf ["6"; "7"; "8"; "9"]%char)))
                  (Alt (Cat (Chr "2") (Cls Digit))
                     (Cat (Chr "3") (Cls (OneOf ["0"; "1"]%char)))))
             (Chr ".")))
       false) s = true ↔
  private_172 s.
Proof.
  unfold re_match, private_172. cbn [dollar body]. rewrite prefix_match_spec.
  split.
  - intros (s1 & s2 & -> & H).
    apply matches_cat_inv in H as (a & b & -> & ->%lit_matches & H).
    apply matches_cat_inv in H as (m & d & -> & Hm & ->%matches_chr_inv).
    apply second_octet_spec in Hm as (n & Hn & ->).
    exists n, s2. split; [done|]. by rewrite !string_app_assoc.
  - intros (n & rest & Hn & ->).
    exists ("172." +:+ pretty n +:+ "."), rest.
    split; [by rewrite !string_app_assoc|].
    constructor; [by apply lit_matches|].
    constructor; [|constructor]. apply second_octet_spec. by exists n.
Qed.

Lemma is_local_spec ip :
  is_local ip = true ↔
  starts_with "127." ip ∨ starts_with "169.254." ip ∨ starts_with "10." ip ∨
  private_172 ip ∨ starts_with "192.168." ip ∨
  ip = "::1" ∨ ip = "::1" +:+ String newline "" ∨
  starts_with "fe80::" ip ∨ starts_with "fc00::" ip ∨ starts_with "fd00::" ip.
Proof.
  unfold is_local, local_patterns. cbn [existsb].
  rewrite orb_false_r, !orb_true_iff, !re_match_lit, re_match_172,
    re_match_lit_dollar.
  tauto.
Qed.

(** [filter_local_ips] keeps exactly the members of its argument that do not
    start with [127.], [169.254.], [10.], [192.168.], [172.] followed by a
    second octet from 16 to 31 and a dot, [fe80::], [fc00::] or [fd00::], and
    that are not [::1] (alone or followed by one newline); so it never adds an
    address, and among the IPv6 unique local addresses it removes only those
    written with the prefix [fc00::] or [fd00::]. *)
Theorem local_address_filter (ip_set : gset string) (ip : string) :
  (ip ∈ filter_local_ips ip_set ↔
   ip ∈ ip_set ∧
   ¬ (starts_with "127." ip ∨ starts_with "169.254." ip ∨
      starts_with "10." ip ∨ private_172 ip ∨ starts_with "192.168." ip ∨
      ip = "::1" ∨ ip = "::1" +:+ String newline "" ∨
      starts_with "fe80::" ip ∨ starts_with "fc00::" ip ∨
      starts_with "fd00::" ip)) ∧
  filter_local_ips ip_set ⊆ ip_set ∧
  filter_local_ips (filter_local_ips ip_set) = filter_local_ips ip_set.
Proof.
  assert (Hmem : ∀ S a, a ∈ filter_local_ips S ↔ a ∈ S ∧ is_local a = false).
  { intros S a. unfold filter_local_ips. rewrite elem_of_filter. tauto. }
  split_and!.
  - rewrite Hmem, <- is_local_spec. by rewrite not_true_iff_false.
  - intros a [Ha _]%Hmem. done.
  - apply set_eq. intros a. rewrite !Hmem. tauto.
Qed.

(** Addresses next to the edges of the table: 172.15 and 172.32 are kept,
    and so is a unique local IPv6 address not written with [fd00::]. *)
Example local_table_edges :
  is_local <$> ["172.15.0.1"; "172.16.0.1"; "172.31.255.254"; "172.32.0.1";
                "10.1.2.3"; "100.64.0.1"; "fd00::1"; "fd12:3456::1"; "::1"] =
  [false; true; true; false; true; false; true; false; true].
Proof. by vm_compute. Qed.

End LocalAddresses.

(** ** The classifier ([device_detector.DeviceDetector]) *)

Module Classifier.
Import Regex.

(** *** Strings *)

(** [str.lower()], on ASCII text. *)
Definition ascii_lower (c : ascii) : ascii :=
  let n := N_of_ascii c in
  if (65 <=? n)%N && (n <=? 90)%N then ascii_of_N (n + 32) else c.

Fixpoint str_lower (s : string) : string :=
  match s with
  | EmptyString => EmptyString
  | String c s' => String (ascii_lower c) (str_lower s')
  end.

Definition is_space (c : ascii) : bool := class_mem Space c.

Fixpoint lstrip (s : string) : string :=
  match s with
  | EmptyString => EmptyString
  | String c s' => if is_space c then lstrip s' else s
  end.

(** [rstrip]: the trailing run of white space goes. *)
Fixpoint rstrip (s : string) : string :=
  match s with
  | EmptyString => EmptyString
  | String c s' =>
      match rstrip s' with
      | EmptyString => if is_space c then EmptyString else String c EmptyString
      | t => String c t
      end
  end.

(** [str.strip()] *)
Definition strip (s : string) : string := rstrip (lstrip s).

(** [s[:n]] *)
Definition str_take (n : nat) (s : string) : string := substring 0 n s.

(** [subtype.replace('-', ' ')] *)
Fixpoint replace_dash (s : string) : string :=
  match s with
  | EmptyString => EmptyString
  | String c s' => String (if bool_decide (c = "-"%char) then " "%char else c)
                          (replace_dash s')
  end.

(** *** The tables *)

Definition cats (rs : list regex) : regex := foldr Cat Eps rs.
Definition digits : regex := Plus (Cls Digit).
Definition spaces : regex := Plus (Cls Space).

(** [VENDOR_PATTERNS], in the order written; each signature is the regular
    expression of the source. *)
Definition VENDOR_PATTERNS : list (string * list regex) :=
  [("Cisco",
    [lit "cisco"; lit "ios";
     cats [lit "ios"; spaces; lit "xe"];
     cats [lit "ios"; spaces; lit "xr"];
     lit "nexus"; lit "asa";
     cats [lit "cat"; digits];
     cats [lit "ws-"; Cls (OneOf ["c"; "|"; "s"]%char)];
     cats [lit "c"; digits];
     cats [lit "asr"; digits];
     cats [lit "isr"; digits]]);
   ("Juniper",
    [lit "juniper"; lit "junos"; lit "srx";
     cats [lit "ex"; digits]; cats [lit "mx"; digits];
     cats [lit "ptx"; digits]; cats [lit "qfx"; digits]]);
   ("HP/HPE/Aruba",
    [lit "procurve"; lit "aruba"; lit "hp"; lit "comware"; lit "1910";
     lit "2920"; lit "3800"; lit "5400"; lit "8200"]);
   ("MikroTik",
    [lit "mikrotik"; lit "routeros"; lit "ccr"; lit "rb"; lit "hex"; lit "hap"]);
   ("Arista", [lit "arista"; lit "eos"; lit "dcs"]);
   ("Palo Alto", [lit "palo"; lit "pan-os"; cats [lit "pa-"; digits]]);
   ("Fortinet", [lit "fortinet"; lit "fortios"; lit "fortigate"]);
   ("Ubiquiti",
    [lit "ubiquiti"; lit "edgerouter"; lit "edgeswitch"; lit "unifi"]);
   ("Linux",
    [lit "linux"; lit "ubuntu"; lit "debian"; lit "centos";
     cats [lit "red"; spaces; lit "hat"]; lit "fedora"]);
   ("Huawei",
    [lit "huawei"; lit "vrp"; cats [lit "ce"; digits]; cats [lit "ne"; digits]]);
   ("Dell",
    [lit "dell"; lit "powerconnect"; lit "force10"; cats [lit "n"; digits]]);
   ("Extreme", [lit "extreme"; lit "exos"]);
   ("Brocade", [lit "brocade"; lit "vdx"; lit "netiron"; lit "fastiron"]);
   ("Nokia", [lit "nokia"; cats [lit "sr"; spaces; lit "os"]; lit "alu"])].

(** [VENDOR_TO_DEVICE_TYPE] *)
Definition VENDOR_TO_DEVICE_TYPE : list (string * list (string * string)) :=
  [("Cisco",
    [("ios", "cisco_ios"); ("ios-xe", "cisco_xe"); ("ios-xr", "cisco_xr");
     ("nx-os", "cisco_nxos"); ("asa", "cisco_asa"); ("s300", "cisco_s300");
     ("wlc", "cisco_wlc"); ("ios-telnet", "cisco_ios_telnet");
     ("xe-telnet", "cisco_xe_telnet")]);
   ("Juniper",
    [("junos", "juniper"); ("junos-telnet", "juniper_telnet");
     ("screenos", "juniper_screenos")]);
   ("HP/HPE/Aruba",
    [("procurve", "hp_procurve"); ("comware", "hp_comware");
     ("aruba", "aruba_osswitch"); ("procurve-telnet", "hp_procurve_telnet")]);
   ("MikroTik",
    [("routeros", "mikrotik_routeros");
     ("routeros-telnet", "mikrotik_routeros_telnet")]);
   ("Arista", [("eos", "arista_eos"); ("eos-telnet", "arista_eos_telnet")]);
   ("Palo Alto",
    [("pan-os", "paloalto_panos"); ("pan-os-telnet", "paloalto_panos_telnet")]);
   ("Fortinet", [("fortios", "fortinet"); ("fortios-telnet", "fortinet_telnet")]);
   ("Ubiquiti", [("edge", "ubiquiti_edge"); ("edgeswitch", "ubiquiti_edgeswitch")]);
   ("Linux", [("linux", "linux"); ("linux-telnet", "linux_telnet")]);
   ("Huawei", [("vrp", "huawei"); ("vrp-telnet", "huawei_telnet")]);
   ("Dell",
    [("powerconnect", "dell_powerconnect"); ("force10", "dell_force10");
     ("os6", "dell_os6"); ("os10", "dell_os10")])].

(** [DISCOVERY_COMMANDS] *)
Definition DISCOVERY_COMMANDS : list string :=
  ["show version"; "show ver"; "version"; "display version";
   "cat /etc/os-release"; "uname -a"; "/system resource print";
   "get system status"; "show system"; "show inventory"].

(** *** The functions *)

(** The three extractions that read a capture group of a regular expression
    ([_extract_model], [extract_version], [extract_serial]): functions of the
    text, taken as given. *)
Record Extractors := mkExtractors {
  _extract_model : string → string → option string;
  extract_version : string → option string;
  extract_serial : string → option string
}.

(** [self.cache]: keyed by [hash(output[:500])]; the hash is taken to be
    injective, so the key is the prefix itself. *)
Definition cache_key (output : string) : string := str_take 500 output.

(** The two nested loops of [detect_vendor]: the first vendor of the table one
    of whose signatures is found in the text. *)
Definition vendor_matches (output_lower : string) (e : string * list regex)
    : bool :=
  existsb (λ pattern, re_search pattern output_lower) e.2.

Definition first_vendor (table : list (string * list regex))
    (output_lower : string) : option string :=
  fst <$> find (vendor_matches output_lower) table.

(** The keyword fallback after the loops. *)
Definition keyword_vendor (output_lower : string) : option string :=
  if str_in "cisco" output_lower then Some "Cisco"
  else if str_in "juniper" output_lower then Some "Juniper"
  else if str_in "mikrotik" output_lower then Some "MikroTik"
  else if str_in "linux" output_lower then Some "Linux"
  else None.

(** [detect_vendor]: the pair returned and the cache afterwards. *)
Definition detect_vendor (ex : Extractors)
    (cache : gmap string (option string * option string)) (output : string)
    : (option string * option string) *
      gmap string (option string * option string) :=
  let output_lower := str_lower output in
  match cache !! cache_key output with
  | Some r => (r, cache)
  | None =>
      match first_vendor VENDOR_PATTERNS output_lower with
      | Some vendor_name =>
          let r := (Some vendor_name, _extract_model ex output vendor_name) in
          (r, <[cache_key output := r]> cache)
      | None =>
          match keyword_vendor output_lower with
          | Some vendor =>
              let r := (Some vendor, _extract_model ex output vendor) in
              (r, <[cache_key output := r]> cache)
          | None => ((None, None), cache)
          end
      end
  end.

(** [determine_device_type] *)
Definition determine_device_type (vendor output : string) : option string :=
  if bool_decide (vendor = "") then None
  else
    let output_lower := str_lower output in
    if bool_decide (vendor = "Cisco") then
      if str_in "asa" output_lower then Some "cisco_asa"
      else if str_in "nexus" output_lower || str_in "nx-os" output_lower
           then Some "cisco_nxos"
      else if str_in "ios-xe" output_lower then Some "cisco_xe"
      else if str_in "ios-xr" output_lower then Some "cisco_xr"
      else Some "cisco_ios"
    else
      match snd <$> find (λ e, bool_decide (e.1 = vendor)) VENDOR_TO_DEVICE_TYPE with
      | Some subtypes =>
          match find (λ e, str_in (replace_dash e.1) output_lower) subtypes with
          | Some e => Some e.2
          | None => snd <$> head subtypes
          end
      | None => None
      end.

(** The dictionary [analyze_output] returns. *)
Record DeviceInfo := mkDeviceInfo {
  raw_output : string;
  vendor : option string;
  model : option string;
  os_version : option string;
  serial_number : option string;
  device_type : option string
}.

(** [analyze_output] *)
Definition analyze_output (ex : Extractors)
    (cache : gmap string (option string * option string)) (output : string)
    : DeviceInfo * gmap string (option string * option string) :=
  let raw := str_take 1000 output in
  if bool_decide (output = "") || (String.length (strip output) <? 10)%nat then
    (mkDeviceInfo raw None None None None None, cache)
  else
    let '((v, m), cache') := detect_vendor ex cache output in
    (mkDeviceInfo raw v m (extract_version ex output) (extract_serial ex output)
       (match v with
        | Some vendor => determine_device_type vendor output
        | None => None
        end),
     cache').

(** *** Properties of the vendor lookup *)

Lemma find_first_index {A} (f : A → bool) (l : list A) (i : nat) (x : A) :
  l !! i = Some x → f x = true →
  (∀ j y, (j < i)%nat → l !! j = Some y → f y = false) →
  find f l = Some x.
Proof.
  revert i. induction l as [|y l IH]; intros i Hi Hx Hbefore; [done|].
  destruct i as [|i]; simpl in *.
  - injection Hi as ->. by rewrite Hx.
  - rewrite (Hbefore 0%nat y) by (done || lia).
    apply (IH i); [done|done|].
    intros j z Hj Hz. apply (Hbefore (S j) z); [lia|done].
Qed.

Lemma vendor_matches_spec output_lower v sigs :
  vendor_matches output_lower (v, sigs) = true ↔
  ∃ pattern, pattern ∈ sigs ∧ re_search pattern output_lower = true.
Proof.
  unfold vendor_matches. simpl. rewrite existsb_exists.
  split; intros (pattern & Hin & Hm); exists pattern;
    (split; [by apply list_elem_of_In|done]).
Qed.

Lemma detect_vendor_miss ex cache output :
  cache !! cache_key output = None →
  (detect_vendor ex cache output).1 =
  match first_vendor VENDOR_PATTERNS (str_lower output) with
  | Some v => (Some v, _extract_model ex output v)
  | None =>
      match keyword_vendor (str_lower output) with
      | Some v => (Some v, _extract_model ex output v)
      | None => (None, None)
      end
  end.
Proof.
  intros Hmiss. unfold detect_vendor. rewrite Hmiss.
  destruct (first_vendor _ _); [done|]. by destruct (keyword_vendor _).
Qed.

(** No extraction at all: enough to run the vendor lookup. *)
Definition no_extraction : Extractors :=
  mkExtractors (λ _ _, None) (λ _, None) (λ _, None).

Fixpoint str_repeat (n : nat) (c : ascii) : string :=
  match n with
  | O => EmptyString
  | S n' => String c (str_repeat n' c)
  end.

(** Five hundred dashes: a banner prefix that carries no signature. *)
Definition ruler : string := str_repeat 500 "-"%char.

(** The specification's sentence on determinism at one input: classifying
    [output] gives the same answer whether or not the detector classified
    [earlier] before. *)
Definition unaffected_by_history (ex : Extractors) (earlier output : string)
    : Prop :=
  (detect_vendor ex (detect_vendor ex ∅ earlier).2 output).1 =
  (detect_vendor ex ∅ output).1.

(** C5 (as the code has it): when the cache holds nothing under the input's
    key (as on a fresh detector), the vendor is a function of the input alone:
    the first vendor, in table order, one of whose signatures is found in the
    lower-cased text; so a text containing "cisco" is Cisco wherever the word
    stands and whatever Juniper signature it also contains. *)
Theorem vendor_by_table_order (ex : Extractors)
    (cache : gmap string (option string * option string)) (output : string) :
  cache !! cache_key output = None →
  (∀ cache' : gmap string (option string * option string),
     cache' !! cache_key output = None →
     (detect_vendor ex cache' output).1 = (detect_vendor ex cache output).1) ∧
  (∀ (i : nat) v sigs,
     VENDOR_PATTERNS !! i = Some (v, sigs) →
     (∃ pattern, pattern ∈ sigs ∧
                 re_search pattern (str_lower output) = true) →
     (∀ (j : nat) v' sigs' pattern,
        (j < i)%nat → VENDOR_PATTERNS !! j = Some (v', sigs') →
        pattern ∈ sigs' → re_search pattern (str_lower output) = false) →
     (detect_vendor ex cache output).1.1 = Some v) ∧
  ((∃ pre post, str_lower output = pre +:+ "cisco" +:+ post) →
   (detect_vendor ex cache output).1.1 = Some "Cisco").
Proof.
  intros Hmiss.
  assert (Hfirst : ∀ (i : nat) v sigs,
     VENDOR_PATTERNS !! i = Some (v, sigs) →
     (∃ pattern, pattern ∈ sigs ∧
                 re_search pattern (str_lower output) = true) →
     (∀ (j : nat) v' sigs' pattern,
        (j < i)%nat → VENDOR_PATTERNS !! j = Some (v', sigs') →
        pattern ∈ sigs' → re_search pattern (str_lower output) = false) →
     (detect_vendor ex cache output).1.1 = Some v).
  { intros i v sigs Hi Hm Hbefore. rewrite detect_vendor_miss by done.
    unfold first_vendor.
    rewrite (find_first_index _ _ i (v, sigs)); [done|done| |].
    - by apply vendor_matches_spec.
    - intros j [v' sigs'] Hj Hj'.
      destruct (vendor_matches _ _) eqn:E; [|done].
      apply vendor_matches_spec in E as (pattern & Hin & Hp).
      by rewrite (Hbefore j v' sigs' pattern) in Hp. }
  split_and!.
  - intros cache' Hmiss'. by rewrite !detect_vendor_miss.
  - exact Hfirst.
  - intros Hsub. eapply (Hfirst 0%nat); [reflexivity| |intros; lia].
    exists (lit "cisco"). split; [apply list_elem_of_here|].
    by apply str_in_spec.
Qed.

Lemma vendor_by_table_order_witness :
  (∀ cache' : gmap string (option string * option string),
     cache' !! cache_key "Juniper EX4200 uplink to cisco core" = None →
     (detect_vendor no_extraction cache'
        "Juniper EX4200 uplink to cisco core").1 =
     (detect_vendor no_extraction ∅ "Juniper EX4200 uplink to cisco core").1) ∧
  (∀ (i : nat) v sigs,
     VENDOR_PATTERNS !! i = Some (v, sigs) →
     (∃ pattern, pattern ∈ sigs ∧
                 re_search pattern
                   (str_lower "Juniper EX4200 uplink to cisco core") = true) →
     (∀ (j : nat) v' sigs' pattern,
        (j < i)%nat → VENDOR_PATTERNS !! j = Some (v', sigs') →
        pattern ∈ sigs' →
        re_search pattern
          (str_lower "Juniper EX4200 uplink to cisco core") = false) →
     (detect_vendor no_extraction ∅
        "Juniper EX4200 uplink to cisco core").1.1 = Some v) ∧
  ((∃ pre post, str_lower "Juniper EX4200 uplink to cisco core" =
                pre +:+ "cisco" +:+ post) →
   (detect_vendor no_extraction ∅
      "Juniper EX4200 uplink to cisco core").1.1 = Some "Cisco").
Proof.
  apply (vendor_by_table_order no_extraction ∅
           "Juniper EX4200 uplink to cisco core").
  reflexivity.
Defined.

(** The same text, evaluated: Juniper stands first in the text and Cisco first
    in the table. *)
Example both_vendors_example :
  (detect_vendor no_extraction ∅
     "Juniper EX4200 uplink to cisco core").1.1 = Some "Cisco" ∧
  (detect_vendor no_extraction ∅
     "cisco core, uplink from Juniper EX4200").1.1 = Some "Cisco" ∧
  (detect_vendor no_extraction ∅ "JUNOS 12.3R12 built for EX4200").1.1 =
    Some "Juniper".
Proof. split_and!; by vm_compute. Qed.

(** C5, as the specification words it, fails: after a banner made of the ruler
    and "juniper", a banner made of the ruler and "cisco" is answered from the
    cache (both share their first 500 characters) and comes out as Juniper; on
    a fresh detector it is Cisco. *)
Lemma classification_depends_on_history :
  ¬ unaffected_by_history no_extraction (ruler +:+ "juniper") (ruler +:+ "cisco").
Proof. unfold unaffected_by_history. vm_compute. discriminate. Qed.

(** *** The cache of [detect_vendor] *)

(** [detect_vendor] memoizes what it finds: a vendor that was found is stored
    under the key of the input and nothing else in the cache changes; a second
    call on the same input returns the same pair and leaves the cache alone;
    nothing is stored when no vendor was found; and once a vendor is stored,
    every input with the same first 500 characters gets that same answer. *)
Theorem detect_vendor_memoizes (ex : Extractors)
    (cache : gmap string (option string * option string)) (output : string) :
  (∀ k, k ≠ cache_key output →
        (detect_vendor ex cache output).2 !! k = cache !! k) ∧
  cache ⊆ (detect_vendor ex cache output).2 ∧
  detect_vendor ex (detect_vendor ex cache output).2 output =
    detect_vendor ex cache output ∧
  (cache !! cache_key output = None →
   (detect_vendor ex cache output).1.1 = None →
   (detect_vendor ex cache output).2 = cache) ∧
  (cache !! cache_key output = None →
   (detect_vendor ex cache output).1.1 ≠ None →
   (detect_vendor ex cache output).2 !! cache_key output =
     Some (detect_vendor ex cache output).1 ∧
   ∀ output', cache_key output' = cache_key output →
     (detect_vendor ex (detect_vendor ex cache output).2 output').1 =
     (detect_vendor ex cache output).1).
Proof.
  unfold detect_vendor.
  destruct (cache !! cache_key output) as [r|] eqn:Hc.
  { cbn [fst snd]. rewrite Hc. split_and!; done. }
  destruct (first_vendor VENDOR_PATTERNS (str_lower output)) as [v|].
  - cbn [fst snd]. rewrite lookup_insert_eq.
    split_and!; try done.
    + intros k Hk. by rewrite lookup_insert_ne.
    + by apply insert_subseteq.
    + intros _ _. split; [done|]. intros output' ->.
      by rewrite lookup_insert_eq.
  - destruct (keyword_vendor (str_lower output)) as [v|].
    + cbn [fst snd]. rewrite lookup_insert_eq.
      split_and!; try done.
      * intros k Hk. by rewrite lookup_insert_ne.
      * by apply insert_subseteq.
      * intros _ _. split; [done|]. intros output' ->.
        by rewrite lookup_insert_eq.
    + cbn [fst snd]. rewrite Hc. split_and!; done.
Qed.

Lemma detect_vendor_memoizes_witness :
  (detect_vendor no_extraction ∅ "JUNOS 12.3R12 built for EX4200").2
    !! cache_key "JUNOS 12.3R12 built for EX4200" =
    Some (detect_vendor no_extraction ∅ "JUNOS 12.3R12 built for EX4200").1 ∧
  ∀ output', cache_key output' = cache_key "JUNOS 12.3R12 built for EX4200" →
    (detect_vendor no_extraction
       (detect_vendor no_extraction ∅ "JUNOS 12.3R12 built for EX4200").2
       output').1 =
    (detect_vendor no_extraction ∅ "JUNOS 12.3R12 built for EX4200").1.
Proof.
  apply (detect_vendor_memoizes no_extraction ∅
           "JUNOS 12.3R12 built for EX4200").
  - reflexivity.
  - vm_compute. discriminate.
Defined.

(** *** The keyword fallback *)

Lemma first_vendor_None table output_lower :
  first_vendor table output_lower = None →
  ∀ v sigs pattern, (v, sigs) ∈ table → pattern ∈ sigs →
                    re_search pattern output_lower = false.
Proof.
  unfold first_vendor. intros Hf v sigs pattern Hin Hp.
  destruct (find _ _) eqn:E; [done|].
  apply list_elem_of_In in Hin. pose proof (find_none _ _ E _ Hin) as Hn.
  destruct (re_search pattern output_lower) eqn:Hs; [|done].
  assert (vendor_matches output_lower (v, sigs) = true)
    by (apply vendor_matches_spec; eauto).
  congruence.
Qed.

Lemma first_vendor_Some table output_lower v :
  first_vendor table output_lower = Some v →
  ∃ sigs pattern, (v, sigs) ∈ table ∧ pattern ∈ sigs ∧
                  re_search pattern output_lower = true.
Proof.
  unfold first_vendor. destruct (find _ _) as [[v' sigs]|] eqn:E; [|done].
  intros [= <-]. apply find_some in E as [Hin Hm].
  apply vendor_matches_spec in Hm as (pattern & Hp & Hs).
  exists sigs, pattern. split_and!; [by apply list_elem_of_In|done|done].
Qed.

Lemma keyword_fallback_dead output_lower :
  first_vendor VENDOR_PATTERNS output_lower = None →
  keyword_vendor output_lower = None.
Proof.
  intros Hnone. unfold keyword_vendor.
  assert (Hlit : ∀ word v sigs,
    (v, sigs) ∈ VENDOR_PATTERNS → lit word ∈ sigs →
    str_in word output_lower = false).
  { intros word v sigs Hv Hp. exact (first_vendor_None _ _ Hnone v sigs _ Hv Hp). }
  rewrite (Hlit "cisco" "Cisco" _ (list_elem_of_here _ _) (list_elem_of_here _ _)).
  assert (Hj : ∃ sigs, ("Juniper", sigs) ∈ VENDOR_PATTERNS ∧ lit "juniper" ∈ sigs).
  { eexists. split; [apply list_elem_of_further, list_elem_of_here|
                     apply list_elem_of_here]. }
  destruct Hj as (sj & Hj1 & Hj2). rewrite (Hlit "juniper" _ _ Hj1 Hj2).
  assert (Hm : ∃ sigs, ("MikroTik", sigs) ∈ VENDOR_PATTERNS ∧ lit "mikrotik" ∈ sigs).
  { eexists. split; [do 3 apply list_elem_of_further; apply list_elem_of_here|
                     apply list_elem_of_here]. }
  destruct Hm as (sm & Hm1 & Hm2). rewrite (Hlit "mikrotik" _ _ Hm1 Hm2).
  assert (Hl : ∃ sigs, ("Linux", sigs) ∈ VENDOR_PATTERNS ∧ lit "linux" ∈ sigs).
  { eexists. split; [do 8 apply list_elem_of_further; apply list_elem_of_here|
                     apply list_elem_of_here]. }
  destruct Hl as (sl & Hl1 & Hl2). by rewrite (Hlit "linux" _ _ Hl1 Hl2).
Qed.

(** On a cache miss the vendor returned is always a vendor of the table one of
    whose signatures is found in the lower-cased text, and no vendor is
    returned exactly when no signature of the table is found: the keyword
    fallback after the loops never decides anything, and nothing is cached
    then. *)
Theorem vendor_comes_from_table (ex : Extractors)
    (cache : gmap string (option string * option string)) (output : string) :
  cache !! cache_key output = None →
  (∀ v, (detect_vendor ex cache output).1.1 = Some v →
        ∃ sigs pattern, (v, sigs) ∈ VENDOR_PATTERNS ∧ pattern ∈ sigs ∧
                        re_search pattern (str_lower output) = true) ∧
  ((detect_vendor ex cache output).1.1 = None ↔
   ∀ v sigs pattern, (v, sigs) ∈ VENDOR_PATTERNS → pattern ∈ sigs →
                     re_search pattern (str_lower output) = false) ∧
  ((detect_vendor ex cache output).1.1 = None →
   detect_vendor ex cache output = ((None, None), cache)).
Proof.
  intros Hmiss. unfold detect_vendor. rewrite Hmiss.
  destruct (first_vendor VENDOR_PATTERNS (str_lower output)) as [v|] eqn:Hf.
  - cbn [fst snd]. split_and!; [|split; [done|]|done].
    + intros v' [= <-]. by apply first_vendor_Some.
    + intros Hall. exfalso.
      apply first_vendor_Some in Hf as (sigs & pattern & Hv & Hp & Hs).
      by rewrite (Hall v sigs pattern Hv Hp) in Hs.
  - rewrite (keyword_fallback_dead _ Hf). cbn [fst snd].
    split_and!; [done| |done]. split; [|done].
    intros _. by apply first_vendor_None.
Qed.

Lemma vendor_comes_from_table_witness :
  (∀ v, (detect_vendor no_extraction ∅ "JUNOS 12.3R12 built for EX4200").1.1 =
        Some v →
        ∃ sigs pattern, (v, sigs) ∈ VENDOR_PATTERNS ∧ pattern ∈ sigs ∧
          re_search pattern (str_lower "JUNOS 12.3R12 built for EX4200") = true) ∧
  ((detect_vendor no_extraction ∅ "JUNOS 12.3R12 built for EX4200").1.1 = None ↔
   ∀ v sigs pattern, (v, sigs) ∈ VENDOR_PATTERNS → pattern ∈ sigs →
     re_search pattern (str_lower "JUNOS 12.3R12 built for EX4200") = false) ∧
  ((detect_vendor no_extraction ∅ "JUNOS 12.3R12 built for EX4200").1.1 = None →
   detect_vendor no_extraction ∅ "JUNOS 12.3R12 built for EX4200" =
     ((None, None), ∅)).
Proof.
  apply (vendor_comes_from_table no_extraction ∅
           "JUNOS 12.3R12 built for EX4200").
  reflexivity.
Defined.

(** *** Device types *)

(** The vendors that have a table of device types. *)
Definition typed_vendors : list string := fst <$> VENDOR_TO_DEVICE_TYPE.

Lemma find_is_Some {A} (f : A → bool) (l : list A) x :
  x ∈ l → f x = true → is_Some (find f l).
Proof.
  intros Hin Hx. destruct (find f l) eqn:E; [done|].
  apply list_elem_of_In in Hin. by rewrite (find_none _ _ E _ Hin) in Hx.
Qed.

Lemma type_tables_nonempty vendor subtypes :
  (vendor, subtypes) ∈ VENDOR_TO_DEVICE_TYPE → subtypes ≠ [] ∧ vendor ≠ "".
Proof.
  intros Hin.
  assert (Hall : Forall (λ e : string * list (string * string),
                           e.2 ≠ [] ∧ e.1 ≠ "") VENDOR_TO_DEVICE_TYPE)
    by (apply (bool_decide_unpack _); by vm_compute).
  rewrite Forall_forall in Hall. exact (Hall _ Hin).
Qed.

Lemma device_type_typed (vendor output : string) :
  vendor ∈ typed_vendors →
  ∃ ty subtypes sub,
    determine_device_type vendor output = Some ty ∧
    (vendor, subtypes) ∈ VENDOR_TO_DEVICE_TYPE ∧ (sub, ty) ∈ subtypes.
Proof.
  intros Hv. unfold typed_vendors in Hv.
  apply list_elem_of_fmap in Hv as ([v subtypes] & -> & Hin). cbn [fst].
  destruct (type_tables_nonempty _ _ Hin) as [Hne Hv].
  unfold determine_device_type. rewrite (bool_decide_eq_false_2 _ Hv).
  case_bool_decide as Hc.
  + assert (Hmem : ∀ sub ty,
      bool_decide ((sub, ty) ∈
        [("ios", "cisco_ios"); ("ios-xe", "cisco_xe"); ("ios-xr", "cisco_xr");
         ("nx-os", "cisco_nxos"); ("asa", "cisco_asa"); ("s300", "cisco_s300");
         ("wlc", "cisco_wlc"); ("ios-telnet", "cisco_ios_telnet");
         ("xe-telnet", "cisco_xe_telnet")]) = true →
      ∃ ty' subtypes' sub',
        Some ty = Some ty' ∧ ("Cisco", subtypes') ∈ VENDOR_TO_DEVICE_TYPE ∧
        (sub', ty') ∈ subtypes').
    { intros sub ty Hm. apply bool_decide_eq_true in Hm.
      eexists ty, _, sub. split_and!; [done|apply list_elem_of_here|exact Hm]. }
    subst v.
    destruct (str_in "asa" _); [by apply (Hmem "asa")|].
    destruct (str_in "nexus" _ || str_in "nx-os" _); [by apply (Hmem "nx-os")|].
    destruct (str_in "ios-xe" _); [by apply (Hmem "ios-xe")|].
    destruct (str_in "ios-xr" _); [by apply (Hmem "ios-xr")|].
    by apply (Hmem "ios").
  + destruct (find_is_Some (λ e : string * list (string * string),
                bool_decide (e.1 = v)) VENDOR_TO_DEVICE_TYPE (v, subtypes) Hin)
      as [[v' subtypes'] Hf]; [by apply bool_decide_eq_true|].
    rewrite Hf. cbn [fmap option_fmap option_map snd].
    apply find_some in Hf as [Hin' Hv']. apply bool_decide_eq_true in Hv'.
    cbn [fst] in Hv'. subst v'. apply list_elem_of_In in Hin'.
    destruct (type_tables_nonempty _ _ Hin') as [Hne' _].
    destruct (find _ subtypes') as [[sub ty]|] eqn:Hs.
    * apply find_some in Hs as [Hs _]. apply list_elem_of_In in Hs.
      by exists ty, subtypes', sub.
    * destruct subtypes' as [|[sub ty] rest]; [done|].
      exists ty, ((sub, ty) :: rest), sub.
      split_and!; [done|done|apply list_elem_of_here].
Qed.

Lemma device_type_untyped (vendor output : string) :
  vendor ∉ typed_vendors → determine_device_type vendor output = None.
Proof.
  intros Hv. unfold determine_device_type.
  case_bool_decide; [done|].
  rewrite bool_decide_eq_false_2.
  2:{ intros ->. apply Hv. apply (bool_decide_unpack _). by vm_compute. }
  destruct (find _ VENDOR_TO_DEVICE_TYPE) as [[v' subtypes']|] eqn:Hf; [|done].
  exfalso. apply find_some in Hf as [Hin' Hv'].
  apply bool_decide_eq_true in Hv'. cbn [fst] in Hv'. subst v'.
  apply Hv. unfold typed_vendors. apply list_elem_of_fmap.
  exists (vendor, subtypes'). split; [done|by apply list_elem_of_In].
Qed.

(** [determine_device_type] answers for exactly the vendors that have a table
    of device types, and always with a type of that vendor's own table; for
    Cisco "asa" anywhere in the text decides for the ASA type before anything
    else is looked at, and a text without any of the five Cisco keywords gets
    the IOS type. *)
Theorem device_type_by_vendor (vendor output : string) :
  (vendor ∈ typed_vendors →
   ∃ ty subtypes sub,
     determine_device_type vendor output = Some ty ∧
     (vendor, subtypes) ∈ VENDOR_TO_DEVICE_TYPE ∧ (sub, ty) ∈ subtypes) ∧
  (vendor ∉ typed_vendors → determine_device_type vendor output = None) ∧
  (str_in "asa" (str_lower output) = true →
   determine_device_type "Cisco" output = Some "cisco_asa") ∧
  (str_in "asa" (str_lower output) = false →
   str_in "nexus" (str_lower output) = false →
   str_in "nx-os" (str_lower output) = false →
   str_in "ios-xe" (str_lower output) = false →
   str_in "ios-xr" (str_lower output) = false →
   determine_device_type "Cisco" output = Some "cisco_ios").
Proof.
  split_and!.
  - apply device_type_typed.
  - apply device_type_untyped.
  - intros Ha. unfold determine_device_type.
    rewrite bool_decide_eq_false_2 by done.
    rewrite bool_decide_eq_true_2 by done. by rewrite Ha.
  - intros H1 H2 H3 H4 H5. unfold determine_device_type.
    rewrite bool_decide_eq_false_2 by done.
    rewrite bool_decide_eq_true_2 by done. by rewrite H1, H2, H3, H4, H5.
Qed.

Lemma device_type_by_vendor_witness :
  (∃ ty subtypes sub,
     determine_device_type "Juniper" "JUNOS 12.3R12 built for EX4200" = Some ty ∧
     ("Juniper", subtypes) ∈ VENDOR_TO_DEVICE_TYPE ∧ (sub, ty) ∈ subtypes) ∧
  determine_device_type "Nokia" "TiMOS-C-16.0.R4 Nokia 7750 SR" = None ∧
  determine_device_type "Cisco" "Cisco Adaptive Security Appliance (ASA)" =
    Some "cisco_asa".
Proof.
  split; [|split].
  - apply (device_type_by_vendor "Juniper" "JUNOS 12.3R12 built for EX4200").
    apply (bool_decide_unpack _). by vm_compute.
  - apply (device_type_by_vendor "Nokia" "TiMOS-C-16.0.R4 Nokia 7750 SR").
    apply (bool_decide_unpack _). by vm_compute.
  - apply (device_type_by_vendor "Cisco"
             "Cisco Adaptive Security Appliance (ASA)").
    by vm_compute.
Defined.

(** [analyze_output] reports nothing and leaves the cache alone for a text
    with fewer than 10 characters once stripped; otherwise it never reports a
    device type without a vendor, reports one for every vendor that has a type
    table, and none for the three vendors of the signature table that have no
    type table (Extreme, Brocade, Nokia). *)
Theorem analysis_fields (ex : Extractors)
    (cache : gmap string (option string * option string)) (output : string) :
  ((String.length (strip output) < 10)%nat →
   analyze_output ex cache output =
     (mkDeviceInfo (str_take 1000 output) None None None None None, cache)) ∧
  (∀ ty, device_type (analyze_output ex cache output).1 = Some ty →
     ∃ v, vendor (analyze_output ex cache output).1 = Some v ∧
          v ∈ typed_vendors) ∧
  (∀ v, vendor (analyze_output ex cache output).1 = Some v →
        v ∈ typed_vendors →
        is_Some (device_type (analyze_output ex cache output).1)) ∧
  (∀ v, vendor (analyze_output ex cache output).1 = Some v →
        v ∈ ["Extreme"; "Brocade"; "Nokia"] →
        device_type (analyze_output ex cache output).1 = None).
Proof.
  unfold analyze_output.
  destruct (bool_decide (output = "") ||
            (String.length (strip output) <? 10)%nat) eqn:Hshort.
  { cbn [fst device_type vendor]. split_and!; done. }
  apply orb_false_elim in Hshort as [_ Hlen].
  apply Nat.ltb_ge in Hlen.
  destruct (detect_vendor ex cache output) as [[v m] cache'].
  cbn [fst device_type vendor].
  split_and!.
  - intros Hlt. lia.
  - intros ty Hty. destruct v as [v|]; [|done]. exists v. split; [done|].
    destruct (decide (v ∈ typed_vendors)) as [|Hn]; [done|].
    by rewrite (device_type_untyped v output Hn) in Hty.
  - intros v' [= ->] Hin.
    destruct (device_type_typed v' output Hin)
      as (ty & _ & _ & -> & _). done.
  - intros v' [= ->] Hin.
    apply (device_type_untyped v' output). intros Ht.
    assert (Hdisj : Forall (λ x, x ∉ typed_vendors) ["Extreme"; "Brocade"; "Nokia"])
      by (apply (bool_decide_unpack _); by vm_compute).
    rewrite Forall_forall in Hdisj. by apply (Hdisj v').
Qed.

Lemma analysis_fields_witness :
  analyze_output no_extraction ∅ "  ok  " =
    (mkDeviceInfo (str_take 1000 "  ok  ") None None None None None, ∅).
Proof.
  apply (analysis_fields no_extraction ∅ "  ok  "). vm_compute. lia.
Defined.

End Classifier.

(** ** The host prober and the scheduler ([engine.NetworkDiscoveryEngine]) *)

Module HostProber.
Import ProtocolSurface Classifier.

(** *** The data model ([models/device.py]) *)

Record DeviceCredentials := mkDeviceCredentials {
  username : string;
  password : string;
  enable_password : option string;
  ssh_port : Z;
  telnet_port : Z;
  ssh_timeout : Z;
  telnet_timeout : Z;
  description : string
}.

(** [DeviceCredentials(...)]: the constructor runs [__post_init__]. *)
Definition new_DeviceCredentials (u p : string) (e : option string)
    (sp tp st tt : Z) (d : string) : Res DeviceCredentials :=
  if bool_decide (u = "") then Raise "ValueError"
  else if bool_decide (sp ≤ 0 ∨ sp > 65535) then Raise "ValueError"
  else if bool_decide (tp ≤ 0 ∨ tp > 65535) then Raise "ValueError"
  else Ok (mkDeviceCredentials u p e sp tp st tt d).

Record DiscoveredDevice := mkDiscoveredDevice {
  ip_address : string;
  hostname : option string;
  dev_device_type : option string;
  dev_vendor : option string;
  dev_model : option string;
  dev_os_version : option string;
  dev_serial_number : option string;
  dev_username : option string;
  dev_password : option string;
  dev_enable_password : option string;
  dev_ssh_port : Z;
  dev_telnet_port : Z;
  snmp_community : option string;
  protocol : string;
  capabilities : list string;
  status : string;
  last_seen : string
}.

(** The two transports of the prober. *)
Inductive transport := Ssh | Telnet.

#[global] Instance transport_eq_dec : EqDecision transport.
Proof. solve_decision. Defined.

(** What the engine cannot decide by itself: the port scan, the sessions, the
    validity of an address text ([ipaddress.ip_address]), the clock and the
    capture-group extractions.  [connect] is [SSHClient.connect] or
    [TelnetClient.connect] (both return [(success, error)] and catch every
    exception); [execute] is [execute_command] or [send_command]. *)
Record World := mkWorld {
  scan_ports : string → list Z → list Z;
  connect : transport → string → DeviceCredentials → bool;
  execute : transport → string → DeviceCredentials → string →
            Res (bool * option string);
  ip_valid : string → bool;
  now : string;
  extractors : Extractors
}.

(** What a test would instrument: the network operations, in order. *)
Inductive event :=
| EvScan (ip : string)
| EvConnect (t : transport) (ip : string) (c : DeviceCredentials)
| EvExec (t : transport) (ip : string) (command : string)
| EvDisconnect (t : transport) (ip : string).

(** The engine: its result map, the detector's cache, and the operations
    performed so far. *)
Record Engine := mkEngine {
  discovered_devices : gmap string DiscoveredDevice;
  cache : gmap string (option string * option string);
  trace : list event
}.

(** [NetworkDiscoveryEngine.__init__] *)
Definition Engine_init : Engine := mkEngine ∅ ∅ [].

Definition log (e : event) (st : Engine) : Engine :=
  mkEngine (discovered_devices st) (cache st) (trace st ++ [e]).

Definition set_cache (c : gmap string (option string * option string))
    (st : Engine) : Engine :=
  mkEngine (discovered_devices st) c (trace st).

(** *** [DeviceDetector.discover_via_ssh] and [discover_via_telnet] *)

(** The dictionary the two functions return: the analysis and the host name. *)
Record HostInfo := mkHostInfo {
  info : DeviceInfo;
  host_name : string
}.

(** [success and output and len(output.strip()) > 10] *)
Definition usable (success : bool) (output : option string) : bool :=
  success &&
  match output with
  | Some o => negb (bool_decide (o = "")) && (10 <? String.length (strip o))%nat
  | None => false
  end.

(** [hostname_output.strip() if hostname_success and hostname_output else ip] *)
Definition hostname_of (ip : string) (success : bool) (output : option string)
    : string :=
  match output with
  | Some o => if success && negb (bool_decide (o = "")) then strip o else ip
  | None => ip
  end.

(** The loop [for command in self.DISCOVERY_COMMANDS]. *)
Fixpoint run_commands (w : World) (t : transport) (ip : string)
    (c : DeviceCredentials) (commands : list string) (st : Engine)
    : Res (option HostInfo) * Engine :=
  match commands with
  | [] => (Ok None, st)
  | command :: rest =>
      let st := log (EvExec t ip command) st in
      match execute w t ip c command with
      | Raise e => (Raise e, st)
      | Ok (success, output) =>
          if usable success output then
            let '(di, cache') :=
              analyze_output (extractors w) (cache st) (default "" output) in
            let st := set_cache cache' st in
            let st := log (EvExec t ip "hostname") st in
            match execute w t ip c "hostname" with
            | Raise e => (Raise e, st)
            | Ok (hs, ho) => (Ok (Some (mkHostInfo di (hostname_of ip hs ho))), st)
            end
          else run_commands w t ip c rest st
      end
  end.

(** The body shared by [discover_via_ssh] and [discover_via_telnet]: the
    client is a context manager, so [disconnect] runs on every exit, and any
    exception gives [None]. *)
Definition discover_via (w : World) (t : transport) (ip : string)
    (c : DeviceCredentials) (st : Engine) : option HostInfo * Engine :=
  let st := log (EvConnect t ip c) st in
  let '(r, st) :=
    if connect w t ip c
    then run_commands w t ip c DISCOVERY_COMMANDS st
    else (Ok None, st) in
  let st := log (EvDisconnect t ip) st in
  (match r with Ok o => o | Raise _ => None end, st).

Definition discover_via_ssh (w : World) := discover_via w Ssh.
Definition discover_via_telnet (w : World) := discover_via w Telnet.

(** *** [NetworkDiscoveryEngine] *)

(** [protocol_info.get(key, False)] as a truth value *)
Definition flag (pi : gmap string pvalue) (key : string) : bool :=
  truthy (get_or_False pi key).

(** [_get_capabilities] *)
Definition _get_capabilities (pi : gmap string pvalue) : list string :=
  filter (λ k, flag pi k = true)
    ["ssh"; "telnet"; "http"; "https"; "snmp"; "netconf"; "ftp"; "tftp"].

(** [DeviceFactory.from_ssh_discovery] / [from_telnet_discovery], with the
    keyword arguments the engine passes; [DiscoveredDevice.__post_init__]
    raises on an address that does not parse. *)
Definition from_discovery (w : World) (t : transport) (ip : string)
    (hi : HostInfo) (c : DeviceCredentials) (caps : list string)
    : Res DiscoveredDevice :=
  if ip_valid w ip then
    Ok (mkDiscoveredDevice ip (Some (host_name hi))
          (device_type (info hi)) (vendor (info hi)) (model (info hi))
          (os_version (info hi)) (serial_number (info hi))
          (Some (username c)) (Some (password c)) (enable_password c)
          (match t with Ssh => ssh_port c | Telnet => 22 end)
          (match t with Ssh => 23 | Telnet => telnet_port c end)
          None
          (match t with Ssh => "ssh" | Telnet => "telnet" end)
          caps "active" (now w))
  else Raise "ValueError".

(** The loop [for creds in credentials_list] over one transport: the first
    credential whose discovery answers ends it. *)
Fixpoint try_credentials (w : World) (t : transport) (ip : string)
    (pi : gmap string pvalue) (creds : list DeviceCredentials) (st : Engine)
    : Res (option DiscoveredDevice) * Engine :=
  match creds with
  | [] => (Ok None, st)
  | c :: rest =>
      match discover_via w t ip c st with
      | (Some hi, st') =>
          (match from_discovery w t ip hi c (_get_capabilities pi) with
           | Ok d => Ok (Some d)
           | Raise e => Raise e
           end, st')
      | (None, st') => try_credentials w t ip pi rest st'
      end
  end.

(** [discover_single_device], from the point where [protocol_info] is known:
    no management protocol ends it at once, ssh is tried first, telnet only
    when the ssh loop fell through. *)
Definition probe_transports (w : World) (ip : string)
    (protocol_info : gmap string pvalue)
    (credentials_list : list DeviceCredentials) (st : Engine)
    : Res (option DiscoveredDevice) * Engine :=
  if negb (flag protocol_info "has_management") then (Ok None, st)
  else
    let '(r, st) :=
      if flag protocol_info "ssh"
      then try_credentials w Ssh ip protocol_info credentials_list st
      else (Ok None, st) in
    match r with
    | Ok None =>
        if flag protocol_info "telnet"
        then try_credentials w Telnet ip protocol_info credentials_list st
        else (Ok None, st)
    | _ => (r, st)
    end.

(** [discover_single_device] *)
Definition discover_single_device (w : World) (ip : string)
    (credentials_list : list DeviceCredentials) (st : Engine)
    : Res (option DiscoveredDevice) * Engine :=
  probe_transports w ip (detect_all_protocols (scan_ports w) ip)
    credentials_list (log (EvScan ip) st).

(** The body of the result loop of [discover_devices] for one target: a device
    is stored under its address, a failure or an exception leaves the map as it
    is. *)
Definition discover_step (w : World) (credentials_list : list DeviceCredentials)
    (st : Engine) (ip : string) : Engine :=
  match discover_single_device w ip credentials_list st with
  | (Ok (Some device), st') =>
      mkEngine (<[ip := device]> (discovered_devices st')) (cache st') (trace st')
  | (_, st') => st'
  end.

(** [discover_devices]: [ThreadPoolExecutor] refuses a pool without workers;
    the targets are probed one after the other here, the interleaving of the
    worker threads is not modelled. *)
Definition discover_devices (w : World) (max_workers : Z) (ip_list : list string)
    (credentials_list : list DeviceCredentials) (st : Engine)
    : Res (gmap string DiscoveredDevice) * Engine :=
  if bool_decide (max_workers ≤ 0) then (Raise "ValueError", st)
  else
    let st' := foldl (discover_step w credentials_list) st ip_list in
    (Ok (discovered_devices st'), st').

(** *** What a run does, read off the oracle *)

(** The connection attempts of a trace, in order. *)
Definition connects (tr : list event) : list (transport * DeviceCredentials) :=
  omap (λ e, match e with EvConnect t _ c => Some (t, c) | _ => None end) tr.

(** Whether the command loop of a session ends with device information. *)
Fixpoint commands_ok (w : World) (t : transport) (ip : string)
    (c : DeviceCredentials) (commands : list string) : bool :=
  match commands with
  | [] => false
  | command :: rest =>
      match execute w t ip c command with
      | Raise _ => false
      | Ok (success, output) =>
          if usable success output
          then is_ok (execute w t ip c "hostname")
          else commands_ok w t ip c rest
      end
  end.

(** Whether a credential succeeds over a transport: the session opens and the
    command loop ends with device information. *)
Definition session_ok (w : World) (t : transport) (ip : string)
    (c : DeviceCredentials) : bool :=
  connect w t ip c && commands_ok w t ip c DISCOVERY_COMMANDS.

(** The elements of a list up to and including the first that satisfies [f]. *)
Fixpoint take_until {A} (f : A → bool) (l : list A) : list A :=
  match l with
  | [] => []
  | x :: rest => x :: (if f x then [] else take_until f rest)
  end.

Lemma connects_snoc tr e :
  connects (tr ++ [e]) =
  connects tr ++ match e with EvConnect t _ c => [(t, c)] | _ => [] end.
Proof. unfold connects. rewrite omap_app. by destruct e. Qed.

Lemma run_commands_spec w t ip c commands st :
  connects (trace (run_commands w t ip c commands st).2) = connects (trace st) ∧
  discovered_devices (run_commands w t ip c commands st).2 =
    discovered_devices st ∧
  match (run_commands w t ip c commands st).1 with
  | Ok (Some _) => true
  | _ => false
  end = commands_ok w t ip c commands.
Proof.
  revert st. induction commands as [|command rest IH]; intros st;
    [by split_and!|].
  cbn [run_commands commands_ok].
  destruct (execute w t ip c command) as [[success output]|e].
  - destruct (usable success output).
    + destruct (analyze_output _ _ _) as [di cache'].
      destruct (execute w t ip c "hostname") as [[hs ho]|e]; simpl;
        rewrite !connects_snoc, !app_nil_r; by split_and!.
    + destruct (IH (log (EvExec t ip command) st)) as (-> & -> & ->).
      simpl. by rewrite connects_snoc, app_nil_r.
  - simpl. rewrite connects_snoc, app_nil_r. by split_and!.
Qed.

Lemma discover_via_spec w t ip c st :
  connects (trace (discover_via w t ip c st).2) =
    connects (trace st) ++ [(t, c)] ∧
  discovered_devices (discover_via w t ip c st).2 = discovered_devices st ∧
  (is_Some (discover_via w t ip c st).1 ↔ session_ok w t ip c = true).
Proof.
  unfold discover_via, session_ok.
  destruct (connect w t ip c).
  - pose proof (run_commands_spec w t ip c DISCOVERY_COMMANDS
                  (log (EvConnect t ip c) st)) as (Htr & Hdd & Hok).
    destruct (run_commands _ _ _ _ _ _) as [r st'].
    cbn [fst snd trace log discovered_devices andb] in *.
    rewrite connects_snoc, app_nil_r, Htr, connects_snoc, Hdd, <- Hok.
    split_and!; [done|done|].
    destruct r as [[hi|]|e]; split; (done || by intros [? ?]).
  - cbn [fst snd trace log discovered_devices andb].
    rewrite !connects_snoc, app_nil_r. split_and!; [done|done|].
    split; [by intros [? ?]|done].
Qed.

Lemma take_until_prefix {A} (f : A → bool) l : take_until f l `prefix_of` l.
Proof.
  induction l as [|x l IH]; [done|]. simpl.
  destruct (f x); [|by apply prefix_cons].
  by exists l.
Qed.

Lemma take_until_all_false {A} (f : A → bool) l :
  (∀ x, x ∈ l → f x = false) → take_until f l = l.
Proof.
  induction l as [|x l IH]; intros Hall; [done|]. simpl.
  rewrite (Hall x) by apply list_elem_of_here.
  f_equal. apply IH. intros y Hy. apply Hall. by apply list_elem_of_further.
Qed.

Lemma take_until_failed {A} (f : A → bool) l (i : nat) x :
  take_until f l !! i = Some x → (S i < length (take_until f l))%nat →
  f x = false.
Proof.
  revert i. induction l as [|y l IH]; intros i; [done|]. simpl.
  destruct (f y) eqn:Hy.
  - simpl. lia.
  - destruct i as [|i]; simpl.
    + by intros [= <-].
    + intros Hi Hlen. apply (IH i); [done|lia].
Qed.

Lemma try_credentials_spec w t ip pi creds st :
  connects (trace (try_credentials w t ip pi creds st).2) =
    connects (trace st) ++ ((t,.) <$> take_until (session_ok w t ip) creds) ∧
  discovered_devices (try_credentials w t ip pi creds st).2 =
    discovered_devices st ∧
  ((try_credentials w t ip pi creds st).1 = Ok None ↔
   ∀ c, c ∈ creds → session_ok w t ip c = false).
Proof.
  revert st. induction creds as [|c creds IH]; intros st.
  { cbn [try_credentials take_until fst snd]. rewrite app_nil_r.
    split_and!; [done|done|]. split; [|done]. by intros _ c ?%elem_of_nil. }
  cbn [try_credentials take_until].
  pose proof (discover_via_spec w t ip c st) as (Htr & Hdd & Hok).
  destruct (discover_via w t ip c st) as [[hi|] st1]; cbn [fst snd] in *.
  - assert (Hc : session_ok w t ip c = true) by (by apply Hok).
    rewrite Hc, Htr. split_and!; [done|done|]. split.
    + by destruct (from_discovery _ _ _ _ _ _).
    + intros Hall. rewrite (Hall c) in Hc by apply list_elem_of_here. done.
  - assert (Hc : session_ok w t ip c = false).
    { destruct (session_ok w t ip c); [|done].
      by destruct (proj2 Hok eq_refl). }
    destruct (IH st1) as (-> & -> & Hnone). rewrite Hc, Htr, Hdd, Hnone.
    split_and!; [by rewrite <- app_assoc|done|]. split.
    + intros Hall c' [->|Hin]%elem_of_cons; [exact Hc|by apply Hall].
    + intros Hall c' Hin. apply Hall. by apply list_elem_of_further.
Qed.

(** The key of a transport in [protocol_info]. *)
Definition transport_key (t : transport) : string :=
  match t with Ssh => "ssh" | Telnet => "telnet" end.

Lemma flag_management scan ip :
  flag (detect_all_protocols scan ip) "has_management" =
  flag (detect_all_protocols scan ip) "ssh" ||
  flag (detect_all_protocols scan ip) "telnet".
Proof.
  unfold detect_all_protocols, flag, get_or_False.
  destruct (protocol_info_management (scan ip all_ports))
    as (s & t & -> & -> & ->). done.
Qed.

Lemma probe_transports_spec w ip (pi : gmap string pvalue) creds st :
  flag pi "has_management" = flag pi "ssh" || flag pi "telnet" →
  discovered_devices (probe_transports w ip pi creds st).2 =
    discovered_devices st ∧
  (∃ ssh_tried telnet_tried,
     connects (trace (probe_transports w ip pi creds st).2) =
       connects (trace st) ++ ((Ssh,.) <$> ssh_tried) ++
       ((Telnet,.) <$> telnet_tried) ∧
     ssh_tried =
       (if flag pi "ssh" then take_until (session_ok w Ssh ip) creds else []) ∧
     (telnet_tried = [] ∨
      (telnet_tried = take_until (session_ok w Telnet ip) creds ∧
       flag pi "telnet" = true ∧
       (flag pi "ssh" = true →
        ∀ c, c ∈ creds → session_ok w Ssh ip c = false)))) ∧
  ((probe_transports w ip pi creds st).1 = Ok None ↔
   ∀ t c, c ∈ creds → flag pi (transport_key t) = true →
          session_ok w t ip c = false).
Proof.
  unfold probe_transports.
  assert (Hkey : ∀ t, flag pi (transport_key t) =
                      match t with Ssh => flag pi "ssh" | Telnet => flag pi "telnet" end)
    by (by intros []).
  setoid_rewrite Hkey.
  generalize (flag pi "has_management") (flag pi "ssh") (flag pi "telnet").
  intros hm ssh tel ->. clear Hkey.
  destruct ssh.
  - cbn [orb negb].
    pose proof (try_credentials_spec w Ssh ip pi creds st) as (Htr & Hdd & Hnone).
    destruct (try_credentials w Ssh ip pi creds st) as [r st1].
    cbn [fst snd] in *.
    assert (Hstop : r ≠ Ok None →
      (match r with
       | Ok None =>
           if tel then try_credentials w Telnet ip pi creds st1
           else (Ok None, st1)
       | _ => (r, st1)
       end) = (r, st1)) by (by destruct r as [[d|]|e]).
    assert (r = Ok None ∨ r ≠ Ok None) as [->|Hr]
      by (destruct r as [[d|]|e]; (by left) || (by right)).
    + pose proof (proj1 Hnone eq_refl) as Hfail.
      destruct tel.
      * pose proof (try_credentials_spec w Telnet ip pi creds st1)
          as (Htr2 & Hdd2 & Hnone2).
        destruct (try_credentials w Telnet ip pi creds st1) as [r2 st2].
        cbn [fst snd] in *. rewrite Htr2, Htr, Hdd2, Hdd.
        split_and!; [done| |].
        -- eexists _, _. split_and!; [by rewrite <- app_assoc|done|].
           right. done.
        -- rewrite Hnone2. split.
           ++ intros Hall [] c Hin _; [by apply Hfail|by apply Hall].
           ++ intros Hall c Hin. by apply (Hall Telnet).
      * cbn [fst snd]. rewrite Htr, Hdd. split_and!; [done| |].
        -- exists (take_until (session_ok w Ssh ip) creds), [].
           rewrite app_nil_r. split_and!; [done|done|by left].
        -- split; [|done]. intros _ [] c Hin Hf; [by apply Hfail|done].
    + rewrite (Hstop Hr). cbn [fst snd]. rewrite Htr, Hdd.
      split_and!; [done| |].
      * exists (take_until (session_ok w Ssh ip) creds), [].
        rewrite app_nil_r. split_and!; [done|done|by left].
      * split; [done|]. intros Hall. exfalso. apply Hr, Hnone.
        intros c Hin. by apply (Hall Ssh).
  - destruct tel; cbn [orb negb].
    + pose proof (try_credentials_spec w Telnet ip pi creds st)
        as (Htr & Hdd & Hnone).
      destruct (try_credentials w Telnet ip pi creds st) as [r st1].
      cbn [fst snd] in *. rewrite Htr, Hdd.
      split_and!; [done| |].
      * exists [], (take_until (session_ok w Telnet ip) creds).
        split_and!; [done|done|]. right. done.
      * rewrite Hnone. split.
        -- intros Hall [] c Hin Hf; [done|by apply Hall].
        -- intros Hall c Hin. by apply (Hall Telnet).
    + cbn [fst snd]. split_and!; [done| |].
      * exists [], []. rewrite app_nil_r. split_and!; [done|done|by left].
      * split; [|done]. by intros _ [] c Hin Hf.
Qed.

Lemma discover_single_device_spec w ip creds st :
  discovered_devices (discover_single_device w ip creds st).2 =
    discovered_devices st ∧
  (∃ ssh_tried telnet_tried,
     connects (trace (discover_single_device w ip creds st).2) =
       connects (trace st) ++ ((Ssh,.) <$> ssh_tried) ++
       ((Telnet,.) <$> telnet_tried) ∧
     ssh_tried =
       (if flag (detect_all_protocols (scan_ports w) ip) "ssh"
        then take_until (session_ok w Ssh ip) creds else []) ∧
     (telnet_tried = [] ∨
      (telnet_tried = take_until (session_ok w Telnet ip) creds ∧
       flag (detect_all_protocols (scan_ports w) ip) "telnet" = true ∧
       (flag (detect_all_protocols (scan_ports w) ip) "ssh" = true →
        ∀ c, c ∈ creds → session_ok w Ssh ip c = false)))) ∧
  ((discover_single_device w ip creds st).1 = Ok None ↔
   ∀ t c, c ∈ creds →
     flag (detect_all_protocols (scan_ports w) ip) (transport_key t) = true →
     session_ok w t ip c = false).
Proof.
  unfold discover_single_device.
  pose proof (probe_transports_spec w ip _ creds (log (EvScan ip) st)
                (flag_management (scan_ports w) ip)) as H.
  assert (Hlog : connects (trace (log (EvScan ip) st)) = connects (trace st))
    by (cbn [log trace]; by rewrite connects_snoc, app_nil_r).
  rewrite Hlog in H. exact H.
Qed.

Lemma take_until_last {A} (f : A → bool) l :
  take_until f l = l ∨ ∃ x, last (take_until f l) = Some x ∧ f x = true.
Proof.
  induction l as [|x l IH]; [by left|]. simpl.
  destruct (f x) eqn:Hx.
  - right. by exists x.
  - destruct IH as [->|(y & Hy & Hf)]; [by left|].
    right. exists y. split; [|done].
    destruct (take_until f l); [done|]. done.
Qed.

Lemma from_discovery_fields w t ip hi c caps d :
  from_discovery w t ip hi c caps = Ok d →
  ip_address d = ip ∧ status d = "active" ∧ is_Some (hostname d) ∧
  protocol d = transport_key t ∧ dev_username d = Some (username c) ∧
  dev_password d = Some (password c) ∧ capabilities d = caps.
Proof.
  unfold from_discovery. destruct (ip_valid w ip); [|done].
  intros [= <-]. by destruct t.
Qed.

Lemma try_credentials_device w t ip pi creds st d :
  (try_credentials w t ip pi creds st).1 = Ok (Some d) →
  ∃ c hi, c ∈ creds ∧ session_ok w t ip c = true ∧
          from_discovery w t ip hi c (_get_capabilities pi) = Ok d.
Proof.
  revert st. induction creds as [|c creds IH]; intros st; [done|].
  cbn [try_credentials].
  pose proof (discover_via_spec w t ip c st) as (_ & _ & Hok).
  destruct (discover_via w t ip c st) as [[hi|] st1]; cbn [fst snd] in *.
  - destruct (from_discovery _ _ _ _ _ _) as [d'|e] eqn:Hd; [|done].
    intros [= ->]. exists c, hi. split_and!; [apply list_elem_of_here| |done].
    by apply Hok.
  - intros (c' & hi & Hin & H1 & H2)%IH. exists c', hi.
    split_and!; [by apply list_elem_of_further|done|done].
Qed.

Lemma probe_transports_device w ip (pi : gmap string pvalue) creds st d :
  (probe_transports w ip pi creds st).1 = Ok (Some d) →
  ∃ t c hi, c ∈ creds ∧ session_ok w t ip c = true ∧
            flag pi (transport_key t) = true ∧
            from_discovery w t ip hi c (_get_capabilities pi) = Ok d.
Proof.
  unfold probe_transports.
  destruct (flag pi "has_management"); [|done]. cbn [negb].
  assert (Hcase : ∀ t st0,
    flag pi (transport_key t) = true →
    (try_credentials w t ip pi creds st0).1 = Ok (Some d) →
    ∃ t c hi, c ∈ creds ∧ session_ok w t ip c = true ∧
              flag pi (transport_key t) = true ∧
              from_discovery w t ip hi c (_get_capabilities pi) = Ok d).
  { intros t st0 Hf (c & hi & ? & ? & ?)%try_credentials_device.
    by exists t, c, hi. }
  destruct (flag pi "ssh") eqn:Hssh.
  - pose proof (Hcase Ssh st Hssh) as Hs.
    destruct (try_credentials w Ssh ip pi creds st) as [[[d'|]|e] st1];
      cbn [fst snd] in *; [done| |done].
    destruct (flag pi "telnet") eqn:Htel; [by apply (Hcase Telnet)|done].
  - destruct (flag pi "telnet") eqn:Htel; [by apply (Hcase Telnet)|done].
Qed.

Lemma discover_single_device_eq w ip creds st :
  discover_single_device w ip creds st =
  probe_transports w ip (detect_all_protocols (scan_ports w) ip) creds
    (log (EvScan ip) st).
Proof.
  exact (eq_refl (probe_transports w ip
                    (detect_all_protocols (scan_ports w) ip) creds
                    (log (EvScan ip) st))).
Qed.


(** C1: when the surface shows ssh open, the connection attempts of
    [discover_single_device] are ssh attempts over a prefix of the credential
    list, in the caller's order, each made only after the one before failed,
    followed by telnet attempts of the same shape; no telnet attempt is made
    if any ssh credential succeeded, and a telnet attempt is made only after
    the whole list was tried over ssh without success. *)
Theorem ssh_before_telnet (w : World) (ip : string)
    (creds : list DeviceCredentials) (st : Engine) :
  flag (detect_all_protocols (scan_ports w) ip) "ssh" = true →
  ∃ ssh_tried telnet_tried,
    connects (trace (discover_single_device w ip creds st).2) =
      connects (trace st) ++ ((Ssh,.) <$> ssh_tried) ++
      ((Telnet,.) <$> telnet_tried) ∧
    ssh_tried `prefix_of` creds ∧ telnet_tried `prefix_of` creds ∧
    (∀ (i : nat) c, ssh_tried !! i = Some c → (S i < length ssh_tried)%nat →
                    session_ok w Ssh ip c = false) ∧
    (∀ (i : nat) c, telnet_tried !! i = Some c →
                    (S i < length telnet_tried)%nat →
                    session_ok w Telnet ip c = false) ∧
    (ssh_tried = creds ∨
     ∃ c, last ssh_tried = Some c ∧ session_ok w Ssh ip c = true) ∧
    ((∃ c, c ∈ creds ∧ session_ok w Ssh ip c = true) → telnet_tried = []) ∧
    (telnet_tried ≠ [] →
     ssh_tried = creds ∧ ∀ c, c ∈ creds → session_ok w Ssh ip c = false).
Proof.
  intros Hssh.
  destruct (discover_single_device_spec w ip creds st)
    as (_ & (ssh_tried & telnet_tried & Htr & Hs & Ht) & _).
  rewrite Hssh in Hs.
  exists ssh_tried, telnet_tried. subst ssh_tried.
  split_and!.
  - exact Htr.
  - apply take_until_prefix.
  - destruct Ht as [->|(-> & _)]; [apply prefix_nil|apply take_until_prefix].
  - apply take_until_failed.
  - destruct Ht as [->|(-> & _)]; [done|apply take_until_failed].
  - apply take_until_last.
  - intros (c & Hin & Hc). destruct Ht as [->|(_ & _ & Hfail)]; [done|].
    rewrite (Hfail Hssh c Hin) in Hc. done.
  - intros Hne. destruct Ht as [->|(_ & _ & Hfail)]; [done|].
    split; [|by apply Hfail]. apply take_until_all_false. by apply Hfail.
Qed.


(** *** Concrete runs *)

Definition credential (u p : string) : DeviceCredentials :=
  mkDeviceCredentials u p None 22 23 10 10 "".

Definition alice : DeviceCredentials := credential "alice" "a".
Definition bob : DeviceCredentials := credential "bob" "b".
Definition carol : DeviceCredentials := credential "carol" "c".

Definition cisco_banner : string :=
  "Cisco IOS Software, C2960 Software (C2960-LANBASEK9-M), Version 15.0(2)SE".

(** A host with ports 22 and 23 open that lets only carol in, over ssh, and
    answers every command with a Cisco IOS banner. *)
Definition lab_world : World :=
  mkWorld (λ _ _, [22; 23])
    (λ t _ c, bool_decide (t = Ssh) && bool_decide (username c = "carol"))
    (λ _ _ _ command,
       Ok (true, Some (if bool_decide (command = "hostname")
                       then "sw1" else cisco_banner)))
    (λ _, true) "2026-01-01T00:00:00" no_extraction.



(** [TelnetClient.connect], from the text read after the password was sent:
    the login counts as done when one of [#], [>], [$], [%] is in that text; an
    exception on the way gives [False]. *)
Definition telnet_connect (post_login : Res string) : bool :=
  match post_login with
  | Ok output =>
      existsb (λ marker, Regex.str_in marker output) ["#"; ">"; "$"; "%"]
  | Raise _ => false
  end.

(** What a Cisco-like telnet host sends after a login it rejects. *)
Definition rejection : string :=
  "% Login invalid" +:+ String "010" "Username: ".

(** A telnet-only host, by the credentials it lets in.  A credential it lets
    in gets the prompt [sw2>] and the Cisco banner.  After a login it rejects,
    the host is still at its login dialogue: it takes the next line sent
    ([show version]) for a user name and asks for the password, takes the line
    after that ([show ver]) for the password and rejects it, and takes
    [hostname] for a user name again. *)
Definition telnet_host (lets_in : DeviceCredentials → bool) : World :=
  mkWorld (λ _ _, [23])
    (λ t _ c,
       match t with
       | Ssh => false
       | Telnet =>
           telnet_connect (Ok (if lets_in c then "sw2>" else rejection))
       end)
    (λ _ _ c command,
       Ok (true,
           Some (if lets_in c
                 then if bool_decide (command = "hostname")
                      then "sw2" else cisco_banner
                 else if bool_decide (command ∈ ["show version"; "hostname"])
                      then "Password: " else rejection)))
    (λ _, true) "2026-01-01T00:00:00" no_extraction.


Lemma ssh_before_telnet_witness :
  ∃ ssh_tried telnet_tried,
    connects (trace (discover_single_device lab_world "10.0.0.5"
                       [alice; bob; carol] Engine_init).2) =
      connects (trace Engine_init) ++ ((Ssh,.) <$> ssh_tried) ++
      ((Telnet,.) <$> telnet_tried) ∧
    ssh_tried `prefix_of` [alice; bob; carol] ∧
    telnet_tried `prefix_of` [alice; bob; carol] ∧
    (∀ (i : nat) c, ssh_tried !! i = Some c → (S i < length ssh_tried)%nat →
                    session_ok lab_world Ssh "10.0.0.5" c = false) ∧
    (∀ (i : nat) c, telnet_tried !! i = Some c →
                    (S i < length telnet_tried)%nat →
                    session_ok lab_world Telnet "10.0.0.5" c = false) ∧
    (ssh_tried = [alice; bob; carol] ∨
     ∃ c, last ssh_tried = Some c ∧
          session_ok lab_world Ssh "10.0.0.5" c = true) ∧
    ((∃ c, c ∈ [alice; bob; carol] ∧
           session_ok lab_world Ssh "10.0.0.5" c = true) →
     telnet_tried = []) ∧
    (telnet_tried ≠ [] →
     ssh_tried = [alice; bob; carol] ∧
     ∀ c, c ∈ [alice; bob; carol] →
          session_ok lab_world Ssh "10.0.0.5" c = false).
Proof.
  apply (ssh_before_telnet lab_world "10.0.0.5" [alice; bob; carol] Engine_init).
  vm_compute. reflexivity.
Defined.

(** The run of the witness, evaluated: alice, bob and carol over ssh, in that
    order, no telnet attempt, and a Cisco IOS record found over ssh. *)
Example lab_run :
  connects (trace (discover_single_device lab_world "10.0.0.5"
                     [alice; bob; carol] Engine_init).2) =
    [(Ssh, alice); (Ssh, bob); (Ssh, carol)] ∧
  ∃ d, (discover_single_device lab_world "10.0.0.5"
          [alice; bob; carol] Engine_init).1 = Ok (Some d) ∧
       protocol d = "ssh" ∧ dev_vendor d = Some "Cisco" ∧
       dev_device_type d = Some "cisco_ios" ∧
       dev_username d = Some "carol" ∧ hostname d = Some "sw1" ∧
       capabilities d = ["ssh"; "telnet"].
Proof. split; [by vm_compute|]. eexists. split; [by vm_compute|done]. Qed.



(** The record of that run: found over telnet with alice's credential, with no
    vendor, model, version, serial number or type, and the password prompt as
    its host name. *)
Example rejected_login_record :
  ∃ d, (discover_single_device (telnet_host (λ _, false)) "10.0.0.7" [alice]
          Engine_init).1 = Ok (Some d) ∧
       protocol d = "telnet" ∧ dev_username d = Some "alice" ∧
       status d = "active" ∧ hostname d = Some "Password:" ∧
       dev_vendor d = None ∧ dev_model d = None ∧ dev_os_version d = None ∧
       dev_serial_number d = None ∧ dev_device_type d = None.
Proof. eexists. split; [by vm_compute|]. split_and!; reflexivity. Qed.

(** *** Configuration errors *)

Lemma probe_transports_nil w ip (pi : gmap string pvalue) st :
  probe_transports w ip pi [] st = (Ok None, st).
Proof.
  unfold probe_transports.
  by destruct (flag pi "has_management"), (flag pi "ssh"), (flag pi "telnet").
Qed.

Lemma discover_step_nil w st ip :
  discover_step w [] st ip = log (EvScan ip) st.
Proof.
  unfold discover_step.
  by rewrite discover_single_device_eq, probe_transports_nil.
Qed.

Lemma discover_loop_nil w ip_list st :
  foldl (discover_step w []) st ip_list =
  mkEngine (discovered_devices st) (cache st)
    (trace st ++ (EvScan <$> ip_list)).
Proof.
  revert st. induction ip_list as [|ip ip_list IH]; intros st.
  - simpl. rewrite app_nil_r. by destruct st.
  - cbn [foldl]. rewrite discover_step_nil, IH. cbn [log trace cache
      discovered_devices fmap list_fmap]. by rewrite <- app_assoc.
Qed.

(** The specification's sentence on fatal configurations at one call of the
    batch operation: an error comes back to the caller and nothing was done on
    the network. *)
Definition rejected_before_network (w : World) (max_workers : Z)
    (ip_list : list string) (creds : list DeviceCredentials) : Prop :=
  ∃ e, discover_devices w max_workers ip_list creds Engine_init =
       (Raise e, Engine_init).

(** C7 (as the code has it): a credential with an empty user name or a port
    outside 1..65535 is refused when it is constructed, and a pool without
    workers is refused by [discover_devices] before any network operation;
    an empty target list and an empty credential list are not refused by the
    batch operation: without targets it returns its result map at once, and
    without credentials it scans the ports of every target and returns the
    result map unchanged. *)
Theorem configuration_errors (w : World) (max_workers : Z)
    (ip_list : list string) (creds : list DeviceCredentials) (st : Engine) :
  (∀ u p e sp tp t1 t2 d,
     u = "" ∨ sp ≤ 0 ∨ sp > 65535 ∨ tp ≤ 0 ∨ tp > 65535 →
     new_DeviceCredentials u p e sp tp t1 t2 d = Raise "ValueError") ∧
  (max_workers ≤ 0 →
   discover_devices w max_workers ip_list creds st = (Raise "ValueError", st)) ∧
  (0 < max_workers →
   discover_devices w max_workers [] creds st =
     (Ok (discovered_devices st), st)) ∧
  (0 < max_workers →
   (discover_devices w max_workers ip_list [] st).1 =
     Ok (discovered_devices st) ∧
   trace (discover_devices w max_workers ip_list [] st).2 =
     trace st ++ (EvScan <$> ip_list)).
Proof.
  split_and!.
  - intros u p e sp tp t1 t2 d H. unfold new_DeviceCredentials.
    repeat case_bool_decide; try done. destruct H as [?|H]; [done|lia].
  - intros H. unfold discover_devices. by rewrite bool_decide_eq_true_2.
  - intros H. unfold discover_devices. by rewrite bool_decide_eq_false_2 by lia.
  - intros H. unfold discover_devices.
    rewrite bool_decide_eq_false_2 by lia. by rewrite discover_loop_nil.
Qed.

Lemma configuration_errors_witness :
  (∀ u p e sp tp t1 t2 d,
     u = "" ∨ sp ≤ 0 ∨ sp > 65535 ∨ tp ≤ 0 ∨ tp > 65535 →
     new_DeviceCredentials u p e sp tp t1 t2 d = Raise "ValueError") ∧
  (discover_devices lab_world 0 ["10.0.0.5"] [] Engine_init =
     (Raise "ValueError", Engine_init)) ∧
  (discover_devices lab_world 10 [] [] Engine_init =
     (Ok (discovered_devices Engine_init), Engine_init)) ∧
  ((discover_devices lab_world 10 ["10.0.0.5"] [] Engine_init).1 =
     Ok (discovered_devices Engine_init) ∧
   trace (discover_devices lab_world 10 ["10.0.0.5"] [] Engine_init).2 =
     trace Engine_init ++ (EvScan <$> ["10.0.0.5"])).
Proof.
  split; [apply (configuration_errors lab_world 10 [] [] Engine_init)|].
  split; [apply (configuration_errors lab_world 0 ["10.0.0.5"] [] Engine_init); lia|].
  split; [apply (configuration_errors lab_world 10 [] [] Engine_init); lia|].
  apply (configuration_errors lab_world 10 ["10.0.0.5"] [] Engine_init); lia.
Defined.

(** C7, as the specification words it, fails: with an empty credential list
    the batch operation returns normally after scanning the target, and with
    an empty target list it returns normally as well. *)
Lemma empty_lists_are_not_rejected :
  ¬ rejected_before_network lab_world 10 ["10.0.0.5"] [] ∧
  ¬ rejected_before_network lab_world 10 [] [alice].
Proof.
  split; intros [e He]; vm_compute in He; discriminate He.
Qed.

(** *** The batch ([discover_devices]) *)

Lemma discover_step_spec w creds st ip :
  discovered_devices (discover_step w creds st ip) = discovered_devices st ∨
  ∃ d, discovered_devices (discover_step w creds st ip) =
         <[ip := d]> (discovered_devices st) ∧
       (discover_single_device w ip creds st).1 = Ok (Some d).
Proof.
  unfold discover_step.
  destruct (discover_single_device_spec w ip creds st) as (Hdd & _ & _).
  destruct (discover_single_device w ip creds st) as [[[d|]|e] st'];
    cbn [fst snd discovered_devices] in *; [|by left..].
  right. exists d. by rewrite Hdd.
Qed.

(** What makes a record a record of host [ip]: some run of the prober on it
    returned it. *)
Definition found_for (w : World) (creds : list DeviceCredentials)
    (ip : string) (d : DiscoveredDevice) : Prop :=
  ∃ st, (discover_single_device w ip creds st).1 = Ok (Some d).

Lemma discover_loop_spec w creds ip_list st :
  (∀ k, k ∉ ip_list →
        discovered_devices (foldl (discover_step w creds) st ip_list) !! k =
        discovered_devices st !! k) ∧
  (∀ k d,
     discovered_devices (foldl (discover_step w creds) st ip_list) !! k = Some d →
     discovered_devices st !! k = Some d ∨ (k ∈ ip_list ∧ found_for w creds k d)) ∧
  (∀ k, is_Some (discovered_devices st !! k) →
        is_Some (discovered_devices
                   (foldl (discover_step w creds) st ip_list) !! k)).
Proof.
  revert st. induction ip_list as [|ip ip_list IH]; intros st.
  { cbn [foldl]. split_and!; [done|by left|done]. }
  cbn [foldl]. destruct (IH (discover_step w creds st ip)) as (IH1 & IH2 & IH3).
  pose proof (discover_step_spec w creds st ip) as Hstep.
  split_and!.
  - intros k [Hne Hk]%not_elem_of_cons. rewrite IH1 by done.
    destruct Hstep as [->|(d & -> & _)]; [done|]. by rewrite lookup_insert_ne.
  - intros k d Hk. destruct (IH2 k d Hk) as [Hold|[Hin Hf]].
    + destruct Hstep as [Heq|(d' & Heq & Hd')]; rewrite Heq in Hold.
      * by left.
      * destruct (decide (ip = k)) as [->|Hne].
        -- rewrite lookup_insert_eq in Hold. injection Hold as ->.
           right. split; [apply list_elem_of_here|]. by exists st.
        -- rewrite lookup_insert_ne in Hold by done. by left.
    + right. split; [by apply list_elem_of_further|done].
  - intros k Hk. apply IH3.
    destruct Hstep as [->|(d & -> & _)]; [done|].
    destruct (decide (ip = k)) as [->|Hne].
    + rewrite lookup_insert_eq. by eexists.
    + by rewrite lookup_insert_ne.
Qed.

(** With at least one worker the batch always returns its result map: a host
    that fails, or whose probe raises, costs nothing but its own entry.  Hosts
    outside the target list keep what they had, no earlier entry disappears,
    and every entry that is new or replaced belongs to a target and is a
    complete record for it: stored under its own address, active, found over
    an open transport with a credential of the list that succeeded; a target
    whose address text does not parse never gets one. *)
Theorem batch_contains_failures (w : World) (max_workers : Z)
    (ip_list : list string) (creds : list DeviceCredentials) (st : Engine) :
  0 < max_workers →
  ∃ m,
    (discover_devices w max_workers ip_list creds st).1 = Ok m ∧
    discovered_devices (discover_devices w max_workers ip_list creds st).2 = m ∧
    (∀ k, k ∉ ip_list → m !! k = discovered_devices st !! k) ∧
    (∀ k, is_Some (discovered_devices st !! k) → is_Some (m !! k)) ∧
    (∀ k d, m !! k = Some d →
       discovered_devices st !! k = Some d ∨
       (k ∈ ip_list ∧ ip_valid w k = true ∧
        ip_address d = k ∧ status d = "active" ∧
        ∃ t c, c ∈ creds ∧ session_ok w t k c = true ∧
               flag (detect_all_protocols (scan_ports w) k) (transport_key t) = true ∧
               protocol d = transport_key t ∧
               dev_username d = Some (username c))).
Proof.
  intros Hpos. unfold discover_devices.
  rewrite bool_decide_eq_false_2 by lia. cbn [fst snd].
  destruct (discover_loop_spec w creds ip_list st) as (H1 & H2 & H3).
  eexists. split_and!; [done|done|exact H1|exact H3|].
  intros k d Hk. destruct (H2 k d Hk) as [Hold|[Hin [st0 Hf]]]; [by left|].
  right. split; [done|].
  rewrite discover_single_device_eq in Hf.
  apply probe_transports_device in Hf as (t & c & hi & Hc & Hok & Hflag & Hfrom).
  assert (Hvalid : ip_valid w k = true).
  { unfold from_discovery in Hfrom. by destruct (ip_valid w k). }
  apply from_discovery_fields in Hfrom as (Hip & Hst & _ & Hp & Hu & _ & _).
  split; [exact Hvalid|]. split; [exact Hip|]. split; [exact Hst|].
  exists t, c. split; [exact Hc|]. split; [exact Hok|].
  split; [exact Hflag|]. split; [exact Hp|exact Hu].
Qed.

Lemma batch_contains_failures_witness :
  ∃ m,
    (discover_devices lab_world 10 ["10.0.0.5"; "10.0.0.6"] [alice; carol]
       Engine_init).1 = Ok m ∧
    discovered_devices
      (discover_devices lab_world 10 ["10.0.0.5"; "10.0.0.6"] [alice; carol]
         Engine_init).2 = m ∧
    (∀ k, k ∉ ["10.0.0.5"; "10.0.0.6"] →
          m !! k = discovered_devices Engine_init !! k) ∧
    (∀ k, is_Some (discovered_devices Engine_init !! k) → is_Some (m !! k)) ∧
    (∀ k d, m !! k = Some d →
       discovered_devices Engine_init !! k = Some d ∨
       (k ∈ ["10.0.0.5"; "10.0.0.6"] ∧ ip_valid lab_world k = true ∧
        ip_address d = k ∧ status d = "active" ∧
        ∃ t c, c ∈ [alice; carol] ∧ session_ok lab_world t k c = true ∧
               flag (detect_all_protocols (scan_ports lab_world) k)
                 (transport_key t) = true ∧
               protocol d = transport_key t ∧
               dev_username d = Some (username c))).
Proof.
  apply (batch_contains_failures lab_world 10 ["10.0.0.5"; "10.0.0.6"]
           [alice; carol] Engine_init).
  lia.
Defined.

(** *** Capabilities *)

Lemma get_capabilities_spec (pi : gmap string pvalue) :
  _get_capabilities pi `sublist_of`
    ["ssh"; "telnet"; "http"; "https"; "snmp"; "netconf"; "ftp"; "tftp"] ∧
  (∀ cap, cap ∈ _get_capabilities pi ↔
     cap ∈ ["ssh"; "telnet"; "http"; "https"; "snmp"; "netconf"; "ftp"; "tftp"] ∧
     flag pi cap = true).
Proof.
  unfold _get_capabilities. split; [apply sublist_filter|].
  intros cap. rewrite list_elem_of_filter. tauto.
Qed.

(** The capability list of a returned record is exactly the open protocols
    among the eight the engine reports, in that fixed order, and it always
    contains the transport the record was found over. *)
Theorem capabilities_of_record (w : World) (ip : string)
    (creds : list DeviceCredentials) (st : Engine) (d : DiscoveredDevice) :
  (discover_single_device w ip creds st).1 = Ok (Some d) →
  capabilities d = _get_capabilities (detect_all_protocols (scan_ports w) ip) ∧
  capabilities d `sublist_of`
    ["ssh"; "telnet"; "http"; "https"; "snmp"; "netconf"; "ftp"; "tftp"] ∧
  (∀ cap, cap ∈ capabilities d ↔
     cap ∈ ["ssh"; "telnet"; "http"; "https"; "snmp"; "netconf"; "ftp"; "tftp"] ∧
     flag (detect_all_protocols (scan_ports w) ip) cap = true) ∧
  protocol d ∈ capabilities d.
Proof.
  intros Hd. rewrite discover_single_device_eq in Hd.
  apply probe_transports_device in Hd as (t & c & hi & _ & _ & Hflag & Hfrom).
  apply from_discovery_fields in Hfrom as (_ & _ & _ & Hp & _ & _ & Hcaps).
  rewrite Hcaps, Hp. clear Hcaps Hp. revert Hflag.
  generalize (detect_all_protocols (scan_ports w) ip). intros pi Hflag.
  pose proof (get_capabilities_spec pi) as (Hsub & Hmem).
  split_and!; [reflexivity|exact Hsub|exact Hmem|].
  apply Hmem. split; [|exact Hflag].
  destruct t; cbn [transport_key];
    [apply list_elem_of_here|apply list_elem_of_further, list_elem_of_here].
Qed.

Lemma capabilities_of_record_witness :
  ∃ d, (discover_single_device lab_world "10.0.0.5" [alice; bob; carol]
          Engine_init).1 = Ok (Some d) ∧
       protocol d ∈ capabilities d.
Proof.
  eexists. split; [by vm_compute|].
  eapply (capabilities_of_record lab_world "10.0.0.5" [alice; bob; carol]
            Engine_init).
  by vm_compute.
Defined.

(** *** The Netmiko entry ([DiscoveredDevice.to_netmiko_config]) *)

(** The values of the configuration dictionary. *)
Inductive cvalue :=
| CStr (s : string)
| CInt (n : Z)
| CNone.

Definition telnet_mapping : list (string * string) :=
  [("cisco_ios", "cisco_ios_telnet");
   ("cisco_xe", "cisco_xe_telnet");
   ("cisco_xr", "cisco_xr_telnet");
   ("cisco_nxos", "cisco_nxos_telnet");
   ("cisco_asa", "cisco_asa_telnet");
   ("juniper", "juniper_telnet");
   ("arista_eos", "arista_eos_telnet");
   ("hp_procurve", "hp_procurve_telnet");
   ("hp_comware", "hp_comware_telnet");
   ("mikrotik_routeros", "mikrotik_routeros_telnet");
   ("linux", "linux_telnet")].

(** [mapping.get(key, default)] *)
Definition mapping_get (mapping : list (string * string))
    (key default_value : string) : string :=
  match find (λ e : string * string, bool_decide (e.1 = key)) mapping with
  | Some e => e.2
  | None => default_value
  end.

(** [s.endswith(suffix)]: some tail of [s] is [suffix]. *)
Fixpoint endswith (s suffix : string) : bool :=
  if bool_decide (s = suffix) then true
  else match s with
       | EmptyString => false
       | String _ s' => endswith s' suffix
       end.

(** Truth value of an optional text, and the value it is stored as. *)
Definition text_truthy (o : option string) : bool :=
  match o with
  | Some s => negb (bool_decide (s = ""))
  | None => false
  end.

Definition text_value (o : option string) : cvalue :=
  match o with
  | Some s => CStr s
  | None => CNone
  end.

(** [if field: config[key] = field] *)
Definition set_if_truthy (key : string) (o : option string)
    (config : gmap string cvalue) : gmap string cvalue :=
  if text_truthy o then <[key := text_value o]> config else config.

(** [to_netmiko_config] *)
Definition to_netmiko_config (d : DiscoveredDevice) : gmap string cvalue :=
  let device_type :=
    if bool_decide (protocol d = "telnet") && text_truthy (dev_device_type d)
    then
      let dt := default "" (dev_device_type d) in
      if negb (endswith dt "_telnet")
      then mapping_get telnet_mapping dt (dt +:+ "_telnet")
      else dt
    else
      if text_truthy (dev_device_type d)
      then default "" (dev_device_type d)
      else "autodetect" in
  let config : gmap string cvalue :=
    <["global_delay_factor" := CInt 2]>
      (<["timeout" := CInt 10]>
         (<["port" := CInt (if bool_decide (protocol d = "ssh")
                            then dev_ssh_port d else dev_telnet_port d)]>
            (<["password" := text_value (dev_password d)]>
               (<["username" := text_value (dev_username d)]>
                  (<["host" := CStr (ip_address d)]>
                     (<["device_type" := CStr device_type]> ∅)))))) in
  let config := set_if_truthy "secret" (dev_enable_password d) config in
  let config := set_if_truthy "vendor" (dev_vendor d) config in
  let config := set_if_truthy "model" (dev_model d) config in
  let config := set_if_truthy "os_version" (dev_os_version d) config in
  let config := set_if_truthy "name" (hostname d) config in
  config.

Lemma endswith_spec s suffix :
  endswith s suffix = true ↔ ∃ pre, s = pre +:+ suffix.
Proof.
  induction s as [|a s IH]; cbn [endswith]; case_bool_decide as Heq.
  - split; [by exists ""|done].
  - split; [done|]. intros ([|b pre] & Hpre); [by simplify_eq/=|done].
  - split; [by exists ""|done].
  - rewrite IH. split.
    + intros (pre & ->). by exists (String a pre).
    + intros ([|b pre] & Hpre); [by simplify_eq/=|].
      injection Hpre as -> ->. by exists pre.
Qed.

(** Every entry of [telnet_mapping] maps a type to itself followed by
    [_telnet], which is also the default of the lookup. *)
Lemma telnet_mapping_redundant dt :
  mapping_get telnet_mapping dt (dt +:+ "_telnet") = dt +:+ "_telnet".
Proof.
  unfold mapping_get, telnet_mapping. cbn [find fst snd].
  repeat (case_bool_decide as H; [by rewrite <- H|clear H]). done.
Qed.

Lemma set_if_truthy_ne key key' o (config : gmap string cvalue) :
  key ≠ key' → set_if_truthy key o config !! key' = config !! key'.
Proof.
  intros Hne. unfold set_if_truthy. destruct (text_truthy o); [|done].
  by rewrite lookup_insert_ne.
Qed.

Lemma set_if_truthy_eq key o (config : gmap string cvalue) :
  set_if_truthy key o config !! key =
    if text_truthy o then Some (text_value o) else config !! key.
Proof.
  unfold set_if_truthy. destruct (text_truthy o); [|done].
  by rewrite lookup_insert_eq.
Qed.

(** The connection part of the entry, field by field. *)
Lemma netmiko_connection (d : DiscoveredDevice) :
  to_netmiko_config d !! "host" = Some (CStr (ip_address d)) ∧
  to_netmiko_config d !! "username" = Some (text_value (dev_username d)) ∧
  to_netmiko_config d !! "password" = Some (text_value (dev_password d)) ∧
  to_netmiko_config d !! "port" =
    Some (CInt (if bool_decide (protocol d = "ssh")
                then dev_ssh_port d else dev_telnet_port d)) ∧
  to_netmiko_config d !! "secret" =
    (if text_truthy (dev_enable_password d)
     then Some (text_value (dev_enable_password d)) else None).
Proof.
  unfold to_netmiko_config.
  split_and!; rewrite ?set_if_truthy_ne by done.
  - by rewrite !lookup_insert_ne, lookup_insert_eq by done.
  - by rewrite !lookup_insert_ne, lookup_insert_eq by done.
  - by rewrite !lookup_insert_ne, lookup_insert_eq by done.
  - by rewrite !lookup_insert_ne, lookup_insert_eq by done.
  - rewrite set_if_truthy_eq. destruct (text_truthy _); [done|].
    by rewrite !lookup_insert_ne, lookup_empty by done.
Qed.

Lemma netmiko_device_type_lookup (d : DiscoveredDevice) :
  to_netmiko_config d !! "device_type" =
    Some (CStr
      (if bool_decide (protocol d = "telnet") && text_truthy (dev_device_type d)
       then
         let dt := default "" (dev_device_type d) in
         if negb (endswith dt "_telnet")
         then mapping_get telnet_mapping dt (dt +:+ "_telnet")
         else dt
       else
         if text_truthy (dev_device_type d)
         then default "" (dev_device_type d)
         else "autodetect")).
Proof.
  unfold to_netmiko_config. rewrite !set_if_truthy_ne by done.
  by rewrite !lookup_insert_ne, lookup_insert_eq by done.
Qed.

(** The device type of the entry.  For a record found over telnet with a type
    that is not empty it is the type itself when that already ends in
    [_telnet], and the type followed by [_telnet] otherwise, whether the table
    lists the type or not; so it always ends in [_telnet].  Over any other
    protocol it is the type unchanged, and a record without a type is entered
    as [autodetect], over telnet too. *)
Theorem netmiko_device_type (d : DiscoveredDevice) :
  (∀ dt, dev_device_type d = Some dt → dt ≠ "" → protocol d = "telnet" →
     to_netmiko_config d !! "device_type" =
       Some (CStr (if endswith dt "_telnet" then dt else dt +:+ "_telnet")) ∧
     ∃ pre, to_netmiko_config d !! "device_type" =
              Some (CStr (pre +:+ "_telnet"))) ∧
  (∀ dt, dev_device_type d = Some dt → dt ≠ "" → protocol d ≠ "telnet" →
     to_netmiko_config d !! "device_type" = Some (CStr dt)) ∧
  (dev_device_type d = None ∨ dev_device_type d = Some "" →
     to_netmiko_config d !! "device_type" = Some (CStr "autodetect")).
Proof.
  rewrite netmiko_device_type_lookup. split_and!.
  - intros dt -> Hdt ->. cbn [text_truthy default from_option]; unfold id.
    rewrite bool_decide_eq_true_2 by done.
    rewrite (bool_decide_eq_false_2 (dt = "")) by done. cbn [negb andb].
    rewrite telnet_mapping_redundant.
    destruct (endswith dt "_telnet") eqn:He; cbn [negb].
    + split; [done|]. apply endswith_spec in He as (pre & ->). by exists pre.
    + split; [done|]. by exists dt.
  - intros dt -> Hdt Hp. cbn [text_truthy default from_option]; unfold id.
    rewrite (bool_decide_eq_false_2 (protocol d = "telnet")) by done.
    by rewrite (bool_decide_eq_false_2 (dt = "")) by done.
  - intros [->| ->]; cbn [text_truthy]; by rewrite ?andb_false_r.
Qed.

Lemma from_discovery_ports w t ip hi c caps d :
  from_discovery w t ip hi c caps = Ok d →
  (if bool_decide (protocol d = "ssh") then dev_ssh_port d else dev_telnet_port d) =
    match t with Ssh => ssh_port c | Telnet => telnet_port c end ∧
  dev_enable_password d = enable_password c.
Proof.
  unfold from_discovery. destruct (ip_valid w ip); [|done].
  intros [= <-]. by destruct t.
Qed.

(** The Netmiko entry of a record the prober returns points back at the
    session that produced it: the probed address, the user name and password
    of a credential of the list that opened a session, the port that
    credential names for the transport used (its ssh port for a record found
    over ssh, its telnet port for one found over telnet), and its enable
    password as [secret] when it has one. *)
Theorem netmiko_entry_of_record (w : World) (ip : string)
    (creds : list DeviceCredentials) (st : Engine) (d : DiscoveredDevice) :
  (discover_single_device w ip creds st).1 = Ok (Some d) →
  ∃ t c, c ∈ creds ∧ session_ok w t ip c = true ∧
    protocol d = transport_key t ∧
    to_netmiko_config d !! "host" = Some (CStr ip) ∧
    to_netmiko_config d !! "username" = Some (CStr (username c)) ∧
    to_netmiko_config d !! "password" = Some (CStr (password c)) ∧
    to_netmiko_config d !! "port" =
      Some (CInt (match t with Ssh => ssh_port c | Telnet => telnet_port c end)) ∧
    to_netmiko_config d !! "secret" =
      (if text_truthy (enable_password c)
       then Some (text_value (enable_password c)) else None).
Proof.
  intros Hd. rewrite discover_single_device_eq in Hd.
  apply probe_transports_device in Hd as (t & c & hi & Hc & Hs & _ & Hfrom).
  destruct (from_discovery_ports _ _ _ _ _ _ _ Hfrom) as [Hport Hen].
  apply from_discovery_fields in Hfrom as (Hip & _ & _ & Hp & Hu & Hpw & _).
  destruct (netmiko_connection d) as (H1 & H2 & H3 & H4 & H5).
  exists t, c. rewrite H1, H2, H3, H4, H5, Hip, Hu, Hpw, Hport, Hen.
  by split_and!.
Qed.

(** A host with only port 23 open that lets alice in over telnet. *)
Definition telnet_world : World :=
  mkWorld (λ _ _, [23])
    (λ t _ c, bool_decide (t = Telnet) && bool_decide (username c = "alice"))
    (λ _ _ _ command,
       Ok (true, Some (if bool_decide (command = "hostname")
                       then "sw2" else cisco_banner)))
    (λ _, true) "2026-01-01T00:00:00" no_extraction.

Lemma netmiko_entry_of_record_witness :
  ∃ d, (discover_single_device telnet_world "10.0.0.9" [bob; alice]
          Engine_init).1 = Ok (Some d) ∧
    ∃ t c, c ∈ [bob; alice] ∧ session_ok telnet_world t "10.0.0.9" c = true ∧
      protocol d = transport_key t ∧
      to_netmiko_config d !! "host" = Some (CStr "10.0.0.9") ∧
      to_netmiko_config d !! "username" = Some (CStr (username c)) ∧
      to_netmiko_config d !! "password" = Some (CStr (password c)) ∧
      to_netmiko_config d !! "port" =
        Some (CInt (match t with Ssh => ssh_port c | Telnet => telnet_port c end)) ∧
      to_netmiko_config d !! "secret" =
        (if text_truthy (enable_password c)
         then Some (text_value (enable_password c)) else None).
Proof.
  eexists. split; [by vm_compute|].
  apply (netmiko_entry_of_record telnet_world "10.0.0.9" [bob; alice]
           Engine_init).
  by vm_compute.
Defined.

(** The record of that run, entered for Netmiko: a Cisco IOS device reached
    over telnet on port 23. *)
Example telnet_entry :
  ∃ d, (discover_single_device telnet_world "10.0.0.9" [bob; alice]
          Engine_init).1 = Ok (Some d) ∧
       to_netmiko_config d !! "device_type" = Some (CStr "cisco_ios_telnet") ∧
       to_netmiko_config d !! "port" = Some (CInt 23) ∧
       to_netmiko_config d !! "username" = Some (CStr "alice") ∧
       to_netmiko_config d !! "name" = Some (CStr "sw2") ∧
       to_netmiko_config d !! "secret" = None.
Proof. eexists. split; [by vm_compute|]. split_and!; by vm_compute. Qed.

(** *** Statistics ([get_statistics]) *)

Record Statistics := mkStatistics {
  total_devices : Z;
  stat_vendors : gmap string Z;
  stat_device_types : gmap string Z;
  stat_protocols : gmap string Z;
  stat_status : gmap string Z
}.

(** [counts[key] = counts.get(key, 0) + 1] *)
Definition count_up (key : string) (counts : gmap string Z) : gmap string Z :=
  <[key := default 0 (counts !! key) + 1]> counts.

(** [field or fallback] on an optional text. *)
Definition text_or (o : option string) (fallback : string) : string :=
  if text_truthy o then default "" o else fallback.

(** The body of the loop [for device in self.discovered_devices.values()]. *)
Definition stats_step (stats : Statistics) (device : DiscoveredDevice)
    : Statistics :=
  mkStatistics (total_devices stats)
    (count_up (text_or (dev_vendor device) "Неизвестно") (stat_vendors stats))
    (count_up (text_or (dev_device_type device) "unknown")
       (stat_device_types stats))
    (if bool_decide (is_Some (stat_protocols stats !! protocol device))
     then <[protocol device :=
              default 0 (stat_protocols stats !! protocol device) + 1]>
            (stat_protocols stats)
     else stat_protocols stats)
    (count_up (status device) (stat_status stats)).

(** The records of the result map, in the order the loop meets them (the
    counts below do not depend on it). *)
Definition devices_of (m : gmap string DiscoveredDevice)
    : list DiscoveredDevice :=
  (map_to_list m).*2.

(** [get_statistics] *)
Definition get_statistics (m : gmap string DiscoveredDevice) : Statistics :=
  foldl stats_step
    (mkStatistics (Z.of_nat (size m)) ∅ ∅
       (<["ssh" := 0]> (<["telnet" := 0]> ∅))
       (<["active" := 0]> (<["unknown" := 0]> ∅)))
    (devices_of m).

(** How many records of a list have a property. *)
Definition how_many (P : DiscoveredDevice → Prop) `{∀ d, Decision (P d)}
    (l : list DiscoveredDevice) : Z :=
  Z.of_nat (length (filter P l)).

Lemma how_many_snoc (P : DiscoveredDevice → Prop) `{∀ d, Decision (P d)} l d :
  how_many P (l ++ [d]) = how_many P l + if decide (P d) then 1 else 0.
Proof.
  unfold how_many. rewrite filter_app, length_app, filter_cons, filter_nil.
  destruct (decide (P d)); cbn [length]; lia.
Qed.

Lemma how_many_bounds (P : DiscoveredDevice → Prop) `{∀ d, Decision (P d)} l :
  0 ≤ how_many P l ≤ Z.of_nat (length l).
Proof. unfold how_many. pose proof (length_filter P l). lia. Qed.

Lemma how_many_all (P : DiscoveredDevice → Prop) `{∀ d, Decision (P d)} l :
  Forall P l → how_many P l = Z.of_nat (length l).
Proof.
  intros Hall. induction l as [|d l IH] using rev_ind; [done|].
  apply Forall_app in Hall as [Hl Hd%Forall_inv].
  rewrite how_many_snoc, length_app, IH, decide_True by done. cbn [length]. lia.
Qed.

Lemma how_many_none (P : DiscoveredDevice → Prop) `{∀ d, Decision (P d)} l :
  Forall (λ d, ¬ P d) l → how_many P l = 0.
Proof.
  intros Hall. induction l as [|d l IH] using rev_ind; [done|].
  apply Forall_app in Hall as [Hl Hd%Forall_inv].
  rewrite how_many_snoc, IH, decide_False by done. lia.
Qed.

(** A histogram built by [count_up] holds, for every key, the number of
    records with that key, and holds no key without a record. *)
Lemma histogram_spec (key : DiscoveredDevice → string) l k :
  foldl (λ counts d, count_up (key d) counts) ∅ l !! k =
    if bool_decide (how_many (λ d, key d = k) l = 0) then None
    else Some (how_many (λ d, key d = k) l).
Proof.
  induction l as [|d l IH] using rev_ind; [done|].
  rewrite foldl_snoc, how_many_snoc. unfold count_up at 1.
  pose proof (how_many_bounds (λ d, key d = k) l) as Hb.
  destruct (decide (key d = k)) as [->|Hne].
  - rewrite lookup_insert_eq, IH.
    rewrite (bool_decide_eq_false_2 (_ + 1 = 0)) by lia.
    case_bool_decide as H0; cbn [default]; f_equal; lia.
  - rewrite lookup_insert_ne, IH by done. by rewrite Z.add_0_r.
Qed.

Lemma stats_fold s l :
  total_devices (foldl stats_step s l) = total_devices s ∧
  stat_vendors (foldl stats_step s l) =
    foldl (λ counts d, count_up (text_or (dev_vendor d) "Неизвестно") counts)
      (stat_vendors s) l ∧
  stat_device_types (foldl stats_step s l) =
    foldl (λ counts d, count_up (text_or (dev_device_type d) "unknown") counts)
      (stat_device_types s) l.
Proof.
  revert s. induction l as [|d l IH]; intros s; [done|].
  cbn [foldl]. destruct (IH (stats_step s d)) as (-> & -> & ->). done.
Qed.

(** The two fixed-key counters: [protocols] counts ssh and telnet records and
    skips every other protocol; [status] starts with [active] and [unknown]
    and gains a key for any other status. *)
Lemma protocol_counts n l :
  stat_protocols
    (foldl stats_step
       (mkStatistics n ∅ ∅ (<["ssh" := 0]> (<["telnet" := 0]> ∅))
          (<["active" := 0]> (<["unknown" := 0]> ∅))) l) =
  <["ssh" := how_many (λ d, protocol d = "ssh") l]>
    (<["telnet" := how_many (λ d, protocol d = "telnet") l]> ∅).
Proof.
  induction l as [|d l IH] using rev_ind; [done|].
  rewrite foldl_snoc, !how_many_snoc. cbn [stats_step stat_protocols].
  rewrite IH. clear IH.
  set (a := how_many (λ d, protocol d = "ssh") l).
  set (b := how_many (λ d, protocol d = "telnet") l).
  destruct (decide (protocol d = "ssh")) as [Hs|Hs].
  - rewrite Hs, decide_False by done.
    rewrite lookup_insert_eq, bool_decide_eq_true_2 by by eexists.
    cbn [default]. rewrite insert_insert_eq. by rewrite Z.add_0_r.
  - destruct (decide (protocol d = "telnet")) as [Ht|Ht].
    + rewrite Ht. rewrite lookup_insert_ne, lookup_insert_eq by done.
      rewrite bool_decide_eq_true_2 by by eexists. cbn [default].
      rewrite Z.add_0_r.
      apply map_eq. intros k.
      destruct (decide (k = "ssh")) as [->|?];
        [by rewrite lookup_insert_ne, !lookup_insert_eq by done|].
      destruct (decide (k = "telnet")) as [->|?].
      * by rewrite lookup_insert_eq, lookup_insert_ne, lookup_insert_eq.
      * by rewrite !lookup_insert_ne by done.
    + rewrite !lookup_insert_ne, lookup_empty by done.
      rewrite bool_decide_eq_false_2 by (by intros [? ?]).
      by rewrite !Z.add_0_r.
Qed.

Lemma status_counts n l :
  Forall (λ d, status d = "active") l →
  stat_status
    (foldl stats_step
       (mkStatistics n ∅ ∅ (<["ssh" := 0]> (<["telnet" := 0]> ∅))
          (<["active" := 0]> (<["unknown" := 0]> ∅))) l) =
  <["active" := Z.of_nat (length l)]> (<["unknown" := 0]> ∅).
Proof.
  induction l as [|d l IH] using rev_ind; [done|].
  intros [Hl Hd%Forall_inv]%Forall_app.
  rewrite foldl_snoc. cbn [stats_step stat_status]. rewrite IH by done.
  unfold count_up. rewrite Hd, lookup_insert_eq, insert_insert_eq.
  cbn [default from_option]. unfold id. rewrite length_app. cbn [length].
  f_equal. lia.
Qed.

Lemma how_many_split (P Q : DiscoveredDevice → Prop)
    `{∀ d, Decision (P d)} `{∀ d, Decision (Q d)} l :
  Forall (λ d, (P d ∨ Q d) ∧ ¬ (P d ∧ Q d)) l →
  how_many P l + how_many Q l = Z.of_nat (length l).
Proof.
  intros Hall. induction l as [|d l IH] using rev_ind; [done|].
  apply Forall_app in Hall as [Hl [Hor Hnot]%Forall_inv].
  rewrite !how_many_snoc, length_app. cbn [length].
  specialize (IH Hl).
  destruct (decide (P d)), (decide (Q d)); try lia; tauto.
Qed.

Lemma how_many_ssh_telnet l :
  how_many (λ d, protocol d = "ssh") l +
    how_many (λ d, protocol d = "telnet") l ≤ Z.of_nat (length l).
Proof.
  induction l as [|d l IH] using rev_ind; [done|].
  rewrite !how_many_snoc, length_app. cbn [length].
  destruct (decide (protocol d = "ssh")) as [Hs|Hs],
           (decide (protocol d = "telnet")) as [Ht|Ht];
    first [lia|by rewrite Hs in Ht].
Qed.

Lemma statistics_histograms_total m :
  total_devices (get_statistics m) = Z.of_nat (size m).
Proof.
  unfold get_statistics.
  by destruct (stats_fold
    (mkStatistics (Z.of_nat (size m)) ∅ ∅
       (<["ssh" := 0]> (<["telnet" := 0]> ∅))
       (<["active" := 0]> (<["unknown" := 0]> ∅))) (devices_of m)) as (-> & _).
Qed.

(** The statistics of any result map: the total is the number of entries, the
    vendor and device-type histograms hold for each name the number of records
    with that name (a record without a vendor counts as [Неизвестно], one
    without a type as [unknown]) and no name without a record, and the
    protocol counter counts the ssh and the telnet records and nothing
    else. *)
Theorem statistics_histograms (m : gmap string DiscoveredDevice) :
  total_devices (get_statistics m) = Z.of_nat (size m) ∧
  (∀ v, stat_vendors (get_statistics m) !! v =
     if bool_decide
          (how_many (λ d, text_or (dev_vendor d) "Неизвестно" = v)
             (devices_of m) = 0)
     then None
     else Some (how_many (λ d, text_or (dev_vendor d) "Неизвестно" = v)
                  (devices_of m))) ∧
  (∀ t, stat_device_types (get_statistics m) !! t =
     if bool_decide
          (how_many (λ d, text_or (dev_device_type d) "unknown" = t)
             (devices_of m) = 0)
     then None
     else Some (how_many (λ d, text_or (dev_device_type d) "unknown" = t)
                  (devices_of m))) ∧
  stat_protocols (get_statistics m) =
    <["ssh" := how_many (λ d, protocol d = "ssh") (devices_of m)]>
      (<["telnet" := how_many (λ d, protocol d = "telnet") (devices_of m)]> ∅) ∧
  how_many (λ d, protocol d = "ssh") (devices_of m) +
    how_many (λ d, protocol d = "telnet") (devices_of m) ≤
    total_devices (get_statistics m).
Proof.
  unfold get_statistics.
  destruct (stats_fold
    (mkStatistics (Z.of_nat (size m)) ∅ ∅
       (<["ssh" := 0]> (<["telnet" := 0]> ∅))
       (<["active" := 0]> (<["unknown" := 0]> ∅))) (devices_of m))
    as (-> & -> & ->).
  cbn [total_devices stat_vendors stat_device_types].
  split_and!; [done| | |apply protocol_counts|].
  - intros v. apply histogram_spec.
  - intros t. apply histogram_spec.
  - assert (Hlen : length (devices_of m) = size m)
      by (unfold devices_of; by rewrite length_fmap, length_map_to_list).
    rewrite <- Hlen. apply how_many_ssh_telnet.
Qed.

Lemma discovered_records w creds ip_list k d :
  discovered_devices (foldl (discover_step w creds) Engine_init ip_list) !! k =
    Some d →
  (protocol d = "ssh" ∨ protocol d = "telnet") ∧ status d = "active".
Proof.
  intros Hk.
  destruct (discover_loop_spec w creds ip_list Engine_init) as (_ & H2 & _).
  destruct (H2 k d Hk) as [Hold|[_ [st Hf]]]; [done|].
  rewrite discover_single_device_eq in Hf.
  apply probe_transports_device in Hf as (t & c & hi & _ & _ & _ & Hfrom).
  apply from_discovery_fields in Hfrom as (_ & Hst & _ & Hp & _).
  split; [|done]. rewrite Hp. destruct t; [by left|by right].
Qed.

(** The statistics of a batch run on a fresh engine: every record was found
    over ssh or over telnet and is active, so the two protocol counters add up
    to the total and the status counter holds the total under [active] and 0
    under [unknown]. *)
Theorem statistics_of_batch (w : World) (max_workers : Z)
    (ip_list : list string) (creds : list DeviceCredentials) :
  0 < max_workers →
  ∃ m n_ssh n_telnet,
    (discover_devices w max_workers ip_list creds Engine_init).1 = Ok m ∧
    stat_protocols (get_statistics m) =
      <["ssh" := n_ssh]> (<["telnet" := n_telnet]> ∅) ∧
    n_ssh + n_telnet = total_devices (get_statistics m) ∧
    total_devices (get_statistics m) = Z.of_nat (size m) ∧
    stat_status (get_statistics m) =
      <["active" := total_devices (get_statistics m)]> (<["unknown" := 0]> ∅).
Proof.
  intros Hpos. unfold discover_devices.
  rewrite bool_decide_eq_false_2 by lia. cbn [fst].
  set (m := discovered_devices (foldl (discover_step w creds) Engine_init ip_list)).
  assert (Hall : Forall (λ d, (protocol d = "ssh" ∨ protocol d = "telnet") ∧
                              status d = "active") (devices_of m)).
  { apply Forall_forall. intros d Hd. unfold devices_of in Hd.
    apply list_elem_of_fmap in Hd as ([k d'] & -> & Hkd).
    apply elem_of_map_to_list in Hkd.
    by apply (discovered_records w creds ip_list k). }
  assert (Hlen : length (devices_of m) = size m)
    by (unfold devices_of; by rewrite length_fmap, length_map_to_list).
  pose proof (statistics_histograms_total m) as Htot.
  exists m, (how_many (λ d, protocol d = "ssh") (devices_of m)),
    (how_many (λ d, protocol d = "telnet") (devices_of m)).
  rewrite Htot. split_and!; [done| | |done|].
  - unfold get_statistics. apply protocol_counts.
  - rewrite <- Hlen. apply how_many_split.
    eapply Forall_impl; [exact Hall|]. intros d [Hor _]. split; [done|].
    intros [Hs Ht]. rewrite Hs in Ht. done.
  - unfold get_statistics. rewrite status_counts, Hlen; [done|].
    eapply Forall_impl; [exact Hall|]. by intros d [_ ?].
Qed.

Lemma statistics_of_batch_witness :
  ∃ m n_ssh n_telnet,
    (discover_devices lab_world 10 ["10.0.0.5"; "10.0.0.6"] [alice; carol]
       Engine_init).1 = Ok m ∧
    stat_protocols (get_statistics m) =
      <["ssh" := n_ssh]> (<["telnet" := n_telnet]> ∅) ∧
    n_ssh + n_telnet = total_devices (get_statistics m) ∧
    total_devices (get_statistics m) = Z.of_nat (size m) ∧
    stat_status (get_statistics m) =
      <["active" := total_devices (get_statistics m)]> (<["unknown" := 0]> ∅).
Proof.
  apply (statistics_of_batch lab_world 10 ["10.0.0.5"; "10.0.0.6"]
           [alice; carol]).
  lia.
Defined.

End HostProber.
